(** * RetroArch acceptance-test runner: model and verified properties

    A shallow embedding of [retroarch_mcp] (models.py, retroarch.py,
    runner.py).  The emulator, the network, the file system, the clock
    and the vision model are external: they are modelled by a record of
    oracles [Env] (what the outside answers, given the history so far) and
    a record [World] (the history: datagrams sent, children spawned, log
    handles opened and closed, files written, and the wall clock).

    Conventions.
    - Instants and finite durations are integers counting milliseconds:
      the source's [8.0] seconds is [8000], [time.sleep(0.25)] advances
      the clock by [250].  Time stamps are clock readings, not ISO
      strings.  A length handed to [time.sleep] is a [Duration]: finite,
      infinite or not a number.  A screenshot timeout is finite: one that
      is not a number or is minus infinity behaves as one that has
      elapsed, and with plus infinity the polling loop has no bound and
      no model here.
    - A [pathlib.Path] is its string, in POSIX form; [a / b] is
      [path_join a b].
    - A Python exception is a class tag and its [str()] text. *)

From Stdlib Require Import ZArith String List Bool Lia.
From Stdlib Require DecimalString.
From stdpp Require Import base option list strings gmap.

Local Open Scope string_scope.
Local Open Scope list_scope.
Local Open Scope Z_scope.

(** ** Python values *)

Inductive ExcClass :=
| RuntimeError | ValueError | TimeoutError | FileNotFoundError | OSError
| TimeoutExpired | CalledProcessError | OverflowError | OtherException.

Record Exc := mkExc { exc_class : ExcClass; exc_str : string }.

Inductive Res (A : Type) :=
| Ok (a : A)
| Raise (e : Exc).
Arguments Ok {A} a.
Arguments Raise {A} e.

(** Truth value of an [Optional[str]]: [None] and the empty string are false. *)
Definition truthy (o : option string) : bool :=
  match o with
  | Some s => negb (String.eqb s "")
  | None => false
  end.

(** The string tested by [if o:], when the test succeeds. *)
Definition given (o : option string) : option string :=
  if truthy o then o else None.

(** [a or b] on [Optional[str]]. *)
Definition py_or (a b : option string) : option string :=
  if truthy a then a else b.

Definition is_True (o : option bool) : bool :=
  match o with Some true => true | _ => false end.

Definition is_None {A} (o : option A) : bool :=
  match o with None => true | Some _ => false end.

(** ** Paths

    [str(PurePosixPath(a) / b)]: empty and [.] components are dropped,
    two leading slashes are kept and three or more are one, and an
    absolute right operand replaces the left one. *)

Definition slash : Ascii.ascii := Ascii.ascii_of_nat 47.

(** [s.split(sep)]. *)
Fixpoint split_on (sep : Ascii.ascii) (s : string) : list string :=
  match s with
  | EmptyString => [EmptyString]
  | String c r =>
      if Ascii.eqb c sep then EmptyString :: split_on sep r
      else match split_on sep r with
           | x :: xs => String c x :: xs
           | [] => [String c EmptyString]
           end
  end.

Definition is_component (c : string) : bool :=
  negb (String.eqb c "") && negb (String.eqb c ".").

Definition path_parts (s : string) : list string :=
  List.filter is_component (split_on slash s).

Definition path_root (s : string) : string :=
  if String.prefix "///" s then "/"
  else if String.prefix "//" s then "//"
  else if String.prefix "/" s then "/"
  else "".

Definition path_str (root : string) (parts : list string) : string :=
  match parts with
  | [] => if String.eqb root "" then "." else root
  | _ => root +:+ String.concat "/" parts
  end.

Definition path_join (a b : string) : string :=
  if String.prefix "/" b then path_str (path_root b) (path_parts b)
  else path_str (path_root a) (path_parts a ++ path_parts b).

(** ** Lengths of time

    A Python [float] holding seconds: a finite value, in milliseconds, an
    infinity, or not a number. *)

Inductive Duration :=
| Finite (ms : Z)
| PosInf
| NegInf
| NaN.

Coercion Finite : Z >-> Duration.

(** [d > 0]. *)
Definition positive (d : Duration) : bool :=
  match d with
  | Finite ms => ms >? 0
  | PosInf => true
  | NegInf | NaN => false
  end.

(** ** models.py *)

Module LaunchStep.
Record t := mk {
  core_path : option string;
  content_path : option string;
  config_path : option string;
  append_config_paths : list string;
  retroarch_path : option string;
  menu : option bool;
  verbose : bool;
  extra_args : list string;
  startup_wait_seconds : Duration }.
End LaunchStep.

Module InputStep.
Record t := mk { command : string; repeat : Z; delay_seconds : Duration }.
End InputStep.

Inductive CaptureMode := retroarch_mode | system_mode.

Module ScreenshotAssertStep.
Record t := mk {
  prompt : string;
  model : option string;
  timeout_seconds : Z;
  capture_mode : CaptureMode }.
End ScreenshotAssertStep.

Inductive Step :=
| Launch (s : LaunchStep.t)
| Wait (seconds : Duration)
| Command (command : string)
| Input (s : InputStep.t)
| ScreenshotAssert (s : ScreenshotAssertStep.t)
| SaveState (slot : option Z)
| LoadState (slot : option Z)
| Exit.

(** The [type] discriminator of a step. *)
Definition step_type (s : Step) : string :=
  match s with
  | Launch _ => "launch"
  | Wait _ => "wait"
  | Command _ => "command"
  | Input _ => "input"
  | ScreenshotAssert _ => "screenshot_assert"
  | SaveState _ => "save_state"
  | LoadState _ => "load_state"
  | Exit => "exit"
  end.

Module TestDefinition.
Record t := mk {
  name : string;
  core_path : option string;
  content_path : option string;
  config_path : option string;
  append_config_paths : list string;
  retroarch_path : option string;
  network_host : string;
  network_port : Z;
  output_directory : option string;
  screenshot_directory : option string;
  log_directory : option string;
  continue_on_failure : bool;
  steps : list Step }.
End TestDefinition.

Record OpenRouterEvaluation := mkEvaluation {
  ev_passed : bool;
  ev_reason : string;
  ev_raw_content : string;
  ev_parsed_json : option string }.

Module Status.
Inductive t := passed | failed | skipped.

Definition eqb (a b : t) : bool :=
  match a, b with
  | passed, passed | failed, failed | skipped, skipped => true
  | _, _ => false
  end.
End Status.

Module StepResult.
Record t := mk {
  index : nat;
  type : string;
  status : Status.t;
  started_at : Z;
  finished_at : Z;
  duration_seconds : Z;
  message : option string;
  error : option string;
  screenshot_path : option string;
  openrouter : option OpenRouterEvaluation }.
End StepResult.

Module TestRunResult.
Record t := mk {
  name : string;
  passed : bool;
  started_at : Z;
  finished_at : Z;
  duration_seconds : Z;
  output_directory : string;
  logs_directory : string;
  screenshots_directory : string;
  states_directory : string;
  log_path : string;
  steps : list StepResult.t }.
End TestRunResult.

(** ** retroarch.py: command-line construction *)

Record RetroArchArtifacts := mkArtifacts {
  output_dir : string;
  logs_dir : string;
  screenshots_dir : string;
  states_dir : string;
  append_config_path : string;
  log_path : string }.

(** [RetroArchController.build_command]; [self] is not read. *)
Definition build_command (retroarch_path : string)
    (core_path content_path config_path : option string)
    (append_config_paths : list string) (menu : option bool)
    (verbose : bool) (extra_args : list string) : list string :=
  let command := [retroarch_path] in
  let command := if verbose then command ++ ["--verbose"] else command in
  let command :=
    match given config_path with
    | Some p => command ++ ["--config"; p]
    | None => command
    end in
  let command :=
    fold_left (fun command append_path => command ++ ["--appendconfig"; append_path])
              append_config_paths command in
  let command :=
    match given core_path with
    | Some p => command ++ ["-L"; p]
    | None => command
    end in
  let command :=
    if is_True menu || (is_None menu && negb (truthy content_path))
    then command ++ ["--menu"] else command in
  let command := command ++ extra_args in
  match given content_path with
  | Some p => command ++ [p]
  | None => command
  end.

(** ** The outside world *)

Inductive Signal := SIGTERM | SIGKILL.

Inductive FileContent :=
| Text (s : string)
| Report (r : TestRunResult.t).

(** An entry of a directory: its name, what [is_file()] answers, and
    what [stat()] does: the modification time, or the exception raised
    (for a dangling link, or an entry removed meanwhile). *)
Record DirEntry := mkEntry {
  d_name : string;
  is_file : bool;
  st_mtime : Z;
  stat_raises : option Exc }.

Record OpenRouterResult := mkResult {
  r_passed : bool;
  r_reason : string;
  r_raw_content : string;
  r_parsed_json : option string }.

(** What has happened so far.  A child process is known by its position
    in [spawned], a log handle by its position in [opened]. *)
Record World := mkWorld {
  now : Z;
  environ : gmap string string;
  sent : list (string * Z * string);
  spawned : list (list string * nat);
  exited : list nat;
  signals : list (nat * Signal);
  opened : list string;
  closed : list nat;
  files : list (string * FileContent) }.

Definition set_now (t : Z) (w : World) : World :=
  mkWorld t (environ w) (sent w) (spawned w) (exited w) (signals w) (opened w) (closed w) (files w).
Definition set_environ (m : gmap string string) (w : World) : World :=
  mkWorld (now w) m (sent w) (spawned w) (exited w) (signals w) (opened w) (closed w) (files w).
Definition add_sent (d : string * Z * string) (w : World) : World :=
  mkWorld (now w) (environ w) (sent w ++ [d]) (spawned w) (exited w) (signals w) (opened w) (closed w) (files w).
Definition add_spawned (p : list string * nat) (w : World) : World :=
  mkWorld (now w) (environ w) (sent w) (spawned w ++ [p]) (exited w) (signals w) (opened w) (closed w) (files w).
Definition add_exited (pid : nat) (w : World) : World :=
  mkWorld (now w) (environ w) (sent w) (spawned w) (pid :: exited w) (signals w) (opened w) (closed w) (files w).
Definition add_signal (sg : nat * Signal) (w : World) : World :=
  mkWorld (now w) (environ w) (sent w) (spawned w) (exited w) (signals w ++ [sg]) (opened w) (closed w) (files w).
Definition add_opened (path : string) (w : World) : World :=
  mkWorld (now w) (environ w) (sent w) (spawned w) (exited w) (signals w) (opened w ++ [path]) (closed w) (files w).
Definition add_closed (h : nat) (w : World) : World :=
  mkWorld (now w) (environ w) (sent w) (spawned w) (exited w) (signals w) (opened w) (closed w ++ [h]) (files w).
Definition add_file (f : string * FileContent) (w : World) : World :=
  mkWorld (now w) (environ w) (sent w) (spawned w) (exited w) (signals w) (opened w) (closed w) (files w ++ [f]).

(** What the outside answers.  Every oracle that can depend on the
    moment takes the history so far.  [read_env_file] is what reading
    an env file gives: the pairs the loop of [load_env_file] draws from
    its lines, or the exception of the read.  [sleep_raises] is the
    system's refusal of a sleep whose length converts, and
    [sleep_overflow_text] the interpreter's text for one that does
    not. *)
Record Env := mkEnv {
  cwd : string;
  expanduser : string -> string;
  strftime : Z -> string;
  platform_system : string;
  which : string -> option string;
  path_exists : World -> string -> bool;
  mkdir_raises : World -> string -> option Exc;
  read_env_file : World -> string -> Res (list (string * string));
  write_raises : World -> string -> option Exc;
  open_raises : World -> string -> option Exc;
  close_raises : World -> nat -> option Exc;
  popen_raises : World -> list string -> option Exc;
  sendto_raises : World -> string -> Z -> string -> option Exc;
  has_exited : World -> nat -> bool;
  exits_within : World -> nat -> Z -> bool;
  scandir : World -> string -> list DirEntry;
  run_raises : World -> list string -> option Exc;
  validate_image : World -> string -> string -> option string -> Res OpenRouterResult;
  sleep_overflow_text : string;
  sleep_raises : World -> Z -> option Exc }.

(** ** The process environment *)

Definition has_nul (s : string) : bool :=
  match String.index 0 (String (Ascii.ascii_of_nat 0) EmptyString) s with
  | Some _ => true
  | None => false
  end.

(** [os.environ.setdefault(key, value)]: a variable that is set is left
    alone; setting one whose name or value holds a null character is a
    [ValueError]. *)
Definition setdefault (key value : string) (m : gmap string string)
    : Res unit * gmap string string :=
  match m !! key with
  | Some _ => (Ok tt, m)
  | None =>
      if has_nul key || has_nul value
      then (Raise (mkExc ValueError "embedded null byte"), m)
      else (Ok tt, <[key := value]> m)
  end.

(** [setdefault] for each pair in turn, up to the first that raises. *)
Fixpoint setdefault_all (pairs : list (string * string)) (m : gmap string string)
    : Res unit * gmap string string :=
  match pairs with
  | [] => (Ok tt, m)
  | (key, value) :: rest =>
      match setdefault key value m with
      | (Ok _, m') => setdefault_all rest m'
      | (Raise e, m') => (Raise e, m')
      end
  end.

(** ** A state and exception monad *)

Definition M (S A : Type) : Type := S -> Res A * S.

Definition ret {S A} (a : A) : M S A := fun s => (Ok a, s).

Definition raise {S A} (e : Exc) : M S A := fun s => (Raise e, s).

Definition bind {S A B} (c : M S A) (k : A -> M S B) : M S B :=
  fun s => match c s with
           | (Ok a, s') => k a s'
           | (Raise e, s') => (Raise e, s')
           end.

Notation "x <- c ;; k" := (bind c (fun x => k))
  (at level 100, c at next level, right associativity).
Notation "c ;; k" := (bind c (fun _ => k))
  (at level 100, right associativity).

Definition get {S} : M S S := fun s => (Ok s, s).

Definition modify {S} (f : S -> S) : M S unit := fun s => (Ok tt, f s).

(** [try: c / except Exception as e: h e]. *)
Definition try_except {S A} (c : M S A) (h : Exc -> M S A) : M S A :=
  fun s => match c s with
           | (Ok a, s') => (Ok a, s')
           | (Raise e, s') => h e s'
           end.

Definition class_eqb (a b : ExcClass) : bool :=
  match a, b with
  | RuntimeError, RuntimeError | ValueError, ValueError
  | TimeoutError, TimeoutError | FileNotFoundError, FileNotFoundError
  | OSError, OSError | TimeoutExpired, TimeoutExpired
  | CalledProcessError, CalledProcessError
  | OverflowError, OverflowError
  | OtherException, OtherException => true
  | _, _ => false
  end.

(** [try: c / except cls as e: h e]: other classes propagate. *)
Definition try_except_class {S A} (cls : ExcClass) (c : M S A) (h : Exc -> M S A) : M S A :=
  try_except c (fun e => if class_eqb (exc_class e) cls then h e else raise e).

(** A [while cond: body] loop, unrolled at most [fuel] times.  Each loop
    below is given a bound computed on entry, and is shown to leave only
    with its condition false or by an exception. *)
Fixpoint while_ {S} (fuel : nat) (cond : S -> bool) (body : M S unit) : M S unit :=
  fun s =>
    match fuel with
    | O => (Ok tt, s)
    | Datatypes.S fuel' =>
        if cond s then
          match body s with
          | (Ok _, s') => while_ fuel' cond body s'
          | (Raise e, s') => (Raise e, s')
          end
        else (Ok tt, s)
    end.

(** ** Primitive operations on the world *)

Section Model.

Variable E : Env.

(** [time.time()]: the clock moves only by [sleep] and by a [wait] that
    times out. *)
Definition time_time : M World Z := fun w => (Ok (now w), w).

(** The longest length [time.sleep] can convert: the nanoseconds of a
    signed 64-bit count. *)
Definition sleep_limit : Z := 9223372036854.

(** [time.sleep(d)].  A length that is not a number is a [ValueError];
    one that does not convert, an infinity among them, is an
    [OverflowError] with the interpreter's text; a negative one is a
    [ValueError]; and the system may refuse one it cannot hold
    ([sleep_raises]). *)
Definition time_sleep (d : Duration) : M World unit :=
  fun w =>
    match d with
    | NaN => (Raise (mkExc ValueError "Invalid value NaN (not a number)"), w)
    | PosInf | NegInf => (Raise (mkExc OverflowError (sleep_overflow_text E)), w)
    | Finite ms =>
        if Z.abs ms >? sleep_limit
        then (Raise (mkExc OverflowError (sleep_overflow_text E)), w)
        else if ms <? 0
        then (Raise (mkExc ValueError "sleep length must be non-negative"), w)
        else match sleep_raises E w ms with
             | Some e => (Raise e, w)
             | None => (Ok tt, set_now (now w + ms) w)
             end
    end.

(** utils.py [ensure_dir]. *)
Definition ensure_dir (path : string) : M World string :=
  fun w => match mkdir_raises E w path with
           | Some e => (Raise e, w)
           | None => (Ok path, w)
           end.

(** [path.write_text(...)] and utils.py [write_json]. *)
Definition write_file (path : string) (content : FileContent) : M World unit :=
  fun w => match write_raises E w path with
           | Some e => (Raise e, w)
           | None => (Ok tt, add_file (path, content) w)
           end.

(** [path.open("w")]: the new handle is the number of handles opened before. *)
Definition open_w (path : string) : M World nat :=
  fun w => match open_raises E w path with
           | Some e => (Raise e, w)
           | None => (Ok (length (opened w)), add_opened path w)
           end.

(** [handle.close()]: the call is recorded whether or not it raises. *)
Definition close (h : nat) : M World unit :=
  fun w => match close_raises E w h with
           | Some e => (Raise e, add_closed h w)
           | None => (Ok tt, add_closed h w)
           end.

(** [subprocess.Popen(command, stdout=log_file, ...)]. *)
Definition Popen (command : list string) (log_file : nat) : M World nat :=
  fun w => match popen_raises E w command with
           | Some e => (Raise e, w)
           | None => (Ok (length (spawned w)), add_spawned (command, log_file) w)
           end.

(** [process.poll() is not None]; a child seen exited stays exited. *)
Definition poll (pid : nat) : M World bool :=
  fun w => if bool_decide (pid ∈ exited w) then (Ok true, w)
           else if has_exited E w pid then (Ok true, add_exited pid w)
           else (Ok false, w).

(** [process.wait(timeout=t)]. *)
Definition wait (pid : nat) (t : Z) : M World unit :=
  fun w => if bool_decide (pid ∈ exited w) then (Ok tt, w)
           else if exits_within E w pid t then (Ok tt, add_exited pid w)
           else (Raise (mkExc TimeoutExpired "timed out"), set_now (now w + t) w).

(** [process.terminate()] and [process.kill()]: the signal is recorded. *)
Definition terminate (pid : nat) : M World unit := modify (add_signal (pid, SIGTERM)).

Definition kill (pid : nat) : M World unit := modify (add_signal (pid, SIGKILL)).

(** [sock.sendto(payload, (host, port))] on a fresh datagram socket. *)
Definition sendto (host : string) (port : Z) (payload : string) : M World unit :=
  fun w => match sendto_raises E w host port payload with
           | Some e => (Raise e, w)
           | None => (Ok tt, add_sent (host, port, payload) w)
           end.

Definition contains_dot (name : string) : bool :=
  match String.index 0 "." name with Some _ => true | None => false end.

(** [dir.glob("*.*")]: the entries whose name contains a dot. *)
Definition glob_star_dot_star (dir : string) : M World (list DirEntry) :=
  fun w => (Ok (filter (fun e => contains_dot (d_name e) = true) (scandir E w dir)), w).

(** ** retroarch.py: the controller *)

Record Controller := mkController {
  _host : string;
  _port : Z;
  _artifacts : RetroArchArtifacts;
  _process : option nat;
  _log_handle : option nat;
  _state_slot : Z }.

Record Sys := mkSys { ctl : Controller; wld : World }.

(** [RetroArchController.__init__]. *)
Definition new_controller (host : string) (port : Z) (artifacts : RetroArchArtifacts) : Controller :=
  mkController host port artifacts None None 0.

(** An operation on the world, run by the controller. *)
Definition liftW {A} (c : M World A) : M Sys A :=
  fun s => let '(r, w') := c (wld s) in (r, mkSys (ctl s) w').

(** Reading and assigning the controller's attributes. *)
Definition self : M Sys Controller := fun s => (Ok (ctl s), s).

Definition set_process (p : option nat) : M Sys unit :=
  modify (fun s => let c := ctl s in
    mkSys (mkController (_host c) (_port c) (_artifacts c) p (_log_handle c) (_state_slot c)) (wld s)).

Definition set_log_handle (h : option nat) : M Sys unit :=
  modify (fun s => let c := ctl s in
    mkSys (mkController (_host c) (_port c) (_artifacts c) (_process c) h (_state_slot c)) (wld s)).

Definition set_slot (n : Z) : M Sys unit :=
  modify (fun s => let c := ctl s in
    mkSys (mkController (_host c) (_port c) (_artifacts c) (_process c) (_log_handle c) n) (wld s)).

Definition mac_bundle : string := "/Applications/RetroArch.app/Contents/MacOS/RetroArch".

(** [RetroArchController.resolve_retroarch_path]: the first match wins. *)
Definition resolve_retroarch_path (override : option string) : M World string :=
  fun w =>
    match given override with
    | Some p => (Ok p, w)
    | None =>
        match given (environ w !! "RETROARCH_PATH") with
        | Some env_override => (Ok env_override, w)
        | None =>
            match given (which E "retroarch") with
            | Some binary => (Ok binary, w)
            | None =>
                if path_exists E w mac_bundle then (Ok mac_bundle, w)
                else (Raise (mkExc FileNotFoundError
                  "RetroArch executable not found. Provide retroarch_path or set RETROARCH_PATH."), w)
            end
        end
    end.

(** [RetroArchController.send_command]: one datagram to the configured target. *)
Definition send_command (command : string) : M Sys unit :=
  c <- self ;;
  liftW (sendto (_host c) (_port c) command).

(** [RetroArchController.launch]: refused while a child is alive; then the
    path is resolved, the previous log handle closed, the log reopened and
    the child spawned. *)
Definition launch (core_path content_path config_path : option string)
    (append_config_paths : list string) (retroarch_path : option string)
    (menu : option bool) (verbose : bool) (extra_args : list string) : M Sys nat :=
  c <- self ;;
  running <- match _process c with
             | Some p => dead <- liftW (poll p) ;; ret (negb dead)
             | None => ret false
             end ;;
  if running : bool then raise (mkExc RuntimeError "RetroArch is already running.")
  else
    resolved_path <- liftW (resolve_retroarch_path retroarch_path) ;;
    let command := build_command resolved_path core_path content_path config_path
                     append_config_paths menu verbose extra_args in
    match _log_handle c with
    | Some h => try_except (liftW (close h)) (fun _ => ret tt)
    | None => ret tt
    end ;;
    log_file <- liftW (open_w (log_path (_artifacts c))) ;;
    set_log_handle (Some log_file) ;;
    process <- liftW (Popen command log_file) ;;
    set_process (Some process) ;;
    ret process.

(** [RetroArchController.set_state_slot]: the two [while] loops, each with
    the distance to the target, read on entry, as its bound. *)
Definition set_state_slot (slot : Z) : M Sys unit :=
  if slot <? 0 then raise (mkExc ValueError "State slot must be non-negative.")
  else
    c <- self ;;
    while_ (Z.to_nat (slot - _state_slot c))
      (fun s => _state_slot (ctl s) <? slot)
      (send_command "STATE_SLOT_PLUS" ;;
       c <- self ;; set_slot (_state_slot c + 1)) ;;
    c <- self ;;
    while_ (Z.to_nat (_state_slot c - slot))
      (fun s => _state_slot (ctl s) >? slot)
      (send_command "STATE_SLOT_MINUS" ;;
       c <- self ;; set_slot (_state_slot c - 1)).

(** [path.stat().st_mtime]. *)
Definition stat_mtime (e : DirEntry) : Res Z :=
  match stat_raises e with
  | Some x => Raise x
  | None => Ok (st_mtime e)
  end.

(** The snapshot dictionary [{path.name: path.stat().st_mtime ...}],
    filled entry by entry on top of [m]; a [stat()] that raises ends it. *)
Fixpoint snapshot_from (m : gmap string Z) (entries : list DirEntry) : Res (gmap string Z) :=
  match entries with
  | [] => Ok m
  | e :: rest =>
      match stat_mtime e with
      | Ok mtime => snapshot_from (<[d_name e := mtime]> m) rest
      | Raise x => Raise x
      end
  end.

Definition snapshot (entries : list DirEntry) : Res (gmap string Z) :=
  snapshot_from ∅ entries.

(** The polling loop's inner [for]: the first entry that is a file and
    whose name the snapshot lacks or whose modification time, read then,
    is later than the start; [None] when the [for] runs out.  An entry
    whose name the snapshot lacks is returned without a [stat()]. *)
Fixpoint first_capture (before : gmap string Z) (start_time : Z) (entries : list DirEntry)
    : Res (option DirEntry) :=
  match entries with
  | [] => Ok None
  | e :: rest =>
      if negb (is_file e) then first_capture before start_time rest
      else
        match before !! d_name e with
        | None => Ok (Some e)
        | Some _ =>
            match stat_mtime e with
            | Raise x => Raise x
            | Ok mtime =>
                if mtime >? start_time then Ok (Some e)
                else first_capture before start_time rest
            end
        end
  end.

(** The [while time.time() < deadline] loop of [capture_screenshot];
    [Some path] is the [return path] inside the loop. *)
Fixpoint poll_screenshots (fuel : nat) (dir : string) (before : gmap string Z)
    (start_time deadline : Z) : M World (option string) :=
  fun w =>
    match fuel with
    | O => (Ok None, w)
    | S fuel' =>
        if now w <? deadline then
          match glob_star_dot_star dir w with
          | (Ok entries, w1) =>
              match first_capture before start_time entries with
              | Ok (Some e) => (Ok (Some (path_join dir (d_name e))), w1)
              | Ok None =>
                  match time_sleep 250 w1 with
                  | (Ok _, w2) => poll_screenshots fuel' dir before start_time deadline w2
                  | (Raise e, w2) => (Raise e, w2)
                  end
              | Raise x => (Raise x, w1)
              end
          | (Raise e, w1) => (Raise e, w1)
          end
        else (Ok None, w)
    end.

(** [RetroArchController.capture_screenshot], for a finite timeout; the
    polling loop is bounded by the time left to the deadline. *)
Definition capture_screenshot (timeout_seconds : Z) : M Sys string :=
  c <- self ;;
  screenshots_dir <- liftW (ensure_dir (screenshots_dir (_artifacts c))) ;;
  start_time <- liftW time_time ;;
  entries <- liftW (glob_star_dot_star screenshots_dir) ;;
  before <- liftW (fun w => (snapshot entries, w)) ;;
  send_command "SCREENSHOT" ;;
  let deadline := start_time + timeout_seconds in
  t <- liftW time_time ;;
  found <- liftW (poll_screenshots (Z.to_nat (deadline - t)) screenshots_dir
                    before start_time deadline) ;;
  match found with
  | Some path => ret path
  | None => raise (mkExc TimeoutError "Timed out waiting for RetroArch screenshot output.")
  end.

(** [RetroArchController.shutdown]; [gone] is the [return] after the first
    wait. *)
Definition shutdown (timeout_seconds : Z) : M Sys unit :=
  c <- self ;;
  match _process c with
  | None => ret tt
  | Some p =>
      dead <- liftW (poll p) ;;
      if dead : bool then ret tt
      else
        try_except (send_command "QUIT") (fun _ => ret tt) ;;
        gone <- try_except_class TimeoutExpired
                  (liftW (wait p timeout_seconds) ;; ret true)
                  (fun _ => ret false) ;;
        if gone : bool then ret tt
        else
          liftW (terminate p) ;;
          try_except_class TimeoutExpired
            (liftW (wait p timeout_seconds))
            (fun _ => liftW (kill p) ;; liftW (wait p timeout_seconds)) ;;
          c <- self ;;
          match _log_handle c with
          | Some h =>
              try_except (liftW (close h)) (fun _ => ret tt) ;;
              set_log_handle None
          | None => ret tt
          end
  end.

(** ** runner.py *)

Record OpenRouterClient := mkClient { _api_key : string }.

Record TestRunContext := mkContext {
  definition : TestDefinition.t;
  artifacts : RetroArchArtifacts;
  openrouter : option OpenRouterClient }.

Definition dq : string := String (Ascii.ascii_of_nat 34) EmptyString.

Definition str_Z (z : Z) : string := DecimalString.NilZero.string_of_int (Z.to_int z).

(** [str(x)] for the float [x] that holds [ms] milliseconds as seconds:
    the whole part, a point, and the thousandths without their trailing
    zeros, one digit at least. *)
Definition str_seconds (ms : Z) : string :=
  let f := Z.abs ms mod 1000 in
  let a := str_Z (f / 100) in
  let b := str_Z (f / 10 mod 10) in
  let c := str_Z (f mod 10) in
  (if ms <? 0 then "-" else "") +:+ str_Z (Z.abs ms / 1000) +:+ "."
  +:+ (if negb (f mod 10 =? 0) then a +:+ b +:+ c
       else if negb (f mod 100 =? 0) then a +:+ b
       else a).

Definition str_duration (d : Duration) : string :=
  match d with
  | Finite ms => str_seconds ms
  | PosInf => "inf"
  | NegInf => "-inf"
  | NaN => "nan"
  end.

(** [_build_artifacts]: the run's directories, created in this order. *)
Definition _build_artifacts (definition : TestDefinition.t) : M World RetroArchArtifacts :=
  t <- time_time ;;
  let output_base :=
    match given (TestDefinition.output_directory definition) with
    | Some d => d
    | None => path_join (cwd E) "retroarch-test-runs"
    end in
  output_dir <- ensure_dir
    (path_join output_base (TestDefinition.name definition +:+ "-" +:+ strftime E t)) ;;
  logs_dir <- ensure_dir
    match given (TestDefinition.log_directory definition) with
    | Some d => expanduser E d
    | None => path_join output_dir "logs"
    end ;;
  screenshots_dir <- ensure_dir
    match given (TestDefinition.screenshot_directory definition) with
    | Some d => expanduser E d
    | None => path_join output_dir "screenshots"
    end ;;
  states_dir <- ensure_dir (path_join output_dir "states") ;;
  ret (mkArtifacts output_dir logs_dir screenshots_dir states_dir
         (path_join output_dir "retroarch-append.cfg")
         (path_join logs_dir "retroarch.log")).

Definition wants_system_capture (step : Step) : bool :=
  match step with
  | ScreenshotAssert s =>
      match ScreenshotAssertStep.capture_mode s with system_mode => true | retroarch_mode => false end
  | _ => false
  end.

Definition newline : string := String (Ascii.ascii_of_nat 10) EmptyString.

(** [_write_append_config]: the lines of the generated append-config. *)
Definition _write_append_config (artifacts : RetroArchArtifacts)
    (definition : TestDefinition.t) : M World unit :=
  let lines :=
    [ "network_cmd_enable = " +:+ dq +:+ "true" +:+ dq;
      "screenshot_directory = " +:+ dq +:+ screenshots_dir artifacts +:+ dq;
      "savestate_directory = " +:+ dq +:+ states_dir artifacts +:+ dq ] in
  let force_fullscreen := existsb wants_system_capture (TestDefinition.steps definition) in
  let lines :=
    if force_fullscreen then lines ++ ["video_fullscreen = " +:+ dq +:+ "true" +:+ dq]
    else lines in
  write_file (append_config_path artifacts) (Text (String.concat newline lines +:+ newline)).

(** The retry loop of [_capture_system_screenshot]; the result is [last_error]. *)
Fixpoint screencapture_loop (fuel : nat) (command target : string) (deadline : Z)
    (last_error : option Exc) : M World (option Exc) :=
  fun w =>
    match fuel with
    | O => (Ok last_error, w)
    | S fuel' =>
        if now w <? deadline then
          match run_raises E w [command; "-x"; "-t"; "png"; target] with
          | None => (Ok last_error, w)
          | Some exc =>
              if class_eqb (exc_class exc) CalledProcessError then
                match time_sleep 250 w with
                | (Ok _, w') => screencapture_loop fuel' command target deadline (Some exc) w'
                | (Raise e, w') => (Raise e, w')
                end
              else (Raise exc, w)
          end
        else (Ok last_error, w)
    end.

(** [_capture_system_screenshot]; the controller is the one of the state. *)
Definition _capture_system_screenshot (artifacts : RetroArchArtifacts)
    (timeout_seconds : Z) : M Sys string :=
  screenshots_dir <- liftW (ensure_dir (screenshots_dir artifacts)) ;;
  t0 <- liftW time_time ;;
  let target := path_join screenshots_dir ("system-" +:+ strftime E t0 +:+ ".png") in
  if negb (String.eqb (platform_system E) "Darwin")
  then raise (mkExc RuntimeError "System screenshot capture is only supported on macOS.")
  else
    c <- self ;;
    stopped <- match _process c with
               | None => ret true
               | Some p => liftW (poll p)
               end ;;
    if stopped : bool
    then raise (mkExc RuntimeError "RetroArch must be running to capture a system screenshot.")
    else
      let command := match given (which E "screencapture") with
                     | Some p => p
                     | None => "/usr/sbin/screencapture"
                     end in
      if String.eqb command ""
      then raise (mkExc FileNotFoundError "screencapture command not found on this system.")
      else
        t <- liftW time_time ;;
        let deadline := t + timeout_seconds in
        last_error <- liftW (screencapture_loop (Z.to_nat (deadline - t)) command target
                               deadline None) ;;
        present <- liftW (fun w => (Ok (path_exists E w target), w)) ;;
        if present : bool then ret target
        else raise (mkExc RuntimeError
               ("System screenshot capture failed to create output file. Last error: "
                +:+ match last_error with Some e => exc_str e | None => "None" end)).

(** utils.py [load_env_file].  A missing file is a [FileNotFoundError];
    reading the file may raise (a directory, no permission, bytes that
    are not UTF-8), and then nothing is set; otherwise
    [os.environ.setdefault] is called for the pairs of the file, in
    order, and the first one that raises ends the loop with the earlier
    ones set. *)
Definition load_env_file (path : string) : M World unit :=
  fun w =>
    let env_path := expanduser E path in
    if negb (path_exists E w env_path)
    then (Raise (mkExc FileNotFoundError ("Env file not found: " +:+ env_path)), w)
    else match read_env_file E w env_path with
         | Raise e => (Raise e, w)
         | Ok pairs =>
             let '(r, m) := setdefault_all pairs (environ w) in (r, set_environ m w)
         end.

(** [_resolve_openrouter]: a client only when the key is set and non-empty. *)
Definition _resolve_openrouter (env_path : option string) : M World (option OpenRouterClient) :=
  match given env_path with
  | Some p => load_env_file p
  | None =>
      let default_env := path_join (cwd E) ".env" in
      w <- get ;;
      if path_exists E w default_env then load_env_file default_env else ret tt
  end ;;
  w <- get ;;
  match given (environ w !! "OPENROUTER_API_KEY") with
  | Some api_key => ret (Some (mkClient api_key))
  | None => ret None
  end.

(** The local variables of [_run_step] that its [try] block assigns; an
    exception leaves them as they were when it was raised. *)
Record Locals := mkLocals {
  l_status : Status.t;
  l_message : option string;
  l_error : option string;
  l_screenshot_path : option string;
  l_openrouter_eval : option OpenRouterEvaluation }.

Definition assign (f : Locals -> Locals) : M (Locals * Sys) unit :=
  modify (fun ls => (f ls.1, ls.2)).

Definition set_status (v : Status.t) (l : Locals) : Locals :=
  mkLocals v (l_message l) (l_error l) (l_screenshot_path l) (l_openrouter_eval l).
Definition set_message (v : string) (l : Locals) : Locals :=
  mkLocals (l_status l) (Some v) (l_error l) (l_screenshot_path l) (l_openrouter_eval l).
Definition set_error (v : string) (l : Locals) : Locals :=
  mkLocals (l_status l) (l_message l) (Some v) (l_screenshot_path l) (l_openrouter_eval l).
Definition set_screenshot_path (v : string) (l : Locals) : Locals :=
  mkLocals (l_status l) (l_message l) (l_error l) (Some v) (l_openrouter_eval l).
Definition set_openrouter_eval (v : OpenRouterEvaluation) (l : Locals) : Locals :=
  mkLocals (l_status l) (l_message l) (l_error l) (l_screenshot_path l) (Some v).

Definition liftS {A} (c : M Sys A) : M (Locals * Sys) A :=
  fun ls => let '(r, s') := c ls.2 in (r, (ls.1, s')).

(** [for _ in range(n): body]. *)
Fixpoint for_range {S} (n : nat) (body : M S unit) : M S unit :=
  match n with
  | O => ret tt
  | Datatypes.S n' => body ;; for_range n' body
  end.

Definition default_shutdown_timeout : Z := 8000.

(** The capture of a [screenshot_assert] step, by [capture_mode]. *)
Definition capture (context : TestRunContext) (st : ScreenshotAssertStep.t) : M Sys string :=
  match ScreenshotAssertStep.capture_mode st with
  | system_mode =>
      _capture_system_screenshot (artifacts context) (ScreenshotAssertStep.timeout_seconds st)
  | retroarch_mode =>
      capture_screenshot (ScreenshotAssertStep.timeout_seconds st)
  end.

(** The [try] block of [_run_step]: the dispatch on the step's kind. *)
Definition dispatch (step : Step) (context : TestRunContext)
    (append_configs : list string) : M (Locals * Sys) unit :=
  let d := definition context in
  match step with
  | Launch st =>
      liftS (launch
        (py_or (LaunchStep.core_path st) (TestDefinition.core_path d))
        (py_or (LaunchStep.content_path st) (TestDefinition.content_path d))
        (py_or (LaunchStep.config_path st) (TestDefinition.config_path d))
        append_configs
        (py_or (LaunchStep.retroarch_path st) (TestDefinition.retroarch_path d))
        (LaunchStep.menu st) (LaunchStep.verbose st) (LaunchStep.extra_args st)) ;;
      liftS (liftW (time_sleep (LaunchStep.startup_wait_seconds st))) ;;
      assign (set_message "RetroArch launched")
  | Wait seconds =>
      liftS (liftW (time_sleep seconds)) ;;
      assign (set_message ("Waited " +:+ str_duration seconds +:+ " seconds"))
  | Command command =>
      liftS (send_command command) ;;
      assign (set_message ("Sent command " +:+ command))
  | Input st =>
      for_range (Z.to_nat (InputStep.repeat st))
        (liftS (send_command (InputStep.command st)) ;;
         if positive (InputStep.delay_seconds st)
         then liftS (liftW (time_sleep (InputStep.delay_seconds st)))
         else ret tt) ;;
      assign (set_message ("Sent " +:+ InputStep.command st +:+ " x" +:+ str_Z (InputStep.repeat st)))
  | SaveState slot =>
      match slot with
      | Some n => liftS (set_state_slot n)
      | None => ret tt
      end ;;
      liftS (send_command "SAVE_STATE") ;;
      assign (set_message "Save state command issued")
  | LoadState slot =>
      match slot with
      | Some n => liftS (set_state_slot n)
      | None => ret tt
      end ;;
      liftS (send_command "LOAD_STATE") ;;
      assign (set_message "Load state command issued")
  | ScreenshotAssert st =>
      screenshot <- liftS (capture context st) ;;
      assign (set_screenshot_path screenshot) ;;
      match openrouter context with
      | None =>
          assign (set_status Status.failed) ;;
          assign (set_error "OPENROUTER_API_KEY not configured")
      | Some client =>
          let prompt :=
            "You are a strict visual QA assistant. "
            +:+ "Return a JSON object ONLY with keys 'pass' (boolean) and 'reason' (string). "
            +:+ "Criteria: " +:+ ScreenshotAssertStep.prompt st in
          result <- liftS (liftW (fun w =>
                      (validate_image E w prompt screenshot (ScreenshotAssertStep.model st), w))) ;;
          assign (set_openrouter_eval
                    (mkEvaluation (r_passed result) (r_reason result)
                       (r_raw_content result) (r_parsed_json result))) ;;
          if negb (r_passed result)
          then assign (set_status Status.failed) ;; assign (set_error (r_reason result))
          else ret tt
      end
  | Exit =>
      liftS (shutdown default_shutdown_timeout) ;;
      assign (set_message "RetroArch shutdown requested")
  end.

(** [TestRunner._run_step]. *)
Definition _run_step (index : nat) (step : Step) (context : TestRunContext)
    (append_configs : list string) : M Sys StepResult.t :=
  fun s =>
    let start_time := now (wld s) in
    let started_at := now (wld s) in
    let locals := mkLocals Status.passed None None None None in
    let '(_, (locals, s')) :=
      try_except (dispatch step context append_configs)
        (fun exc => assign (set_status Status.failed) ;; assign (set_error (exc_str exc)))
        (locals, s) in
    let finished_at := now (wld s') in
    let duration := finished_at - start_time in
    (Ok (StepResult.mk index (step_type step) (l_status locals) started_at finished_at
           duration (l_message locals) (l_error locals) (l_screenshot_path locals)
           (l_openrouter_eval locals)), s').

(** The [for index, step in enumerate(definition.steps)] loop of [run],
    from position [index] on; the state carried is [step_results] and
    [passed]. *)
Fixpoint run_steps (context : TestRunContext) (append_configs : list string)
    (index : nat) (steps : list Step) (step_results : list StepResult.t)
    (passed : bool) : M Sys (list StepResult.t * bool) :=
  match steps with
  | [] => ret (step_results, passed)
  | step :: rest =>
      result <- _run_step index step context append_configs ;;
      let step_results := step_results ++ [result] in
      if Status.eqb (StepResult.status result) Status.failed then
        let passed := false in
        if negb (TestDefinition.continue_on_failure (definition context))
        then ret (step_results, passed)
        else run_steps context append_configs (Datatypes.S index) rest step_results passed
      else run_steps context append_configs (Datatypes.S index) rest step_results passed
  end.

(** [try: c / finally: f]. *)
Definition try_finally {S A} (c : M S A) (f : M S unit) : M S A :=
  fun s => match c s with
           | (r, s') => match f s' with
                        | (Ok _, s'') => (r, s'')
                        | (Raise e, s'') => (Raise e, s'')
                        end
           end.

(** [TestRunner.run]; the controller lives for the run only. *)
Definition run (env_path : option string) (definition : TestDefinition.t)
    : M World TestRunResult.t :=
  artifacts <- _build_artifacts definition ;;
  _write_append_config artifacts definition ;;
  let append_configs :=
    TestDefinition.append_config_paths definition ++ [append_config_path artifacts] in
  let controller :=
    new_controller (TestDefinition.network_host definition)
      (TestDefinition.network_port definition) artifacts in
  openrouter <- _resolve_openrouter env_path ;;
  let context := mkContext definition artifacts openrouter in
  started_at <- time_time ;;
  start_time <- time_time ;;
  fun w =>
    match try_finally
            (run_steps context append_configs 0%nat (TestDefinition.steps definition) [] true)
            (shutdown default_shutdown_timeout)
            (mkSys controller w) with
    | (Raise e, s) => (Raise e, wld s)
    | (Ok (step_results, passed), s) =>
        (finished_at <- time_time ;;
         t <- time_time ;;
         let total_duration := t - start_time in
         let test_result :=
           TestRunResult.mk (TestDefinition.name definition) passed started_at finished_at
             total_duration (output_dir artifacts) (logs_dir artifacts)
             (screenshots_dir artifacts) (states_dir artifacts) (log_path artifacts)
             step_results in
         write_file (path_join (output_dir artifacts) "results.json") (Report test_result) ;;
         ret test_result) (wld s)
    end.

End Model.

Arguments run_steps E context append_configs index steps step_results passed : simpl nomatch.

(** ** The argument vector, written out

    [argv_layout] is the order of the arguments as the construction
    produces them.  [argv_as_claimed] is the documented order: the same,
    except that the menu flag is emitted whenever it is requested or no
    content path is given.  In both, a path is given when it is present
    and not empty, as Python's truth test has it. *)

Definition appendconfig_pairs (paths : list string) : list string :=
  flat_map (fun p => ["--appendconfig"; p]) paths.

Definition opt_flag (flag : string) (o : option string) : list string :=
  match o with Some p => [flag; p] | None => [] end.

Definition opt_arg (o : option string) : list string :=
  match o with Some p => [p] | None => [] end.

(** Everything [build_command] emits after the append-config pairs. *)
Definition tail_args (core_path content_path : option string) (menu : option bool)
    (extra_args : list string) : list string :=
  opt_flag "-L" (given core_path)
  ++ (if is_True menu || (is_None menu && negb (truthy content_path)) then ["--menu"] else [])
  ++ extra_args ++ opt_arg (given content_path).

Definition argv_layout (retroarch_path : string)
    (core_path content_path config_path : option string)
    (append_config_paths : list string) (menu : option bool)
    (verbose : bool) (extra_args : list string) : list string :=
  [retroarch_path]
  ++ (if verbose then ["--verbose"] else [])
  ++ opt_flag "--config" (given config_path)
  ++ appendconfig_pairs append_config_paths
  ++ tail_args core_path content_path menu extra_args.

Definition argv_as_claimed (retroarch_path : string)
    (core_path content_path config_path : option string)
    (append_config_paths : list string) (menu : option bool)
    (verbose : bool) (extra_args : list string) : list string :=
  [retroarch_path]
  ++ (if verbose then ["--verbose"] else [])
  ++ opt_flag "--config" (given config_path)
  ++ appendconfig_pairs append_config_paths
  ++ opt_flag "-L" (given core_path)
  ++ (if is_True menu || negb (truthy content_path) then ["--menu"] else [])
  ++ extra_args ++ opt_arg (given content_path).

(** The argument that follows the last occurrence of [tok]: [None] when
    [tok] does not occur, [Some None] when its last occurrence ends the
    vector. *)
Fixpoint arg_after_last (tok : string) (argv : list string) : option (option string) :=
  match argv with
  | [] => None
  | a :: rest =>
      match arg_after_last tok rest with
      | Some r => Some r
      | None => if String.eqb a tok then Some (head rest) else None
      end
  end.

(** ** States reached by the cursor moves *)

Definition with_slot (c : Controller) (n : Z) : Controller :=
  mkController (_host c) (_port c) (_artifacts c) (_process c) (_log_handle c) n.

(** [k] copies of the datagram that carries [command] to the controller's target. *)
Definition datagrams (c : Controller) (command : string) (k : nat) : list (string * Z * string) :=
  repeat (_host c, _port c, command) k.

Definition with_sent (l : list (string * Z * string)) (w : World) : World :=
  mkWorld (now w) (environ w) (sent w ++ l) (spawned w) (exited w) (signals w)
    (opened w) (closed w) (files w).

(** The state after [k] cursor commands from [s] towards [slot]: the
    cursor has moved [k] steps and [k] datagrams were sent, increments if
    the target is above the cursor, decrements otherwise. *)
Definition moved (s : Sys) (slot : Z) (k : nat) : Sys :=
  let C := _state_slot (ctl s) in
  mkSys (with_slot (ctl s) (if C <? slot then C + Z.of_nat k else C - Z.of_nat k))
        (with_sent (datagrams (ctl s)
                      (if C <? slot then "STATE_SLOT_PLUS" else "STATE_SLOT_MINUS") k)
                   (wld s)).

(** The network accepts every datagram for the controller's target. *)
Definition sends_succeed (E : Env) (c : Controller) : Prop :=
  forall w command, sendto_raises E w (_host c) (_port c) command = None.

(** ** Scenarios

    A calm outside: nothing raises, [retroarch] is on the search path, a
    child stays alive until asked to quit and then exits within the
    grace period, and the screenshot directory stays empty. *)

Definition calm : Env :=
  {| cwd := "/work";
     expanduser := fun p => p;
     strftime := fun _ => "20260101-000000";
     platform_system := "Linux";
     which := fun name => if String.eqb name "retroarch" then Some "/usr/bin/retroarch" else None;
     path_exists := fun _ _ => false;
     mkdir_raises := fun _ _ => None;
     read_env_file := fun _ _ => Ok [];
     write_raises := fun _ _ => None;
     open_raises := fun _ _ => None;
     close_raises := fun _ _ => None;
     popen_raises := fun _ _ => None;
     sendto_raises := fun _ _ _ _ => None;
     has_exited := fun _ _ => false;
     exits_within := fun _ _ _ => true;
     scandir := fun _ _ => [];
     run_raises := fun _ _ => None;
     validate_image := fun _ _ _ _ => Raise (mkExc OtherException "no validator");
     sleep_overflow_text := "timestamp too large to convert to C _PyTime_t";
     sleep_raises := fun _ _ => None |}.

Definition genesis : World := mkWorld 0 ∅ [] [] [] [] [] [] [].

Definition sample_artifacts : RetroArchArtifacts :=
  mkArtifacts "/out" "/out/logs" "/out/screenshots" "/out/states"
    "/out/retroarch-append.cfg" "/out/logs/retroarch.log".

(** A controller that has launched nothing, with its cursor on [slot]. *)
Definition idle_at (slot : Z) : Sys :=
  mkSys (mkController "127.0.0.1" 55355 sample_artifacts None None slot) genesis.

(** The state after one plain launch from the idle controller. *)
Definition launched_once : Sys :=
  (launch calm None None None ["/out/retroarch-append.cfg"] None None false [] (idle_at 0)).2.

(** The child [pid] is still alive: [poll()] would answer [None]. *)
Definition alive (E : Env) (w : World) (pid : nat) : Prop :=
  (pid ∉ exited w) /\ has_exited E w pid = false.

(** A stubborn child: it ignores [QUIT] and exits only once signalled. *)
Definition stubborn : Env :=
  {| cwd := cwd calm;
     expanduser := expanduser calm;
     strftime := strftime calm;
     platform_system := platform_system calm;
     which := which calm;
     path_exists := path_exists calm;
     mkdir_raises := mkdir_raises calm;
     read_env_file := read_env_file calm;
     write_raises := write_raises calm;
     open_raises := open_raises calm;
     close_raises := close_raises calm;
     popen_raises := popen_raises calm;
     sendto_raises := sendto_raises calm;
     has_exited := has_exited calm;
     exits_within := fun w _ _ => negb (Nat.eqb (length (signals w)) 0);
     scandir := scandir calm;
     run_raises := run_raises calm;
     validate_image := validate_image calm;
     sleep_overflow_text := sleep_overflow_text calm;
     sleep_raises := sleep_raises calm |}.

Definition launched_stubborn : Sys :=
  (launch stubborn None None None ["/out/retroarch-append.cfg"] None None false [] (idle_at 0)).2.

(** A definition with the given caller append-configs and steps, and
    defaults elsewhere; a launch step with the given free-form arguments. *)
Definition definition_with (continue_on_failure : bool) (append_config_paths : list string)
    (steps : list Step) : TestDefinition.t :=
  TestDefinition.mk "retroarch-test" None None None append_config_paths None
    "127.0.0.1" 55355 None None None continue_on_failure steps.

Definition launch_with (extra_args : list string) : Step :=
  Launch (LaunchStep.mk None None None [] None None false extra_args 2000).

(** A four-step test whose third step asks for an invalid slot. *)
Definition four_steps : list Step :=
  [launch_with []; Command "PAUSE_TOGGLE"; SaveState (Some (-1)); Wait 100].

(** An emulator that answers [SCREENSHOT] at once: the screenshot
    directory holds one old file, and a new one as soon as the datagram
    has been sent. *)
Definition old_shot : DirEntry := mkEntry "title.png" true (-5000) None.
Definition new_shot : DirEntry := mkEntry "game-260101-000000.png" true 0 None.

Definition snappy : Env :=
  {| cwd := cwd calm;
     expanduser := expanduser calm;
     strftime := strftime calm;
     platform_system := platform_system calm;
     which := which calm;
     path_exists := path_exists calm;
     mkdir_raises := mkdir_raises calm;
     read_env_file := read_env_file calm;
     write_raises := write_raises calm;
     open_raises := open_raises calm;
     close_raises := close_raises calm;
     popen_raises := popen_raises calm;
     sendto_raises := sendto_raises calm;
     has_exited := has_exited calm;
     exits_within := exits_within calm;
     scandir := fun w _ =>
       if existsb (fun d => String.eqb d.2 "SCREENSHOT") (sent w)
       then [old_shot; new_shot] else [old_shot];
     run_raises := run_raises calm;
     validate_image := validate_image calm;
     sleep_overflow_text := sleep_overflow_text calm;
     sleep_raises := sleep_raises calm |}.










Definition screenshot_step : ScreenshotAssertStep.t :=
  ScreenshotAssertStep.mk "the title screen is shown" None 1000 retroarch_mode.

Definition no_validator : TestRunContext :=
  mkContext (definition_with false [] [ScreenshotAssert screenshot_step]) sample_artifacts None.

(** ** Notions used in the statements *)

(** Whatever the outcome, the state [c] ends in is [R]-related to the
    state it started from. *)
Definition Respects {S A} (R : S -> S -> Prop) (c : M S A) : Prop :=
  forall s, R s (c s).2.

(** A relation on worlds, read on controller states and on the frames
    of [_run_step]. *)
Definition onW (R : World -> World -> Prop) : Sys -> Sys -> Prop :=
  fun s s' => R (wld s) (wld s').

Definition onS (R : Sys -> Sys -> Prop) : Locals * Sys -> Locals * Sys -> Prop :=
  fun ls ls' => R ls.2 ls'.2.

(** From [w] to [w'] the children spawned are new ones that satisfy [P]. *)
Definition spawns_only (P : list string * nat -> Prop) (w w' : World) : Prop :=
  exists new, spawned w' = spawned w ++ new /\ Forall P new.

(** The children a run of [d] may spawn: one per execution of a [launch]
    step, with the command line built from the step, the definition's
    defaults and the run's append-config list. *)
Definition launched_by (d : TestDefinition.t) (append_configs : list string)
    (x : list string * nat) : Prop :=
  exists st resolved_path,
    Launch st ∈ TestDefinition.steps d
    /\ x.1 = build_command resolved_path
               (py_or (LaunchStep.core_path st) (TestDefinition.core_path d))
               (py_or (LaunchStep.content_path st) (TestDefinition.content_path d))
               (py_or (LaunchStep.config_path st) (TestDefinition.config_path d))
               append_configs (LaunchStep.menu st) (LaunchStep.verbose st)
               (LaunchStep.extra_args st).

(** The status and the error text of a step agree. *)
Definition consistent (status : Status.t) (error : option string) : Prop :=
  (status = Status.passed /\ error = None) \/ (status = Status.failed /\ is_Some error).

(** The [try] block's view: status and error are not assigned. *)
Definition same_verdict : Locals * Sys -> Locals * Sys -> Prop :=
  fun ls ls' => l_status ls'.1 = l_status ls.1 /\ l_error ls'.1 = l_error ls.1.

(** When [c] returns, status and error agree, provided they did before. *)
Definition Settles {A} (c : M (Locals * Sys) A) : Prop :=
  forall ls, consistent (l_status ls.1) (l_error ls.1) ->
             match c ls with
             | (Ok _, ls') => consistent (l_status ls'.1) (l_error ls'.1)
             | (Raise _, _) => True
             end.

Definition not_failed (sr : StepResult.t) : bool :=
  negb (Status.eqb (StepResult.status sr) Status.failed).

(** The entries [glob("*.*")] yields in world [w]. *)
Definition listing (E : Env) (dir : string) (w : World) : list DirEntry :=
  filter (fun e => contains_dot (d_name e) = true) (scandir E w dir).

Definition timed_out : Exc :=
  mkExc TimeoutError "Timed out waiting for RetroArch screenshot output.".




(** The controller keeps its process handle and child [p], once seen
    exited, stays so. *)
Definition keeps_child (p : nat) (s s' : Sys) : Prop :=
  _process (ctl s') = _process (ctl s) /\ (p ∈ exited (wld s) -> p ∈ exited (wld s')).

(** A child that was sent [SIGKILL] is reaped by the wait that follows. *)
Definition kill_is_final (E : Env) : Prop :=
  forall w p t, (p, SIGKILL) ∈ signals w -> exits_within E w p t = true.

(** ** States reached by [launch] and [shutdown] *)

Definition handle_list (h : option nat) : list nat :=
  match h with Some h => [h] | None => [] end.

Definition with_log_handle (c : Controller) (h : option nat) : Controller :=
  mkController (_host c) (_port c) (_artifacts c) (_process c) h (_state_slot c).

Definition with_process (c : Controller) (p : option nat) : Controller :=
  mkController (_host c) (_port c) (_artifacts c) p (_log_handle c) (_state_slot c).

Definition with_closed (l : list nat) (w : World) : World :=
  mkWorld (now w) (environ w) (sent w) (spawned w) (exited w) (signals w)
    (opened w) (closed w ++ l) (files w).

(** The end of [shutdown] after a signal: the log handle, if any, is
    closed and forgotten. *)
Definition log_closed (c : Controller) (w : World) : Sys :=
  mkSys (with_log_handle c None) (with_closed (handle_list (_log_handle c)) w).

(** The world after the best-effort [QUIT]. *)
Definition quit_sent (E : Env) (c : Controller) (w : World) : World :=
  match sendto_raises E w (_host c) (_port c) "QUIT" with
  | Some _ => w
  | None => add_sent (_host c, _port c, "QUIT") w
  end.

(** What a [poll] or a [wait] may change: the clock and the children
    seen exited. *)
Definition settled (w w' : World) : Prop :=
  environ w' = environ w /\ sent w' = sent w /\ spawned w' = spawned w
  /\ signals w' = signals w /\ opened w' = opened w /\ closed w' = closed w
  /\ files w' = files w.


(** ** What [_run_step] reports *)

(** The locals of [_run_step] before its [try] block. *)
Definition fresh_locals : Locals := mkLocals Status.passed None None None None.

(** The result built from the locals once the step is over. *)
Definition report (index : nat) (step : Step) (s s' : Sys) (l : Locals) : StepResult.t :=
  StepResult.mk index (step_type step) (l_status l) (now (wld s)) (now (wld s'))
    (now (wld s') - now (wld s)) (l_message l) (l_error l) (l_screenshot_path l)
    (l_openrouter_eval l).

(** The result of a step that passed with [message], and of one that
    failed with [error]. *)
Definition passed_with (message : string) : Locals :=
  mkLocals Status.passed (Some message) None None None.

Definition failed_with (error : string) : Locals :=
  mkLocals Status.failed None (Some error) None None.

(** The pause after each datagram of an [input] step, when the sleep
    returns. *)
Definition pause (st : InputStep.t) : Z :=
  match InputStep.delay_seconds st with
  | Finite ms => if ms >? 0 then ms else 0
  | _ => 0
  end.

(** The state once one more datagram with [command] has gone out. *)
Definition after_datagram (s : Sys) (command : string) : Sys :=
  mkSys (ctl s) (add_sent (_host (ctl s), _port (ctl s), command) (wld s)).

(** The pauses of an [input] step return: there are none, or their
    length converts and the system never refuses it. *)
Definition pauses_return (E : Env) (st : InputStep.t) : Prop :=
  positive (InputStep.delay_seconds st) = false
  \/ exists ms, InputStep.delay_seconds st = Finite ms /\ ms <= sleep_limit
                /\ forall w, sleep_raises E w ms = None.

(** The state after [k] datagrams of an [input] step, each followed by
    its pause. *)
Definition typed (s : Sys) (st : InputStep.t) (k : nat) : Sys :=
  mkSys (ctl s)
        (set_now (now (wld s) + Z.of_nat k * pause st)
           (with_sent (datagrams (ctl s) (InputStep.command st) k) (wld s))).

(** The question put to the validator. *)
Definition qa_prompt (st : ScreenshotAssertStep.t) : string :=
  "You are a strict visual QA assistant. "
  +:+ "Return a JSON object ONLY with keys 'pass' (boolean) and 'reason' (string). "
  +:+ "Criteria: " +:+ ScreenshotAssertStep.prompt st.

(** ** What the steps of a run leave alone *)

(** From [w] to [w'] nothing was spawned or written, the environment is
    the same, and the children seen exited still are. *)
Definition undisturbed (w w' : World) : Prop :=
  spawned w' = spawned w /\ files w' = files w /\ environ w' = environ w
  /\ (forall p, p ∈ exited w -> p ∈ exited w').

(** Every child spawned since the first [base] ones has been seen
    exited, except the one the controller holds. *)
Definition reaped (base : nat) (s : Sys) : Prop :=
  forall pid, (base <= pid < length (spawned (wld s)))%nat ->
    pid ∈ exited (wld s) \/ _process (ctl s) = Some pid.

(** What every operation of the controller and every step preserves. *)
Definition run_frame (base : nat) (s s' : Sys) : Prop :=
  files (wld s') = files (wld s) /\ environ (wld s') = environ (wld s)
  /\ (forall p, p ∈ exited (wld s) -> p ∈ exited (wld s'))
  /\ (reaped base s -> reaped base s').

(** The text of the generated append-config. *)
Definition append_config_text (screenshots_dir states_dir : string) (fullscreen : bool) : string :=
  String.concat newline
    ([ "network_cmd_enable = " +:+ dq +:+ "true" +:+ dq;
       "screenshot_directory = " +:+ dq +:+ screenshots_dir +:+ dq;
       "savestate_directory = " +:+ dq +:+ states_dir +:+ dq ]
     ++ (if fullscreen then ["video_fullscreen = " +:+ dq +:+ "true" +:+ dq] else []))
  +:+ newline.

(** The context and the controller [run] builds once set-up is done. *)
Definition run_context (d : TestDefinition.t) (a : RetroArchArtifacts)
    (o : option OpenRouterClient) : TestRunContext := mkContext d a o.

Definition run_append_configs (d : TestDefinition.t) (a : RetroArchArtifacts) : list string :=
  TestDefinition.append_config_paths d ++ [append_config_path a].

Definition run_controller (d : TestDefinition.t) (a : RetroArchArtifacts) : Controller :=
  new_controller (TestDefinition.network_host d) (TestDefinition.network_port d) a.

(** The result [run] builds from the loop's outcome. *)
Definition run_report (d : TestDefinition.t) (a : RetroArchArtifacts) (started finished : Z)
    (step_results : list StepResult.t) (passed : bool) : TestRunResult.t :=
  TestRunResult.mk (TestDefinition.name d) passed started finished (finished - started)
    (output_dir a) (logs_dir a) (screenshots_dir a) (states_dir a) (log_path a) step_results.

(** ** More scenarios *)

(** An emulator that answers at once and a validator that approves. *)
Definition approving : Env :=
  {| cwd := cwd snappy;
     expanduser := expanduser snappy;
     strftime := strftime snappy;
     platform_system := platform_system snappy;
     which := which snappy;
     path_exists := path_exists snappy;
     mkdir_raises := mkdir_raises snappy;
     read_env_file := read_env_file snappy;
     write_raises := write_raises snappy;
     open_raises := open_raises snappy;
     close_raises := close_raises snappy;
     popen_raises := popen_raises snappy;
     sendto_raises := sendto_raises snappy;
     has_exited := has_exited snappy;
     exits_within := exits_within snappy;
     scandir := scandir snappy;
     run_raises := run_raises snappy;
     validate_image := fun _ _ _ _ => Ok (mkResult true "title screen visible" "pass" None);
     sleep_overflow_text := sleep_overflow_text snappy;
     sleep_raises := sleep_raises snappy |}.

Definition with_validator : TestRunContext :=
  mkContext (definition_with false [] [ScreenshotAssert screenshot_step]) sample_artifacts
    (Some (mkClient "sk-test")).











(** ** Where a run's datagrams and log output go *)

(** From [w] to [w'] nothing was sent and no file was opened. *)
Definition silent (w w' : World) : Prop :=
  sent w' = sent w /\ opened w' = opened w.

(** The controller keeps its target and its artifacts; what was sent
    went to that target, and what was opened is its log file. *)
Definition addressed (s s' : Sys) : Prop :=
  _host (ctl s') = _host (ctl s) /\ _port (ctl s') = _port (ctl s)
  /\ _artifacts (ctl s') = _artifacts (ctl s)
  /\ (exists new, sent (wld s') = sent (wld s) ++ new
                  /\ Forall (fun d => d.1 = (_host (ctl s), _port (ctl s))) new)
  /\ (exists new, opened (wld s') = opened (wld s) ++ new
                  /\ Forall (fun p => p = log_path (_artifacts (ctl s))) new).

(** ** openrouter.py: the verdict drawn from the model's reply

    What [validate_image] reads in the parsed reply: whether a value is
    a boolean, and its [str()]. *)

Inductive Json :=
| JBool (b : bool)
| JString (s : string)
| JOther (str : string).

Definition py_str (v : Json) : string :=
  match v with
  | JBool true => "True"
  | JBool false => "False"
  | JString s => s
  | JOther s => s
  end.

Definition missing_payload : string :=
  "Model response did not contain required JSON payload.".

(** The end of [validate_image]: [passed] and [reason] from the
    dictionary [_extract_json] found, if any. *)
Definition verdict (parsed : option (gmap string Json)) : bool * string :=
  match parsed with
  | Some m =>
      if bool_decide (m = ∅) then (false, missing_payload)
      else
        match m !! "pass" with
        | Some (JBool b) =>
            (b, match m !! "reason" with Some v => py_str v | None => "" end)
        | _ => (false, missing_payload)
        end
  | None => (false, missing_payload)
  end.

(** A validator that answers with the verdict on a fixed reply. *)
Definition replying (parsed : option (gmap string Json)) : Env :=
  {| cwd := cwd snappy;
     expanduser := expanduser snappy;
     strftime := strftime snappy;
     platform_system := platform_system snappy;
     which := which snappy;
     path_exists := path_exists snappy;
     mkdir_raises := mkdir_raises snappy;
     read_env_file := read_env_file snappy;
     write_raises := write_raises snappy;
     open_raises := open_raises snappy;
     close_raises := close_raises snappy;
     popen_raises := popen_raises snappy;
     sendto_raises := sendto_raises snappy;
     has_exited := has_exited snappy;
     exits_within := exits_within snappy;
     scandir := scandir snappy;
     run_raises := run_raises snappy;
     validate_image := fun _ _ _ _ =>
       Ok (mkResult (verdict parsed).1 (verdict parsed).2 "reply" None);
     sleep_overflow_text := sleep_overflow_text snappy;
     sleep_raises := sleep_raises snappy |}.

(** ** utils.py: one line of an env file

    The body of the loop of [load_env_file], on a line whose characters
    are code points below 256. *)

(** [str.isspace] on one character. *)
Definition is_space (c : Ascii.ascii) : bool :=
  let n := Ascii.nat_of_ascii c in
  ((9 <=? n)%nat && (n <=? 13)%nat) || ((28 <=? n)%nat && (n <=? 32)%nat)
  || (n =? 133)%nat || (n =? 160)%nat.

Definition is_dquote (c : Ascii.ascii) : bool := Ascii.eqb c (Ascii.ascii_of_nat 34).

Definition is_squote (c : Ascii.ascii) : bool := Ascii.eqb c (Ascii.ascii_of_nat 39).

Fixpoint lstrip (p : Ascii.ascii -> bool) (s : string) : string :=
  match s with
  | EmptyString => EmptyString
  | String c r => if p c then lstrip p r else s
  end.

Fixpoint rstrip (p : Ascii.ascii -> bool) (s : string) : string :=
  match s with
  | EmptyString => EmptyString
  | String c r =>
      match rstrip p r with
      | EmptyString => if p c then EmptyString else String c EmptyString
      | r' => String c r'
      end
  end.

(** [s.strip()] and [s.strip(chars)], for the characters [p] accepts. *)
Definition strip_by (p : Ascii.ascii -> bool) (s : string) : string := rstrip p (lstrip p s).

(** [s.split(sep, 1)] when [sep in s]. *)
Fixpoint split_once (sep : Ascii.ascii) (s : string) : option (string * string) :=
  match s with
  | EmptyString => None
  | String c r =>
      if Ascii.eqb c sep then Some (EmptyString, r)
      else match split_once sep r with
           | Some (a, b) => Some (String c a, b)
           | None => None
           end
  end.

(** [s[n:]]. *)
Fixpoint string_drop (n : nat) (s : string) : string :=
  match n, s with
  | O, _ => s
  | S n', String _ r => string_drop n' r
  | S _, EmptyString => EmptyString
  end.

Definition equals_sign : Ascii.ascii := Ascii.ascii_of_nat 61.

(** One turn of the loop: the pair to set, or [None] for [continue]. *)
Definition parse_env_line (raw_line : string) : option (string * string) :=
  let line := strip_by is_space raw_line in
  if String.eqb line "" || String.prefix "#" line then None
  else
    let line := if String.prefix "export " line then string_drop 7 line else line in
    match split_once equals_sign line with
    | None => None
    | Some (key, value) =>
        let key := strip_by is_space key in
        let value := strip_by is_squote (strip_by is_dquote (strip_by is_space value)) in
        if String.eqb key "" then None else Some (key, value)
    end.

(** Every character of [s] satisfies [p]. *)
Fixpoint all_of (p : Ascii.ascii -> bool) (s : string) : bool :=
  match s with
  | EmptyString => true
  | String c r => p c && all_of p r
  end.

(** [s] has no character that [p] accepts at either end. *)
Definition trimmed (p : Ascii.ascii -> bool) (s : string) : Prop :=
  lstrip p s = s /\ rstrip p s = s.

Definition sq : string := String (Ascii.ascii_of_nat 39) EmptyString.

(** A key that survives the loop as it is. *)
Definition plain_key (k : string) : Prop :=
  k <> "" /\ trimmed is_space k /\ split_once equals_sign k = None
  /\ String.prefix "#" k = false /\ String.prefix "export " k = false /\ k <> "export".

(* ===================================================================== *)
(** * Verified properties *)
(* ===================================================================== *)

(** ** Command-line construction *)

Lemma fold_appendconfig (paths command : list string) :
  fold_left (fun command append_path => command ++ ["--appendconfig"; append_path])
            paths command
  = command ++ appendconfig_pairs paths.
Proof.
  revert command. induction paths as [|p paths IH]; intros command; simpl.
  - by rewrite app_nil_r.
  - rewrite IH. by rewrite <- app_assoc.
Qed.

Lemma build_command_layout retroarch_path core_path content_path config_path
    append_config_paths menu verbose extra_args :
  build_command retroarch_path core_path content_path config_path
    append_config_paths menu verbose extra_args
  = argv_layout retroarch_path core_path content_path config_path
      append_config_paths menu verbose extra_args.
Proof.
  unfold build_command, argv_layout, tail_args, opt_flag, opt_arg.
  rewrite fold_appendconfig.
  destruct verbose, (given config_path), (given core_path), (given content_path),
    (is_True menu || (is_None menu && negb (truthy content_path)));
    simpl; rewrite <- ?app_assoc; simpl; rewrite ?app_nil_r; reflexivity.
Qed.

(** C3 (as amended).  For every input, the argument vector is the
    executable, then [--verbose] if verbose is set, then [--config <path>]
    if a non-empty config path is given, then one [--appendconfig <path>]
    pair per append path in caller order, then [-L <core-path>] if a
    non-empty core path is given, then [--menu] when menu is [True], or
    when menu is [None] and no non-empty content path is given, then the
    extra arguments, then the non-empty content path last. *)
Theorem build_command_exact_order :
  forall retroarch_path core_path content_path config_path append_config_paths
         menu verbose extra_args,
    build_command retroarch_path core_path content_path config_path
      append_config_paths menu verbose extra_args
    = [retroarch_path]
      ++ (if verbose then ["--verbose"] else [])
      ++ opt_flag "--config" (given config_path)
      ++ appendconfig_pairs append_config_paths
      ++ opt_flag "-L" (given core_path)
      ++ (if is_True menu || (is_None menu && negb (truthy content_path))
          then ["--menu"] else [])
      ++ extra_args
      ++ opt_arg (given content_path).
Proof.
  intros. rewrite build_command_layout. reflexivity.
Qed.

(** The construction and the documented order differ only when the menu
    is explicitly refused and there is nothing to run. *)
Lemma build_command_as_claimed_unless_menu_refused
    retroarch_path core_path content_path config_path append_config_paths
    menu verbose extra_args :
  menu <> Some false \/ truthy content_path = true ->
  build_command retroarch_path core_path content_path config_path
    append_config_paths menu verbose extra_args
  = argv_as_claimed retroarch_path core_path content_path config_path
      append_config_paths menu verbose extra_args.
Proof.
  intros H. rewrite build_command_layout. unfold argv_layout, argv_as_claimed, tail_args.
  replace (is_True menu || (is_None menu && negb (truthy content_path)))
    with (is_True menu || negb (truthy content_path)); [reflexivity|].
  destruct menu as [[|]|], (truthy content_path); try reflexivity.
  destruct H; [congruence | discriminate].
Qed.

(** C3 (as stated) fails: with [menu = False] and no content path the
    claim puts [--menu] in the vector, the construction does not. *)
Lemma build_command_menu_false_counterexample :
  build_command "retroarch" None None None [] (Some false) false []
  <> argv_as_claimed "retroarch" None None None [] (Some false) false [].
Proof. vm_compute. discriminate. Qed.

(** ** The state-slot cursor *)

Section Slot.
Variable E : Env.

Lemma sys_eta s : mkSys (ctl s) (wld s) = s.
Proof. by destruct s. Qed.

Lemma with_slot_same c : with_slot c (_state_slot c) = c.
Proof. by destruct c. Qed.

Lemma with_sent_nil w : with_sent [] w = w.
Proof. destruct w. unfold with_sent. simpl. by rewrite app_nil_r. Qed.

Lemma send_command_eq command s :
  send_command E command s
  = match sendto_raises E (wld s) (_host (ctl s)) (_port (ctl s)) command with
    | Some e => (Raise e, s)
    | None => (Ok tt, mkSys (ctl s) (add_sent (_host (ctl s), _port (ctl s), command) (wld s)))
    end.
Proof.
  unfold send_command, bind, self, liftW, sendto.
  destruct (sendto_raises E (wld s) (_host (ctl s)) (_port (ctl s)) command);
    [by rewrite sys_eta | reflexivity].
Qed.

(** One turn of a cursor loop: send [command], then move the cursor by [d]. *)
Lemma slot_step_eq command d s :
  (send_command E command ;; c <- self ;; set_slot (_state_slot c + d)) s
  = match sendto_raises E (wld s) (_host (ctl s)) (_port (ctl s)) command with
    | Some e => (Raise e, s)
    | None => (Ok tt, mkSys (with_slot (ctl s) (_state_slot (ctl s) + d))
                        (add_sent (_host (ctl s), _port (ctl s), command) (wld s)))
    end.
Proof.
  unfold bind at 1. rewrite send_command_eq.
  destruct (sendto_raises E (wld s) (_host (ctl s)) (_port (ctl s)) command); reflexivity.
Qed.

Lemma stay command s :
  mkSys (with_slot (ctl s) (_state_slot (ctl s)))
        (with_sent (datagrams (ctl s) command 0) (wld s)) = s.
Proof. unfold datagrams. simpl. by rewrite with_sent_nil, with_slot_same, sys_eta. Qed.

Lemma add_sent_with_sent d k w :
  with_sent (repeat d k) (add_sent d w) = with_sent (repeat d (S k)) w.
Proof.
  unfold with_sent, add_sent. simpl. by rewrite <- app_assoc.
Qed.

(** The cursor loops of [set_state_slot]: [d] is [1] with [STATE_SLOT_PLUS]
    and [-1] with [STATE_SLOT_MINUS]; [gap s] is what is left to walk. *)
Lemma slot_loop_spec (command : string) (d : Z) (cond : Sys -> bool) (gap : Controller -> Z)
    (Hcond : forall s, cond s = (0 <? gap (ctl s)))
    (Hgap : forall c n, gap (with_slot c n) = gap c - (n - _state_slot c) * d)
    (Hd : d * d = 1) :
  forall (fuel : nat) (s : Sys),
  exists (k : nat) r,
    while_ fuel cond (send_command E command ;; c <- self ;; set_slot (_state_slot c + d)) s
    = (r, mkSys (with_slot (ctl s) (_state_slot (ctl s) + Z.of_nat k * d))
                (with_sent (datagrams (ctl s) command k) (wld s)))
    /\ (k <= fuel)%nat
    /\ (Z.of_nat k <= Z.max 0 (gap (ctl s)))
    /\ (r = Ok tt -> (Z.to_nat (gap (ctl s)) <= fuel)%nat -> k = Z.to_nat (gap (ctl s)))
    /\ (sends_succeed E (ctl s) -> r = Ok tt)
    /\ (gap (ctl s) <= 0 -> r = Ok tt).
Proof.
  induction fuel as [|fuel IH]; intros s.
  - exists 0%nat, (Ok tt). rewrite Z.mul_0_l, Z.add_0_r, stay. simpl. repeat split; lia.
  - cbn [while_]. rewrite Hcond. destruct (0 <? gap (ctl s)) eqn:Hc.
    + apply Z.ltb_lt in Hc. rewrite slot_step_eq.
      destruct (sendto_raises E (wld s) (_host (ctl s)) (_port (ctl s)) command) eqn:Hs.
      * exists 0%nat, (Raise e). rewrite Z.mul_0_l, Z.add_0_r, stay.
        split; [reflexivity|]. split; [lia|]. split; [lia|]. split; [discriminate|].
        split; [|lia]. intros H. rewrite H in Hs. discriminate.
      * match goal with |- context [while_ fuel _ _ ?s1] =>
          destruct (IH s1) as (k & r & Heq & Hk & Hle & Hex & Hok & _) end.
        rewrite Heq. cbn [ctl wld] in *.
        rewrite Hgap in Hle, Hex.
        replace ((_state_slot (ctl s) + d - _state_slot (ctl s)) * d) with 1 in Hle, Hex by nia.
        exists (S k), r. split.
        { f_equal. f_equal.
          - unfold with_slot. cbn. f_equal. lia.
          - unfold datagrams. apply add_sent_with_sent. }
        split; [lia|]. split; [lia|]. split.
        { intros Hr Hf. specialize (Hex Hr). lia. }
        split; [|lia]. intros H. apply Hok. intros. apply H.
    + apply Z.ltb_ge in Hc. exists 0%nat, (Ok tt). rewrite Z.mul_0_l, Z.add_0_r, stay.
      repeat split; lia.
Qed.

Lemma set_state_slot_spec (slot : Z) (s : Sys) :
  0 <= slot ->
  exists (k : nat) r,
    set_state_slot E slot s = (r, moved s slot k)
    /\ (k <= Z.to_nat (Z.abs (_state_slot (ctl s) - slot)))%nat
    /\ (r = Ok tt -> k = Z.to_nat (Z.abs (_state_slot (ctl s) - slot)))
    /\ (sends_succeed E (ctl s) -> r = Ok tt)
    /\ (_state_slot (ctl s) = slot -> r = Ok tt).
Proof.
  intros Hslot. unfold set_state_slot.
  destruct (slot <? 0) eqn:Hneg; [apply Z.ltb_lt in Hneg; lia|].
  unfold bind at 1. cbn [self]. unfold bind at 1.
  destruct (slot_loop_spec "STATE_SLOT_PLUS" 1
              (fun s => _state_slot (ctl s) <? slot) (fun c => slot - _state_slot c))
    with (fuel := Z.to_nat (slot - _state_slot (ctl s))) (s := s)
    as (k1 & r1 & Heq1 & Hk1 & Hle1 & Hex1 & Hok1 & Hz1).
  { intros s0. destruct (Z.ltb_spec (_state_slot (ctl s0)) slot), (Z.ltb_spec 0 (slot - _state_slot (ctl s0))); lia || reflexivity. }
  { intros c n. cbn. lia. }
  { reflexivity. }
  rewrite Heq1. clear Heq1.
  destruct r1 as [[]|e1].
  - specialize (Hex1 eq_refl (Nat.le_refl _)).
    unfold bind at 1. cbn [self ctl wld with_slot _state_slot].
    destruct (slot_loop_spec "STATE_SLOT_MINUS" (-1)
              (fun s => _state_slot (ctl s) >? slot) (fun c => _state_slot c - slot))
      with (fuel := Z.to_nat (_state_slot (ctl s) + Z.of_nat k1 * 1 - slot))
           (s := mkSys (with_slot (ctl s) (_state_slot (ctl s) + Z.of_nat k1 * 1))
                       (with_sent (datagrams (ctl s) "STATE_SLOT_PLUS" k1) (wld s)))
      as (k2 & r2 & Heq2 & Hk2 & Hle2 & Hex2 & Hok2 & Hz2).
    { intros s0. rewrite Z.gtb_ltb.
      destruct (Z.ltb_spec slot (_state_slot (ctl s0))), (Z.ltb_spec 0 (_state_slot (ctl s0) - slot)); lia || reflexivity. }
    { intros c n. cbn. lia. }
    { reflexivity. }
    change (fun c : Controller => set_slot (_state_slot c + -1))
      with (fun c : Controller => set_slot (_state_slot c - 1)) in Heq2.
    cbn [ctl wld with_slot _state_slot] in Heq2, Hle2, Hex2, Hk2, Hz2, Hok2.
    rewrite Heq2. clear Heq2.
    destruct (Z.ltb_spec (_state_slot (ctl s)) slot) as [Hlt|Hge].
    + (* upwards: the second loop does not run *)
      assert (k2 = 0%nat) by lia. subst k2.
      exists k1, r2. unfold moved.
      destruct (Z.ltb_spec (_state_slot (ctl s)) slot); [|lia].
      split.
      { f_equal. f_equal.
        - unfold with_slot. cbn. f_equal. lia.
        - unfold datagrams. cbn. by rewrite with_sent_nil. }
      split; [lia|]. split; [lia|].
      split; intros; apply Hz2; lia.
    + (* downwards or in place: the first loop does not run *)
      assert (k1 = 0%nat) by lia. clear Hex1. subst k1.
      exists k2, r2. unfold moved.
      destruct (Z.ltb_spec (_state_slot (ctl s)) slot); [lia|].
      split.
      { f_equal. f_equal.
        - unfold with_slot. cbn. f_equal. lia.
        - unfold datagrams. cbn. by rewrite with_sent_nil. }
      split; [lia|]. split; [intros Hr; specialize (Hex2 Hr); lia|].
      split; [intros; apply Hok2; cbn; auto | intros; apply Hz2; lia].
  - exists k1, (Raise e1). unfold moved.
    destruct (Z.ltb_spec (_state_slot (ctl s)) slot) as [Hlt|Hge].
    + split; [f_equal; f_equal; unfold with_slot; f_equal; lia|].
      split; [lia|]. split; [discriminate|].
      split; [exact Hok1 | intros; apply Hz1; lia].
    + assert (Raise e1 = Ok tt) by (apply Hz1; lia). discriminate.
Qed.
End Slot.

Lemma moved_0 (slot : Z) (s : Sys) : moved s slot 0 = s.
Proof.
  unfold moved, datagrams. cbn [repeat Z.of_nat].
  rewrite with_sent_nil, Z.add_0_r, Z.sub_0_r.
  destruct (_state_slot (ctl s) <? slot); by rewrite with_slot_same, sys_eta.
Qed.

(** C5.  For a negative target, [set_state_slot] raises the invalid-slot
    error and changes nothing.  For a target [slot >= 0] from cursor [C],
    when the network accepts the datagrams, it sends exactly [|C - slot|]
    commands, all [STATE_SLOT_PLUS] if [slot > C], all [STATE_SLOT_MINUS]
    if [slot < C], none if equal, and leaves the cursor on [slot].  The
    cursor moves one step per command: whatever the outcome, after [k]
    commands the cursor is [k] steps from [C]. *)
Theorem set_state_slot_walks_the_gap :
  forall (E : Env) (slot : Z) (s : Sys),
    let C := _state_slot (ctl s) in
    let gap := Z.to_nat (Z.abs (C - slot)) in
    (slot < 0 ->
       set_state_slot E slot s
       = (Raise (mkExc ValueError "State slot must be non-negative."), s))
    /\ (0 <= slot -> sends_succeed E (ctl s) ->
         set_state_slot E slot s = (Ok tt, moved s slot gap)
         /\ _state_slot (ctl (moved s slot gap)) = slot
         /\ sent (wld (moved s slot gap))
            = sent (wld s)
              ++ repeat (_host (ctl s), _port (ctl s),
                         if C <? slot then "STATE_SLOT_PLUS" else "STATE_SLOT_MINUS") gap)
    /\ (0 <= slot ->
         exists (k : nat) r,
           set_state_slot E slot s = (r, moved s slot k)
           /\ (k <= gap)%nat
           /\ (r = Ok tt -> k = gap))
    /\ (0 <= slot -> C = slot -> set_state_slot E slot s = (Ok tt, s)).
Proof.
  intros E slot s C gap. repeat split.
  - intros Hneg. unfold set_state_slot.
    apply Z.ltb_lt in Hneg. by rewrite Hneg.
  - destruct (set_state_slot_spec E slot s H) as (k & r & Heq & Hk & Hex & Hok & _).
    rewrite Heq, (Hok H0). by rewrite (Hex (Hok H0)).
  - unfold moved. cbn [ctl with_slot _state_slot]. fold C. subst gap.
    destruct (Z.ltb_spec C slot); lia.
  - intros Hslot. destruct (set_state_slot_spec E slot s Hslot) as (k & r & Heq & Hk & Hex & _).
    exists k, r. auto.
  - intros Hslot Heq0.
    destruct (set_state_slot_spec E slot s Hslot) as (k & r & Heq & Hk & _ & _ & Hz).
    rewrite Heq, (Hz Heq0). fold C in Hk. replace k with 0%nat by lia.
    by rewrite moved_0.
Qed.

(** From cursor 3 to target 0: three decrements, cursor on 0; from 0 to 0:
    nothing is sent. *)
Lemma set_state_slot_3_to_0 :
  (set_state_slot calm 0 (idle_at 3)
   = (Ok tt, mkSys (mkController "127.0.0.1" 55355 sample_artifacts None None 0)
               (with_sent [("127.0.0.1", 55355, "STATE_SLOT_MINUS");
                           ("127.0.0.1", 55355, "STATE_SLOT_MINUS");
                           ("127.0.0.1", 55355, "STATE_SLOT_MINUS")] genesis)))
  /\ set_state_slot calm 0 (idle_at 0) = (Ok tt, idle_at 0).
Proof.
  split.
  - refine (proj1 (proj1 (proj2 (set_state_slot_walks_the_gap calm 0 (idle_at 3))) _ _)).
    + lia.
    + intros w command. reflexivity.
  - refine (proj2 (proj2 (proj2 (set_state_slot_walks_the_gap calm 0 (idle_at 0)))) _ _).
    + lia.
    + reflexivity.
Defined.

(** ** Launch *)

Lemma poll_alive (E : Env) (w : World) (pid : nat) :
  alive E w pid -> poll E pid w = (Ok false, w).
Proof.
  intros [Hin Hex]. unfold poll.
  rewrite bool_decide_eq_false_2 by exact Hin. by rewrite Hex.
Qed.

Lemma launch_running (E : Env) (s : Sys) (p : nat)
    core_path content_path config_path append_config_paths retroarch_path menu verbose extra_args :
  _process (ctl s) = Some p -> alive E (wld s) p ->
  launch E core_path content_path config_path append_config_paths retroarch_path
    menu verbose extra_args s
  = (Raise (mkExc RuntimeError "RetroArch is already running."), s).
Proof.
  intros Hp Halive. unfold launch.
  unfold bind at 1. cbn [self]. rewrite Hp.
  unfold bind at 1. unfold bind at 1. unfold liftW. rewrite (poll_alive _ _ _ Halive).
  cbn. by rewrite sys_eta.
Qed.

Lemma launch_retains_handle (E : Env) (s s1 : Sys) (pid : nat)
    core_path content_path config_path append_config_paths retroarch_path menu verbose extra_args :
  launch E core_path content_path config_path append_config_paths retroarch_path
    menu verbose extra_args s = (Ok pid, s1) ->
  _process (ctl s1) = Some pid.
Proof.
  unfold launch, bind, self, liftW, set_log_handle, set_process, modify, ret, raise, try_except.
  intros H.
  repeat match type of H with
         | context [match ?x with _ => _ end] => destruct x eqn:?; simplify_eq; cbn in *
         | context [if ?x then _ else _] => destruct x eqn:?; simplify_eq; cbn in *
         end; try reflexivity; try discriminate.
Qed.

(** C6.  When a child launched earlier is still alive, [launch] raises
    the already-running error and leaves the controller and the world as
    they were: process handle, log handle and cursor untouched, nothing
    spawned, opened or closed.  In particular a second launch right after
    a first one, with the first child alive, is refused and the first
    handle stays. *)
Theorem launch_while_running_is_refused :
  forall (E : Env) (s : Sys)
         core_path content_path config_path append_config_paths retroarch_path
         menu verbose extra_args,
    (forall p, _process (ctl s) = Some p -> alive E (wld s) p ->
       launch E core_path content_path config_path append_config_paths retroarch_path
         menu verbose extra_args s
       = (Raise (mkExc RuntimeError "RetroArch is already running."), s))
    /\ (forall pid s1 core_path' content_path' config_path' append_config_paths'
               retroarch_path' menu' verbose' extra_args',
          launch E core_path content_path config_path append_config_paths retroarch_path
            menu verbose extra_args s = (Ok pid, s1) ->
          alive E (wld s1) pid ->
          _process (ctl s1) = Some pid
          /\ launch E core_path' content_path' config_path' append_config_paths'
               retroarch_path' menu' verbose' extra_args' s1
             = (Raise (mkExc RuntimeError "RetroArch is already running."), s1)).
Proof.
  intros. split.
  - intros p Hp Halive. by apply launch_running with (p := p).
  - intros pid s1 ? ? ? ? ? ? ? ? Hl Halive.
    pose proof (launch_retains_handle _ _ _ _ _ _ _ _ _ _ _ _ Hl) as Hp.
    split; [exact Hp|]. by apply launch_running with (p := pid).
Qed.

(** A second launch with the first child alive: refused, state kept. *)
Lemma launch_twice_refused :
  launch calm None (Some "game.rom") None ["/out/retroarch-append.cfg"] None None true []
    launched_once
  = (Raise (mkExc RuntimeError "RetroArch is already running."), launched_once).
Proof.
  refine (proj1 (launch_while_running_is_refused calm launched_once
                   None (Some "game.rom") None ["/out/retroarch-append.cfg"] None None true [])
                0%nat _ _).
  - reflexivity.
  - split; [exact (not_elem_of_nil 0%nat) | reflexivity].
Defined.

(** ** Shutdown *)

(** The early return, in general: whenever the child is alive and exits
    within the grace period that follows [QUIT], [shutdown] returns with
    the log handle still held and no [close] call made. *)
Lemma shutdown_natural_exit_skips_close (E : Env) (t : Z) (s : Sys) (p h : nat) :
  _process (ctl s) = Some p ->
  _log_handle (ctl s) = Some h ->
  alive E (wld s) p ->
  (forall w, exits_within E w p t = true) ->
  exists s',
    shutdown E t s = (Ok tt, s')
    /\ p ∈ exited (wld s')
    /\ _log_handle (ctl s') = Some h
    /\ closed (wld s') = closed (wld s).
Proof.
  intros Hp Hh Halive Hexit. unfold shutdown. unfold bind at 1. cbn [self]. rewrite Hp.
  unfold bind at 1. unfold liftW at 1. rewrite (poll_alive _ _ _ Halive). rewrite sys_eta.
  unfold bind at 1. unfold try_except at 1. rewrite send_command_eq.
  destruct (sendto_raises E (wld s) (_host (ctl s)) (_port (ctl s)) "QUIT"); cbn [ret];
    unfold bind at 1; unfold try_except_class, try_except; unfold bind at 1;
    unfold liftW, wait; rewrite Hexit; cbn [wld ctl];
    (destruct (bool_decide (p ∈ exited _)) eqn:Hin; cbn [ret];
     eexists; (split; [reflexivity|]); cbn [ctl wld exited closed add_sent add_exited];
     (split; [first [by apply bool_decide_eq_true_1 in Hin | apply list_elem_of_here]
             | by split])).
Qed.

(** C7 (the code departs from it).  After a launch, when the child exits
    within the grace period that follows [QUIT], [shutdown] returns with
    the child gone but the log handle still held and never closed; when
    the child has to be terminated, the same handle is closed and
    cleared. *)
Theorem shutdown_natural_exit_keeps_log_open :
  (let r := shutdown calm default_shutdown_timeout launched_once in
   _log_handle (ctl launched_once) = Some 0%nat
   /\ r.1 = Ok tt
   /\ exited (wld r.2) = [0%nat]
   /\ signals (wld r.2) = []
   /\ _log_handle (ctl r.2) = Some 0%nat
   /\ closed (wld r.2) = [])
  /\ (let r := shutdown stubborn default_shutdown_timeout launched_stubborn in
      _log_handle (ctl launched_stubborn) = Some 0%nat
      /\ r.1 = Ok tt
      /\ exited (wld r.2) = [0%nat]
      /\ signals (wld r.2) = [(0%nat, SIGTERM)]
      /\ _log_handle (ctl r.2) = None
      /\ closed (wld r.2) = [0%nat]).
Proof. vm_compute. repeat split. Qed.

(** ** Effects that respect a relation between states *)

Section Respects.
Context {S : Type} (R : S -> S -> Prop) `{!Reflexive R} `{!Transitive R}.

Lemma Respects_ret {A} (a : A) : Respects R (ret a).
Proof. intros s. reflexivity. Qed.

Lemma Respects_raise {A} (e : Exc) : Respects R (raise (A := A) e).
Proof. intros s. reflexivity. Qed.

Lemma Respects_get : Respects R get.
Proof. intros s. reflexivity. Qed.

Lemma Respects_bind {A B} (c : M S A) (k : A -> M S B) :
  Respects R c -> (forall a, Respects R (k a)) -> Respects R (bind c k).
Proof.
  intros Hc Hk s. unfold bind. specialize (Hc s).
  destruct (c s) as [[a|e] s1]; cbn in *; [|exact Hc].
  etransitivity; [exact Hc | apply Hk].
Qed.

Lemma Respects_try_except {A} (c : M S A) (h : Exc -> M S A) :
  Respects R c -> (forall e, Respects R (h e)) -> Respects R (try_except c h).
Proof.
  intros Hc Hh s. unfold try_except. specialize (Hc s).
  destruct (c s) as [[a|e] s1]; cbn in *; [exact Hc|].
  etransitivity; [exact Hc | apply Hh].
Qed.

Lemma Respects_try_except_class {A} cls (c : M S A) (h : Exc -> M S A) :
  Respects R c -> (forall e, Respects R (h e)) -> Respects R (try_except_class cls c h).
Proof.
  intros Hc Hh. apply Respects_try_except; [exact Hc|].
  intros e. destruct (class_eqb (exc_class e) cls); [apply Hh | apply Respects_raise].
Qed.

Lemma Respects_try_finally {A} (c : M S A) (f : M S unit) :
  Respects R c -> Respects R f -> Respects R (try_finally c f).
Proof.
  intros Hc Hf s. unfold try_finally. specialize (Hc s).
  destruct (c s) as [r s1]. specialize (Hf s1).
  destruct (f s1) as [[u|e] s2]; cbn in *; etransitivity; eauto.
Qed.

Lemma Respects_while (fuel : nat) (cond : S -> bool) (body : M S unit) :
  Respects R body -> Respects R (while_ fuel cond body).
Proof.
  intros Hb. induction fuel as [|fuel IH]; intros s; cbn [while_]; [reflexivity|].
  destruct (cond s); [|reflexivity].
  specialize (Hb s). destruct (body s) as [[u|e] s1]; cbn in *; [|exact Hb].
  etransitivity; [exact Hb | apply IH].
Qed.

Lemma Respects_for_range (n : nat) (body : M S unit) :
  Respects R body -> Respects R (for_range n body).
Proof.
  intros Hb. induction n as [|n IH]; cbn [for_range].
  - apply Respects_ret.
  - apply Respects_bind; auto.
Qed.

Lemma Respects_modify (f : S -> S) : (forall s, R s (f s)) -> Respects R (modify f).
Proof. intros Hf s. apply Hf. Qed.
End Respects.

Create HintDb respects.
#[global] Hint Resolve Respects_ret Respects_raise Respects_get Respects_bind
  Respects_try_except Respects_try_except_class Respects_try_finally
  Respects_while Respects_for_range : respects.

#[global] Instance onW_refl R `{!Reflexive R} : Reflexive (onW R).
Proof. intros s. unfold onW. reflexivity. Qed.
#[global] Instance onW_trans R `{!Transitive R} : Transitive (onW R).
Proof. intros a b c. unfold onW. apply transitivity. Qed.
#[global] Instance onS_refl R `{!Reflexive R} : Reflexive (onS R).
Proof. intros s. unfold onS. reflexivity. Qed.
#[global] Instance onS_trans R `{!Transitive R} : Transitive (onS R).
Proof. intros a b c. unfold onS. apply transitivity. Qed.

Lemma Respects_liftW R {A} (c : M World A) :
  Respects R c -> Respects (onW R) (liftW c).
Proof.
  intros Hc s. unfold liftW, onW. specialize (Hc (wld s)).
  destruct (c (wld s)) as [r w']. exact Hc.
Qed.

Lemma Respects_liftS R {A} (c : M Sys A) :
  Respects R c -> Respects (onS R) (liftS c).
Proof.
  intros Hc ls. unfold liftS, onS. specialize (Hc ls.2).
  destruct (c ls.2) as [r s']. exact Hc.
Qed.

Lemma Respects_assign R `{!Reflexive R} (f : Locals -> Locals) : Respects (onS R) (assign f).
Proof. intros ls. unfold onS. reflexivity. Qed.

Lemma Respects_self R `{!Reflexive R} : Respects R self.
Proof. intros s. reflexivity. Qed.

Lemma Respects_set_process R `{!Reflexive R} p : Respects (onW R) (set_process p).
Proof. intros s. unfold onW. reflexivity. Qed.

Lemma Respects_set_log_handle R `{!Reflexive R} h : Respects (onW R) (set_log_handle h).
Proof. intros s. unfold onW. reflexivity. Qed.

Lemma Respects_set_slot R `{!Reflexive R} n : Respects (onW R) (set_slot n).
Proof. intros s. unfold onW. reflexivity. Qed.

#[global] Hint Resolve Respects_liftW Respects_liftS Respects_assign Respects_self
  Respects_set_process Respects_set_log_handle Respects_set_slot : respects.

(** ** Children spawned *)

#[global] Instance spawns_only_refl P : Reflexive (spawns_only P).
Proof. intros w. exists []. by rewrite app_nil_r. Qed.

#[global] Instance spawns_only_trans P : Transitive (spawns_only P).
Proof.
  intros a b c (n1 & H1 & F1) (n2 & H2 & F2). exists (n1 ++ n2).
  rewrite H2, H1, app_assoc. split; [reflexivity | by apply Forall_app].
Qed.

Lemma spawns_none P (w w' : World) : spawned w' = spawned w -> spawns_only P w w'.
Proof. intros H. exists []. by rewrite H, app_nil_r. Qed.

Ltac respects_step :=
  first
    [ apply Respects_ret | apply Respects_raise | apply Respects_get | apply Respects_self
    | apply Respects_assign | apply Respects_set_process | apply Respects_set_log_handle
    | apply Respects_set_slot | apply Respects_liftW | apply Respects_liftS
    | apply Respects_bind | apply Respects_try_except_class | apply Respects_try_except
    | apply Respects_try_finally | apply Respects_while | apply Respects_for_range ].

Ltac respects :=
  repeat (intros;
          first [ solve [apply _] | assumption | solve [eauto 2 with respects]
                | respects_step | case_match ]).

(** The nap between two polls. *)
Lemma time_sleep_nap (E : Env) (w : World) :
  time_sleep E 250 w
  = match sleep_raises E w 250 with
    | Some e => (Raise e, w)
    | None => (Ok tt, set_now (now w + 250) w)
    end.
Proof. reflexivity. Qed.

Section Spawned.
Variable E : Env.
Variable P : list string * nat -> Prop.

Local Ltac quiet f :=
  intros w; apply spawns_none; unfold f; repeat case_match; reflexivity.

Lemma time_time_spawns : Respects (spawns_only P) time_time.
Proof. quiet time_time. Qed.
Lemma time_sleep_spawns d : Respects (spawns_only P) (time_sleep E d).
Proof. quiet time_sleep. Qed.
Lemma ensure_dir_spawns p : Respects (spawns_only P) (ensure_dir E p).
Proof. quiet ensure_dir. Qed.
Lemma write_file_spawns p c : Respects (spawns_only P) (write_file E p c).
Proof. quiet write_file. Qed.
Lemma open_w_spawns p : Respects (spawns_only P) (open_w E p).
Proof. quiet open_w. Qed.
Lemma close_spawns h : Respects (spawns_only P) (close E h).
Proof. quiet close. Qed.
Lemma poll_spawns p : Respects (spawns_only P) (poll E p).
Proof. quiet poll. Qed.
Lemma wait_spawns p t : Respects (spawns_only P) (wait E p t).
Proof. quiet wait. Qed.
Lemma terminate_spawns p : Respects (spawns_only P) (terminate p).
Proof. quiet terminate. Qed.
Lemma kill_spawns p : Respects (spawns_only P) (kill p).
Proof. quiet kill. Qed.
Lemma sendto_spawns h p c : Respects (spawns_only P) (sendto E h p c).
Proof. quiet sendto. Qed.
Lemma glob_spawns d : Respects (spawns_only P) (glob_star_dot_star E d).
Proof. quiet glob_star_dot_star. Qed.
Lemma resolve_spawns o : Respects (spawns_only P) (resolve_retroarch_path E o).
Proof. quiet resolve_retroarch_path. Qed.
Lemma load_env_file_spawns p : Respects (spawns_only P) (load_env_file E p).
Proof. quiet load_env_file. Qed.
Lemma observe_spawns {A} (f : World -> A) : Respects (spawns_only P) (fun w => (Ok (f w), w)).
Proof. intros w. reflexivity. Qed.
Lemma oracle_spawns {A} (f : World -> Res A) : Respects (spawns_only P) (fun w => (f w, w)).
Proof. intros w. reflexivity. Qed.

Lemma Popen_spawns command log_file :
  P (command, log_file) -> Respects (spawns_only P) (Popen E command log_file).
Proof.
  intros HP w. unfold Popen. case_match; [reflexivity|].
  exists [(command, log_file)]. split; [reflexivity | by constructor].
Qed.

Lemma poll_screenshots_spawns fuel dir before start_time deadline :
  Respects (spawns_only P) (poll_screenshots E fuel dir before start_time deadline).
Proof.
  induction fuel as [|fuel IH]; intros w; cbn [poll_screenshots]; [reflexivity|].
  case_match; [|reflexivity]. unfold glob_star_dot_star.
  destruct (first_capture _ _ _) as [[e|]|x]; [reflexivity | | reflexivity].
  rewrite time_sleep_nap. destruct (sleep_raises E w 250); [reflexivity|].
  apply (IH (set_now (now w + 250) w)).
Qed.

Lemma screencapture_loop_spawns fuel command target deadline last_error :
  Respects (spawns_only P) (screencapture_loop E fuel command target deadline last_error).
Proof.
  revert last_error. induction fuel as [|fuel IH]; intros last_error w;
    cbn [screencapture_loop]; [reflexivity|].
  destruct (now w <? deadline); [|reflexivity].
  destruct (run_raises E w _) as [exc|]; [|reflexivity].
  destruct (class_eqb _ _); [|reflexivity].
  rewrite time_sleep_nap. destruct (sleep_raises E w 250); [reflexivity|].
  apply (IH _ (set_now (now w + 250) w)).
Qed.

Hint Resolve time_time_spawns time_sleep_spawns ensure_dir_spawns write_file_spawns
  open_w_spawns close_spawns poll_spawns wait_spawns terminate_spawns kill_spawns
  sendto_spawns glob_spawns resolve_spawns load_env_file_spawns observe_spawns
  oracle_spawns poll_screenshots_spawns screencapture_loop_spawns : respects.

Lemma send_command_spawns c : Respects (onW (spawns_only P)) (send_command E c).
Proof. unfold send_command. respects. Qed.

Lemma set_state_slot_spawns n : Respects (onW (spawns_only P)) (set_state_slot E n).
Proof. unfold set_state_slot. pose proof send_command_spawns. respects. Qed.

Lemma capture_screenshot_spawns t : Respects (onW (spawns_only P)) (capture_screenshot E t).
Proof. unfold capture_screenshot. pose proof send_command_spawns. respects. Qed.

Lemma shutdown_spawns t : Respects (onW (spawns_only P)) (shutdown E t).
Proof. unfold shutdown. pose proof send_command_spawns. respects. Qed.

Lemma capture_system_spawns a t :
  Respects (onW (spawns_only P)) (_capture_system_screenshot E a t).
Proof. unfold _capture_system_screenshot. respects. Qed.

Lemma launch_spawns core_path content_path config_path append_config_paths retroarch_path
    menu verbose extra_args :
  (forall resolved_path log_file,
      P (build_command resolved_path core_path content_path config_path
           append_config_paths menu verbose extra_args, log_file)) ->
  Respects (onW (spawns_only P))
    (launch E core_path content_path config_path append_config_paths retroarch_path
       menu verbose extra_args).
Proof.
  intros HP. unfold launch. pose proof Popen_spawns. respects.
Qed.
End Spawned.

Section RunSpawns.
Variable E : Env.
Variable context : TestRunContext.
Variable append_configs : list string.

Let P := launched_by (definition context) append_configs.

Hint Resolve time_time_spawns time_sleep_spawns ensure_dir_spawns write_file_spawns
  load_env_file_spawns observe_spawns oracle_spawns send_command_spawns
  set_state_slot_spawns capture_screenshot_spawns shutdown_spawns
  capture_system_spawns : respects.

Lemma dispatch_spawns step :
  step ∈ TestDefinition.steps (definition context) ->
  Respects (onS (onW (spawns_only P))) (dispatch E step context append_configs).
Proof.
  intros Hin. destruct step; cbn [dispatch]; unfold capture.
  1: { pose proof (launch_spawns E P
         (py_or (LaunchStep.core_path s) (TestDefinition.core_path (definition context)))
         (py_or (LaunchStep.content_path s) (TestDefinition.content_path (definition context)))
         (py_or (LaunchStep.config_path s) (TestDefinition.config_path (definition context)))
         append_configs
         (py_or (LaunchStep.retroarch_path s) (TestDefinition.retroarch_path (definition context)))
         (LaunchStep.menu s) (LaunchStep.verbose s) (LaunchStep.extra_args s)) as Hl.
       assert (Respects (onW (spawns_only P))
         (launch E
            (py_or (LaunchStep.core_path s) (TestDefinition.core_path (definition context)))
            (py_or (LaunchStep.content_path s) (TestDefinition.content_path (definition context)))
            (py_or (LaunchStep.config_path s) (TestDefinition.config_path (definition context)))
            append_configs
            (py_or (LaunchStep.retroarch_path s) (TestDefinition.retroarch_path (definition context)))
            (LaunchStep.menu s) (LaunchStep.verbose s) (LaunchStep.extra_args s))).
       { apply Hl. intros resolved_path log_file. exists s, resolved_path. by split. }
       respects. }
  all: respects.
Qed.

Lemma _run_step_spawns index step :
  step ∈ TestDefinition.steps (definition context) ->
  Respects (onW (spawns_only P)) (_run_step E index step context append_configs).
Proof.
  intros Hin s. unfold _run_step.
  assert (Respects (onS (onW (spawns_only P)))
            (try_except (dispatch E step context append_configs)
               (fun exc => assign (set_status Status.failed) ;; assign (set_error (exc_str exc)))))
    as H by (pose proof (dispatch_spawns step Hin); respects).
  specialize (H (mkLocals Status.passed None None None None, s)).
  destruct (try_except _ _ _) as [r [l s']]. exact H.
Qed.

Lemma run_steps_spawns steps :
  (forall step, step ∈ steps -> step ∈ TestDefinition.steps (definition context)) ->
  forall index step_results passed,
    Respects (onW (spawns_only P))
      (run_steps E context append_configs index steps step_results passed).
Proof.
  induction steps as [|step rest IH]; intros Hsub index step_results passed;
    cbn [run_steps].
  - respects.
  - assert (forall i r p, Respects (onW (spawns_only P))
              (run_steps E context append_configs i rest r p)) as Hrest.
    { intros. apply IH. intros st Hst. apply Hsub. by apply list_elem_of_further. }
    pose proof (_run_step_spawns index step (Hsub _ (list_elem_of_here _ _))).
    respects.
Qed.
End RunSpawns.

Lemma _build_artifacts_spawns E P d : Respects (spawns_only P) (_build_artifacts E d).
Proof.
  unfold _build_artifacts. pose proof (ensure_dir_spawns E P). pose proof (time_time_spawns P).
  respects.
Qed.

Lemma run_spawns (E : Env) (env_path : option string) (d : TestDefinition.t)
    (w w1 : World) (a : RetroArchArtifacts) :
  _build_artifacts E d w = (Ok a, w1) ->
  spawns_only
    (launched_by d (TestDefinition.append_config_paths d ++ [append_config_path a]))
    w (run E env_path d w).2.
Proof.
  intros Hb. set (P := launched_by d _).
  pose proof (_build_artifacts_spawns E P d w) as H0. rewrite Hb in H0. cbn in H0.
  unfold run. unfold bind at 1. rewrite Hb.
  etransitivity; [exact H0|]. clear H0 Hb.
  revert w1. change (Respects (spawns_only P) ?c) with (forall w1, spawns_only P w1 (c w1).2).
  apply Respects_bind; [apply _ | |].
  { unfold _write_append_config. apply write_file_spawns. }
  intros _. apply Respects_bind; [apply _ | |].
  { unfold _resolve_openrouter. pose proof (load_env_file_spawns E P).
    respects. all: try apply Respects_get; respects. }
  intros openrouter. apply Respects_bind; [apply _ | apply time_time_spawns |].
  intros started_at. apply Respects_bind; [apply _ | apply time_time_spawns |].
  intros start_time w1.
  set (context := mkContext d a openrouter).
  pose proof (Respects_try_finally (onW (spawns_only P)) _ _
    (run_steps_spawns E context _ (TestDefinition.steps d) (fun _ H => H) 0%nat [] true)
    (shutdown_spawns E P default_shutdown_timeout)
    (mkSys (new_controller (TestDefinition.network_host d) (TestDefinition.network_port d) a) w1))
    as H.
  unfold onW in H. cbn [wld] in H.
  destruct (try_finally _ _ _) as [[[step_results passed]|e] s]; cbn [snd] in *; [|exact H].
  etransitivity; [exact H|].
  match goal with |- spawns_only P (wld s) (?c (wld s)).2 =>
    assert (Respects (spawns_only P) c) as Hc end.
  { pose proof (write_file_spawns E P). pose proof (time_time_spawns P). respects. }
  apply Hc.
Qed.

(** ** The run's own append-config comes last *)

Lemma arg_after_last_absent (tok : string) (l : list string) :
  tok ∉ l -> arg_after_last tok l = None.
Proof.
  induction l as [|a l IH]; intros Hnot; cbn [arg_after_last]; [reflexivity|].
  rewrite IH by (intros H; apply Hnot; by apply list_elem_of_further).
  destruct (String.eqb_spec a tok) as [->|]; [|reflexivity].
  exfalso. apply Hnot, list_elem_of_here.
Qed.

Lemma arg_after_last_here (tok : string) (rest : list string) :
  tok ∉ rest -> arg_after_last tok (tok :: rest) = Some (head rest).
Proof.
  intros Hnot. change (arg_after_last tok (tok :: rest))
    with (match arg_after_last tok rest with
          | Some r => Some r
          | None => if String.eqb tok tok then Some (head rest) else None
          end).
  by rewrite (arg_after_last_absent _ _ Hnot), String.eqb_refl.
Qed.

Lemma arg_after_last_further (tok a : string) (rest : list string) (r : option string) :
  arg_after_last tok rest = Some r -> arg_after_last tok (a :: rest) = Some r.
Proof. intros H. cbn [arg_after_last]. by rewrite H. Qed.

Lemma arg_after_last_pair (tok g : string) (pre post : list string) :
  g <> tok -> tok ∉ post ->
  arg_after_last tok (pre ++ tok :: g :: post) = Some (Some g).
Proof.
  intros Hg Hpost. induction pre as [|a pre IH]; cbn [app].
  - apply arg_after_last_here.
    intros H. apply elem_of_cons in H as [H|H]; [by apply Hg | by apply Hpost].
  - by apply arg_after_last_further.
Qed.

Lemma appendconfig_pairs_snoc (paths : list string) (p : string) :
  appendconfig_pairs (paths ++ [p]) = appendconfig_pairs paths ++ ["--appendconfig"; p].
Proof. unfold appendconfig_pairs. rewrite flat_map_app. cbn. reflexivity. Qed.

Lemma string_length_app (a b : string) :
  String.length (a +:+ b) = (String.length a + String.length b)%nat.
Proof. induction a as [|c a IH]; simpl; [reflexivity | by rewrite IH]. Qed.

Lemma concat_snoc_length (sep x : string) (l : list string) :
  (String.length x <= String.length (String.concat sep (l ++ [x])))%nat.
Proof.
  induction l as [|y l IH]; [reflexivity|].
  change ((y :: l) ++ [x]) with (y :: (l ++ [x])).
  destruct (l ++ [x]) as [|z r] eqn:Hl; [by destruct l|].
  change (String.concat sep (y :: z :: r)) with (y +:+ sep +:+ String.concat sep (z :: r)).
  rewrite !string_length_app. lia.
Qed.

(** A path that ends in the generated file's name is not the flag. *)
Lemma path_join_not_flag (a : string) : path_join a "retroarch-append.cfg" <> "--appendconfig".
Proof.
  intros H. apply (f_equal String.length) in H.
  unfold path_join in H.
  change (String.prefix "/" "retroarch-append.cfg") with false in H. cbv iota in H.
  change (path_parts "retroarch-append.cfg") with ["retroarch-append.cfg"] in H.
  pose proof (concat_snoc_length "/" "retroarch-append.cfg" (path_parts a)) as Hlen.
  unfold path_str in H.
  destruct (path_parts a ++ ["retroarch-append.cfg"]) as [|z r] eqn:Hl;
    [by destruct (path_parts a)|].
  rewrite string_length_app in H.
  change (String.length "--appendconfig") with 14%nat in H.
  change (String.length "retroarch-append.cfg") with 20%nat in Hlen. lia.
Qed.

Lemma _build_artifacts_append_config_path (E : Env) d w a w1 :
  _build_artifacts E d w = (Ok a, w1) ->
  append_config_path a = path_join (output_dir a) "retroarch-append.cfg".
Proof.
  unfold _build_artifacts, bind, ensure_dir, time_time, ret. intros H.
  repeat match type of H with
         | context [match ?x with _ => _ end] => destruct x eqn:?; simplify_eq
         end.
  reflexivity.
Qed.

(** C4 (as amended).  Command-line construction is a function of its
    inputs.  In every run, each child spawned gets a command line in which
    the pair for the run's generated append-config directly follows the
    pairs for the caller's append paths, in their order, and is followed
    only by the core, menu, extra and content arguments; the generated
    path is the argument after the last [--appendconfig] of the whole
    vector whenever none of those later arguments is itself
    [--appendconfig]. *)
Theorem run_appends_generated_config_last :
  (forall retroarch_path core_path content_path config_path append_config_paths
          menu verbose extra_args
          retroarch_path' core_path' content_path' config_path' append_config_paths'
          menu' verbose' extra_args',
      retroarch_path = retroarch_path' -> core_path = core_path' ->
      content_path = content_path' -> config_path = config_path' ->
      append_config_paths = append_config_paths' -> menu = menu' ->
      verbose = verbose' -> extra_args = extra_args' ->
      build_command retroarch_path core_path content_path config_path
        append_config_paths menu verbose extra_args
      = build_command retroarch_path' core_path' content_path' config_path'
          append_config_paths' menu' verbose' extra_args')
  /\ (forall (E : Env) (env_path : option string) (d : TestDefinition.t)
             (w w1 : World) (a : RetroArchArtifacts),
        _build_artifacts E d w = (Ok a, w1) ->
        exists new,
          spawned (run E env_path d w).2 = spawned w ++ new
          /\ forall argv log_file, (argv, log_file) ∈ new ->
               exists st pre,
                 let post := tail_args
                               (py_or (LaunchStep.core_path st) (TestDefinition.core_path d))
                               (py_or (LaunchStep.content_path st) (TestDefinition.content_path d))
                               (LaunchStep.menu st) (LaunchStep.extra_args st) in
                 Launch st ∈ TestDefinition.steps d
                 /\ argv = pre ++ appendconfig_pairs (TestDefinition.append_config_paths d)
                               ++ ["--appendconfig"; append_config_path a] ++ post
                 /\ ("--appendconfig" ∉ post ->
                     arg_after_last "--appendconfig" argv = Some (Some (append_config_path a)))).
Proof.
  split; [intros; by subst|].
  intros E env_path d w w1 a Hb.
  destruct (run_spawns E env_path d w w1 a Hb) as (new & Hnew & Hall).
  exists new. split; [exact Hnew|].
  intros argv log_file Hin.
  rewrite Forall_forall in Hall. destruct (Hall _ Hin) as (st & resolved_path & Hst & Hargv).
  cbn [fst] in Hargv. rewrite build_command_layout in Hargv.
  unfold argv_layout in Hargv. rewrite appendconfig_pairs_snoc in Hargv.
  exists st,
    ([resolved_path] ++ (if LaunchStep.verbose st then ["--verbose"] else [])
     ++ opt_flag "--config"
          (given (py_or (LaunchStep.config_path st) (TestDefinition.config_path d)))).
  cbv zeta. split; [exact Hst|].
  assert (argv = ([resolved_path] ++ (if LaunchStep.verbose st then ["--verbose"] else [])
     ++ opt_flag "--config"
          (given (py_or (LaunchStep.config_path st) (TestDefinition.config_path d))))
     ++ appendconfig_pairs (TestDefinition.append_config_paths d)
     ++ ["--appendconfig"; append_config_path a]
     ++ tail_args (py_or (LaunchStep.core_path st) (TestDefinition.core_path d))
          (py_or (LaunchStep.content_path st) (TestDefinition.content_path d))
          (LaunchStep.menu st) (LaunchStep.extra_args st)) as Heq.
  { rewrite Hargv. rewrite <- !app_assoc. reflexivity. }
  split; [exact Heq|].
  intros Hpost. rewrite Heq. rewrite !app_assoc. rewrite <- app_assoc.
  apply arg_after_last_pair; [|exact Hpost].
  rewrite (_build_artifacts_append_config_path _ _ _ _ _ Hb). apply path_join_not_flag.
Qed.

(** A run whose only launch step has no free-form arguments, with two
    caller append paths: the generated path follows the last
    [--appendconfig]. *)
Lemma run_appends_generated_config_last_witness :
  exists a w1 new,
    _build_artifacts calm (definition_with false ["/etc/a.cfg"; "/etc/b.cfg"] [launch_with []])
      genesis = (Ok a, w1)
    /\ spawned (run calm None
                  (definition_with false ["/etc/a.cfg"; "/etc/b.cfg"] [launch_with []])
                  genesis).2 = spawned genesis ++ new
    /\ forall argv log_file, (argv, log_file) ∈ new ->
         arg_after_last "--appendconfig" argv = Some (Some (append_config_path a)).
Proof.
  destruct (_build_artifacts calm
              (definition_with false ["/etc/a.cfg"; "/etc/b.cfg"] [launch_with []]) genesis)
    as [[a|e] w1] eqn:Hb; [|vm_compute in Hb; discriminate].
  destruct (proj2 run_appends_generated_config_last calm None _ _ _ _ Hb)
    as (new & Hnew & Hall).
  exists a, w1, new. split; [reflexivity|]. split; [exact Hnew|].
  intros argv log_file Hin. destruct (Hall argv log_file Hin) as (st & pre & Hst & _ & Hlast).
  apply Hlast.
  apply list_elem_of_singleton in Hst. unfold launch_with in Hst. injection Hst as ->.
  vm_compute. intros H. inversion H as [| ? ? ? H1]; inversion H1.
Defined.

(** C4 (as stated) fails: free-form arguments of a launch step may carry
    their own [--appendconfig]; the argument after the last occurrence
    is then the caller's path, not the generated one. *)
Lemma run_extra_appendconfig_counterexample :
  let d := definition_with false ["/etc/a.cfg"]
             [launch_with ["--appendconfig"; "/tmp/user.cfg"]] in
  exists a w1 argv log_file,
    _build_artifacts calm d genesis = (Ok a, w1)
    /\ spawned (run calm None d genesis).2 = [(argv, log_file)]
    /\ arg_after_last "--appendconfig" argv = Some (Some "/tmp/user.cfg")
    /\ append_config_path a <> "/tmp/user.cfg".
Proof.
  vm_compute. do 4 eexists. repeat split. discriminate.
Qed.


(** ** Step results *)

#[global] Instance same_verdict_refl : Reflexive same_verdict.
Proof. intros ls. by split. Qed.

#[global] Instance same_verdict_trans : Transitive same_verdict.
Proof. intros a b c [H1 H2] [H3 H4]. split; congruence. Qed.

Lemma liftS_same_verdict {A} (c : M Sys A) : Respects same_verdict (liftS c).
Proof. intros ls. unfold liftS. destruct (c ls.2) as [r s']. by split. Qed.

Lemma assign_same_verdict (f : Locals -> Locals) :
  (forall l, l_status (f l) = l_status l /\ l_error (f l) = l_error l) ->
  Respects same_verdict (assign f).
Proof. intros Hf ls. apply Hf. Qed.

Lemma Settles_same_verdict {A} (c : M (Locals * Sys) A) :
  Respects same_verdict c -> Settles c.
Proof.
  intros Hc ls Hcons. specialize (Hc ls). destruct (c ls) as [[a|e] ls']; [|exact I].
  destruct Hc as [H1 H2]. cbn [snd] in H1, H2. by rewrite H1, H2.
Qed.

Lemma Settles_bind {A B} (c : M (Locals * Sys) A) (k : A -> M (Locals * Sys) B) :
  Settles c -> (forall a, Settles (k a)) -> Settles (bind c k).
Proof.
  intros Hc Hk ls Hcons. unfold bind. specialize (Hc ls Hcons).
  destruct (c ls) as [[a|e] ls']; [|exact I]. by apply Hk.
Qed.

Lemma Settles_fail (text : string) :
  Settles (assign (set_status Status.failed) ;; assign (set_error text)).
Proof. intros ls _. cbn. right. split; [reflexivity | by eexists]. Qed.

Section StepResults.
Variable E : Env.

Lemma dispatch_settles step context append_configs :
  Settles (dispatch E step context append_configs).
Proof.
  pose proof (@liftS_same_verdict) as HS.
  assert (forall f, (forall l, l_status (f l) = l_status l /\ l_error (f l) = l_error l) ->
                    Respects same_verdict (assign f)) as HA
      by exact assign_same_verdict.
  destruct step; cbn [dispatch];
    try (apply Settles_same_verdict; respects; intros; apply HA; intros l; by split).
  apply Settles_bind; [apply Settles_same_verdict, HS|]. intros screenshot.
  apply Settles_bind; [apply Settles_same_verdict, HA; intros l; by split|]. intros _.
  destruct (openrouter context) as [client|]; [|apply Settles_fail].
  apply Settles_bind; [apply Settles_same_verdict, HS|]. intros result.
  apply Settles_bind; [apply Settles_same_verdict, HA; intros l; by split|]. intros _.
  destruct (negb (r_passed result)); [apply Settles_fail|].
  apply Settles_same_verdict. respects.
Qed.

(** [_run_step] always returns a result: its index and type are those
    given, its status is [passed] or [failed], and the error text is set
    exactly when the status is [failed]. *)
Lemma _run_step_result index step context append_configs s :
  exists sr s',
    _run_step E index step context append_configs s = (Ok sr, s')
    /\ StepResult.index sr = index
    /\ StepResult.type sr = step_type step
    /\ consistent (StepResult.status sr) (StepResult.error sr).
Proof.
  unfold _run_step.
  pose proof (dispatch_settles step context append_configs
                (mkLocals Status.passed None None None None, s)) as H.
  unfold try_except.
  destruct (dispatch E step context append_configs _) as [[u|e] [l s']].
  - eexists _, _. split; [reflexivity|]. cbn. repeat split; try reflexivity.
    apply H. left. by split.
  - cbn. eexists _, _. split; [reflexivity|]. cbn. repeat split; try reflexivity.
    right. split; [reflexivity | by eexists].
Qed.
End StepResults.

Lemma status_eqb_failed (st : Status.t) :
  Status.eqb st Status.failed = true <-> st = Status.failed.
Proof. destruct st; cbn; split; congruence. Qed.

Section RunSteps.
Variable E : Env.
Variable context : TestRunContext.
Variable append_configs : list string.

Let continue_on_failure := TestDefinition.continue_on_failure (definition context).

(** The loop of [run] from position [index]: it always returns; it
    appends to [step_results] one result per step executed, in order;
    [passed] stays true exactly when none of them failed; it stops after
    the first failed step unless [continue_on_failure] is set. *)
Lemma run_steps_spec : forall steps index step_results passed s,
  exists new s',
    run_steps E context append_configs index steps step_results passed s
    = (Ok (step_results ++ new, passed && forallb not_failed new), s')
    /\ (length new <= length steps)%nat
    /\ (forall k sr, new !! k = Some sr ->
          StepResult.index sr = (index + k)%nat
          /\ (exists step, steps !! k = Some step /\ StepResult.type sr = step_type step)
          /\ consistent (StepResult.status sr) (StepResult.error sr))
    /\ (continue_on_failure = true -> length new = length steps)
    /\ (continue_on_failure = false ->
          (forall k sr, new !! k = Some sr -> StepResult.status sr = Status.failed ->
                        S k = length new)
          /\ ((length new < length steps)%nat ->
              exists sr, last new = Some sr /\ StepResult.status sr = Status.failed)).
Proof.
  induction steps as [|step rest IH]; intros index step_results passed s.
  - exists [], s. cbn. rewrite app_nil_r, andb_true_r.
    split; [reflexivity|]. split; [lia|]. split; [intros k sr H; discriminate|].
    split; [reflexivity|]. intros _. split; [intros k sr H; discriminate | lia].
  - destruct (_run_step_result E index step context append_configs s)
      as (sr & s1 & Hstep & Hidx & Htype & Hcons).
    cbn [run_steps]. unfold bind at 1. rewrite Hstep.
    assert (forall new' : list StepResult.t, forall k sr',
              (forall k sr, new' !! k = Some sr ->
                 StepResult.index sr = (S index + k)%nat
                 /\ (exists step, rest !! k = Some step /\ StepResult.type sr = step_type step)
                 /\ consistent (StepResult.status sr) (StepResult.error sr)) ->
              (sr :: new') !! k = Some sr' ->
              StepResult.index sr' = (index + k)%nat
              /\ (exists step0, (step :: rest) !! k = Some step0
                                /\ StepResult.type sr' = step_type step0)
              /\ consistent (StepResult.status sr') (StepResult.error sr')) as Hlook.
    { intros new' k sr' Hall Hk. destruct k as [|k]; cbn in Hk.
      - injection Hk as <-. rewrite Nat.add_0_r. split; [exact Hidx|].
        split; [by exists step | exact Hcons].
      - destruct (Hall k sr' Hk) as (H1 & H2 & H3).
        split; [lia|]. split; [exact H2 | exact H3]. }
    destruct (Status.eqb (StepResult.status sr) Status.failed) eqn:Hfailed.
    + pose proof (proj1 (status_eqb_failed _) Hfailed) as Hst.
      fold continue_on_failure. destruct continue_on_failure eqn:Hcof; cbn [negb].
      * destruct (IH (S index) (step_results ++ [sr]) false s1)
          as (new & s' & Heq & Hlen & Hall & Hfull & _).
        exists (sr :: new), s'. rewrite Heq. cbn [forallb length].
        replace (not_failed sr) with false by (unfold not_failed; by rewrite Hfailed).
        cbn [andb]. rewrite andb_false_r, <- app_assoc. split; [reflexivity|].
        split; [lia|]. split; [intros k sr'; by apply Hlook|].
        split; [intros _; rewrite Hfull by reflexivity; reflexivity | discriminate].
      * exists [sr], s1. cbn [forallb length].
        replace (not_failed sr) with false by (unfold not_failed; by rewrite Hfailed).
        cbn [andb]. rewrite andb_false_r. split; [reflexivity|].
        split; [lia|]. split; [intros k sr'; apply Hlook; intros ? ? H; discriminate|].
        split; [discriminate|]. intros _. split.
        -- intros k sr' Hk _. destruct k; [reflexivity | discriminate].
        -- intros _. by exists sr.
    + destruct (IH (S index) (step_results ++ [sr]) passed s1)
        as (new & s' & Heq & Hlen & Hall & Hfull & Hstop).
      exists (sr :: new), s'. rewrite Heq. cbn [forallb length].
      replace (not_failed sr) with true by (unfold not_failed; by rewrite Hfailed).
      cbn [andb]. rewrite <- app_assoc. split; [reflexivity|].
      split; [lia|]. split; [intros k sr'; by apply Hlook|].
      split; [intros Hc; by rewrite Hfull|].
      intros Hc. destruct (Hstop Hc) as [Hlast Hshort]. split.
      * intros k sr' Hk Hf. destruct k as [|k]; cbn in Hk.
        -- injection Hk as <-. apply status_eqb_failed in Hf. congruence.
        -- f_equal. by apply Hlast with (sr := sr').
      * intros Hlt. destruct Hshort as (sr' & Hl & Hf); [lia|].
        exists sr'. split; [|exact Hf].
        destruct new as [|x new]; [discriminate|]. exact Hl.
Qed.
End RunSteps.

(** ** The run result *)

Lemma bind_Ok_inv {S A B} (c : M S A) (k : A -> M S B) (s s' : S) (b : B) :
  bind c k s = (Ok b, s') -> exists a s1, c s = (Ok a, s1) /\ k a s1 = (Ok b, s').
Proof.
  unfold bind. destruct (c s) as [[a|e] s1]; [|discriminate]. intros H. by exists a, s1.
Qed.

Lemma try_finally_Ok_inv {S A} (c : M S A) (f : M S unit) (s s' : S) (a : A) :
  try_finally c f s = (Ok a, s') -> exists s1, c s = (Ok a, s1).
Proof.
  unfold try_finally. destruct (c s) as [r s1]. destruct (f s1) as [[u|e] s2]; [|discriminate].
  intros H. injection H as -> _. by exists s1.
Qed.

(** A run that returns has executed the loop from an empty list and
    [passed = True], and reports what the loop produced. *)
Lemma run_Ok_inv (E : Env) env_path d w r w' :
  run E env_path d w = (Ok r, w') ->
  exists context append_configs s s',
    definition context = d
    /\ run_steps E context append_configs 0%nat (TestDefinition.steps d) [] true s
       = (Ok (TestRunResult.steps r, TestRunResult.passed r), s').
Proof.
  unfold run. intros H.
  apply bind_Ok_inv in H as (artifacts & w1 & _ & H).
  apply bind_Ok_inv in H as (u & w2 & _ & H).
  apply bind_Ok_inv in H as (openrouter & w3 & _ & H).
  apply bind_Ok_inv in H as (started_at & w4 & _ & H).
  apply bind_Ok_inv in H as (start_time & w5 & _ & H).
  destruct (try_finally _ _ _) as [[[step_results passed]|e] s] eqn:Hloop; [|discriminate].
  apply try_finally_Ok_inv in Hloop as (s1 & Hloop).
  apply bind_Ok_inv in H as (finished_at & w6 & _ & H).
  apply bind_Ok_inv in H as (t & w7 & _ & H).
  apply bind_Ok_inv in H as (u' & w8 & _ & H).
  injection H as <- _. cbn [TestRunResult.steps TestRunResult.passed].
  eexists _, _, _, _. split; [|exact Hloop]. reflexivity.
Qed.

(** What every returned run satisfies, from the loop's specification. *)
Lemma run_result_spec (E : Env) env_path d w r w' :
  run E env_path d w = (Ok r, w') ->
  let rs := TestRunResult.steps r in
  let steps := TestDefinition.steps d in
  TestRunResult.passed r = forallb not_failed rs
  /\ (length rs <= length steps)%nat
  /\ (forall k sr, rs !! k = Some sr ->
        StepResult.index sr = k
        /\ (exists step, steps !! k = Some step /\ StepResult.type sr = step_type step)
        /\ consistent (StepResult.status sr) (StepResult.error sr))
  /\ (TestDefinition.continue_on_failure d = true -> length rs = length steps)
  /\ (TestDefinition.continue_on_failure d = false ->
        (forall k sr, rs !! k = Some sr -> StepResult.status sr = Status.failed ->
                      S k = length rs)
        /\ ((length rs < length steps)%nat ->
            exists sr, last rs = Some sr /\ StepResult.status sr = Status.failed)).
Proof.
  intros H. apply run_Ok_inv in H as (context & append_configs & s & s' & Hd & Hloop).
  destruct (run_steps_spec E context append_configs (TestDefinition.steps d) 0%nat [] true s)
    as (new & s2 & Heq & Hrest).
  rewrite Heq in Hloop. injection Hloop as Hrs Hp _. cbn [app andb] in Hrs, Hp.
  cbv zeta. rewrite <- Hrs, <- Hp. rewrite Hd in Hrest. exact (conj eq_refl Hrest).
Qed.

Lemma consistent_not_skipped status error :
  consistent status error -> status <> Status.skipped.
Proof. intros [[-> _]|[-> _]]; discriminate. Qed.

(** C1.  The step list of a run result follows the definition's steps
    position by position, without [skipped] entries.  With
    [continue_on_failure] false it is a prefix that ends at the first
    failed step: a failed result is the last one, and a list shorter than
    the definition ends with a failed result.  With [continue_on_failure]
    true every step has exactly one result, in order. *)
Theorem run_step_list_shape :
  forall (E : Env) (env_path : option string) (d : TestDefinition.t)
         (w w' : World) (r : TestRunResult.t),
    run E env_path d w = (Ok r, w') ->
    let rs := TestRunResult.steps r in
    let steps := TestDefinition.steps d in
    (length rs <= length steps)%nat
    /\ (forall k sr, rs !! k = Some sr ->
          StepResult.index sr = k
          /\ (exists step, steps !! k = Some step /\ StepResult.type sr = step_type step)
          /\ StepResult.status sr <> Status.skipped)
    /\ (TestDefinition.continue_on_failure d = false ->
          (forall k sr, rs !! k = Some sr -> StepResult.status sr = Status.failed ->
                        S k = length rs)
          /\ ((length rs < length steps)%nat ->
              exists sr, last rs = Some sr /\ StepResult.status sr = Status.failed))
    /\ (TestDefinition.continue_on_failure d = true -> length rs = length steps).
Proof.
  intros E env_path d w w' r H.
  destruct (run_result_spec E env_path d w r w' H) as (_ & Hlen & Hall & Hfull & Hstop).
  cbv zeta. split; [exact Hlen|]. split; [|split; assumption].
  intros k sr Hk. destruct (Hall k sr Hk) as (H1 & H2 & H3).
  split; [exact H1|]. split; [exact H2|]. by apply consistent_not_skipped in H3.
Qed.

(** The four-step test stops after its failed third step, and runs all
    four steps when told to continue. *)
Lemma run_step_list_shape_witness :
  (exists r w', run calm None (definition_with false [] four_steps) genesis = (Ok r, w')
     /\ length (TestRunResult.steps r) = 3%nat
     /\ (exists sr, last (TestRunResult.steps r) = Some sr
                    /\ StepResult.status sr = Status.failed))
  /\ (exists r w', run calm None (definition_with true [] four_steps) genesis = (Ok r, w')
        /\ length (TestRunResult.steps r) = 4%nat).
Proof.
  split.
  - destruct (run calm None (definition_with false [] four_steps) genesis)
      as [[r|e] w'] eqn:H; [|vm_compute in H; discriminate].
    exists r, w'. split; [reflexivity|].
    pose proof (run_step_list_shape calm None _ genesis w' r H) as (_ & _ & Hstop & _).
    assert (length (TestRunResult.steps r) = 3%nat) as Hlen
      by (vm_compute in H; injection H as <- _; reflexivity).
    split; [exact Hlen|]. apply Hstop; [reflexivity|]. rewrite Hlen. cbn. lia.
  - destruct (run calm None (definition_with true [] four_steps) genesis)
      as [[r|e] w'] eqn:H; [|vm_compute in H; discriminate].
    exists r, w'. split; [reflexivity|].
    pose proof (run_step_list_shape calm None _ genesis w' r H) as (_ & _ & _ & Hfull).
    apply Hfull. reflexivity.
Defined.

Lemma forallb_not_failed (rs : list StepResult.t) :
  forallb not_failed rs = true
  <-> forall sr, sr ∈ rs -> StepResult.status sr <> Status.failed.
Proof.
  induction rs as [|x rs IH]; cbn [forallb].
  - split; [intros _ sr Hin; by apply elem_of_nil in Hin | reflexivity].
  - rewrite andb_true_iff, IH. unfold not_failed at 1. rewrite negb_true_iff. split.
    + intros [Hx Hrs] sr Hin. apply elem_of_cons in Hin as [->|Hin]; [|by apply Hrs].
      intros Hf. apply status_eqb_failed in Hf. congruence.
    + intros Hall. split.
      * destruct (Status.eqb (StepResult.status x) Status.failed) eqn:Hx; [|reflexivity].
        apply status_eqb_failed in Hx. exfalso. by apply (Hall x); [apply list_elem_of_here|].
      * intros sr Hin. apply Hall. by apply list_elem_of_further.
Qed.

(** C2.  The aggregate [passed] of a run result is true exactly when no
    step result in its list has status [failed]; a definition without
    steps yields [passed = True] and an empty list. *)
Theorem run_passed_iff_no_failed_step :
  forall (E : Env) (env_path : option string) (d : TestDefinition.t)
         (w w' : World) (r : TestRunResult.t),
    run E env_path d w = (Ok r, w') ->
    (TestRunResult.passed r = true
     <-> forall sr, sr ∈ TestRunResult.steps r -> StepResult.status sr <> Status.failed)
    /\ (TestDefinition.steps d = [] ->
        TestRunResult.passed r = true /\ TestRunResult.steps r = []).
Proof.
  intros E env_path d w w' r H.
  destruct (run_result_spec E env_path d w r w' H) as (Hp & Hlen & _).
  cbv zeta in Hp, Hlen. split.
  - rewrite Hp. apply forallb_not_failed.
  - intros Hnil. rewrite Hnil in Hlen. cbn in Hlen.
    assert (TestRunResult.steps r = []) as Hrs
      by (destruct (TestRunResult.steps r); [reflexivity | cbn in Hlen; lia]).
    split; [|exact Hrs]. by rewrite Hp, Hrs.
Qed.

(** A definition without steps passes with an empty list; the four-step
    test with its failed step does not pass. *)
Lemma run_passed_iff_no_failed_step_witness :
  (exists r w', run calm None (definition_with false [] []) genesis = (Ok r, w')
     /\ TestRunResult.passed r = true /\ TestRunResult.steps r = [])
  /\ (exists r w', run calm None (definition_with true [] four_steps) genesis = (Ok r, w')
        /\ (TestRunResult.passed r = true
            <-> forall sr, sr ∈ TestRunResult.steps r ->
                           StepResult.status sr <> Status.failed)
        /\ TestRunResult.passed r = false).
Proof.
  split.
  - destruct (run calm None (definition_with false [] []) genesis)
      as [[r|e] w'] eqn:H; [|vm_compute in H; discriminate].
    exists r, w'. split; [reflexivity|].
    apply (proj2 (run_passed_iff_no_failed_step calm None _ genesis w' r H)). reflexivity.
  - destruct (run calm None (definition_with true [] four_steps) genesis)
      as [[r|e] w'] eqn:H; [|vm_compute in H; discriminate].
    exists r, w'. split; [reflexivity|].
    split; [exact (proj1 (run_passed_iff_no_failed_step calm None _ genesis w' r H))|].
    vm_compute in H. injection H as <- _. reflexivity.
Defined.

(** C10.  Every step result the executor produces carries the index it
    was given and the step's type tag; its status is [passed] or
    [failed], never [skipped]; a [passed] result has no error text and a
    [failed] one has it set.  This holds for every step kind and every
    outcome of the dispatch, caught exceptions included.  In a run
    result, the index of each step result is its zero-based position, and
    its type is the tag of the step at that position. *)
Theorem step_results_are_well_formed :
  (forall (E : Env) (index : nat) (step : Step) (context : TestRunContext)
          (append_configs : list string) (s : Sys),
      exists sr s',
        _run_step E index step context append_configs s = (Ok sr, s')
        /\ StepResult.index sr = index
        /\ StepResult.type sr = step_type step
        /\ StepResult.status sr <> Status.skipped
        /\ (StepResult.status sr = Status.passed -> StepResult.error sr = None)
        /\ (StepResult.status sr = Status.failed -> is_Some (StepResult.error sr)))
  /\ (forall (E : Env) (env_path : option string) (d : TestDefinition.t)
             (w w' : World) (r : TestRunResult.t),
        run E env_path d w = (Ok r, w') ->
        forall k sr, TestRunResult.steps r !! k = Some sr ->
          StepResult.index sr = k
          /\ (exists step, TestDefinition.steps d !! k = Some step
                           /\ StepResult.type sr = step_type step)
          /\ StepResult.status sr <> Status.skipped
          /\ (StepResult.status sr = Status.passed -> StepResult.error sr = None)
          /\ (StepResult.status sr = Status.failed -> is_Some (StepResult.error sr))).
Proof.
  assert (forall status error, consistent status error ->
            status <> Status.skipped
            /\ (status = Status.passed -> error = None)
            /\ (status = Status.failed -> is_Some error)) as Hcons.
  { intros status error [[-> ->]|[-> He]]; repeat split; try discriminate; auto. }
  split.
  - intros E index step context append_configs s.
    destruct (_run_step_result E index step context append_configs s)
      as (sr & s' & Heq & Hi & Ht & Hc).
    exists sr, s'. split; [exact Heq|]. split; [exact Hi|]. split; [exact Ht|].
    by apply Hcons.
  - intros E env_path d w w' r H k sr Hk.
    destruct (run_result_spec E env_path d w r w' H) as (_ & _ & Hall & _).
    destruct (Hall k sr Hk) as (H1 & H2 & H3).
    split; [exact H1|]. split; [exact H2|]. by apply Hcons.
Qed.

(** In the four-step run, the third result records the exception caught
    at the executor boundary. *)
Lemma step_results_are_well_formed_witness :
  exists r w' sr,
    run calm None (definition_with true [] four_steps) genesis = (Ok r, w')
    /\ TestRunResult.steps r !! 2%nat = Some sr
    /\ StepResult.index sr = 2%nat
    /\ StepResult.type sr = "save_state"
    /\ StepResult.status sr = Status.failed
    /\ StepResult.error sr = Some "State slot must be non-negative.".
Proof.
  destruct (run calm None (definition_with true [] four_steps) genesis)
    as [[r|e] w'] eqn:H; [|vm_compute in H; discriminate].
  destruct (TestRunResult.steps r !! 2%nat) as [sr|] eqn:Hk;
    [|vm_compute in H; injection H as <- _; vm_compute in Hk; discriminate].
  exists r, w', sr. split; [reflexivity|]. split; [exact Hk|].
  destruct (proj2 step_results_are_well_formed calm None _ genesis w' r H 2%nat sr Hk)
    as (Hi & (step & Hstep & Ht) & _).
  split; [exact Hi|].
  split; [rewrite Ht; cbn in Hstep; injection Hstep as <-; reflexivity|].
  vm_compute in H. injection H as <- _. vm_compute in Hk. injection Hk as <-.
  split; reflexivity.
Defined.


(** ** Screenshot capture *)

Lemma set_now_same (w : World) : set_now (now w) w = w.
Proof. by destruct w. Qed.

Lemma now_add_sent (d : string * Z * string) (w : World) : now (add_sent d w) = now w.
Proof. reflexivity. Qed.




Lemma snapshot_from_total (l : list DirEntry) :
  forall m : gmap string Z,
    (forall e, e ∈ l -> stat_raises e = None) ->
    exists before, snapshot_from m l = Ok before.
Proof.
  induction l as [|x l IH]; intros m Hall; cbn [snapshot_from]; [by eexists|].
  unfold stat_mtime. rewrite (Hall x) by apply list_elem_of_here.
  apply IH. intros e He. apply Hall. by apply list_elem_of_further.
Qed.


Section FirstCapture.
Variable known : list DirEntry.
Variable before : gmap string Z.
Variable start_time : Z.
Hypothesis Hbefore :
  forall k, before !! k = None <-> forall e0, e0 ∈ known -> d_name e0 <> k.





End FirstCapture.

Section Capture.
Variable E : Env.
Variable dir : string.
Variable known : list DirEntry.
Variable before : gmap string Z.
Variable start_time deadline : Z.
Hypothesis Hbefore :
  forall k, before !! k = None <-> forall e0, e0 ∈ known -> d_name e0 <> k.




End Capture.

(** [capture_screenshot], step by step: the directory, the clock and the
    snapshot are read before the [SCREENSHOT] datagram is sent; the poll
    starts after it. *)
Lemma capture_screenshot_eq (E : Env) (t : Z) (s : Sys) :
  let c := ctl s in
  let dir := screenshots_dir (_artifacts c) in
  let start_time := now (wld s) in
  capture_screenshot E t s
  = match mkdir_raises E (wld s) dir with
    | Some e => (Raise e, s)
    | None =>
        match snapshot (listing E dir (wld s)) with
        | Raise x => (Raise x, s)
        | Ok before =>
            match sendto_raises E (wld s) (_host c) (_port c) "SCREENSHOT" with
            | Some e => (Raise e, s)
            | None =>
                match poll_screenshots E (Z.to_nat (start_time + t - start_time)) dir
                        before start_time (start_time + t)
                        (add_sent (_host c, _port c, "SCREENSHOT") (wld s)) with
                | (Ok (Some path), w') => (Ok path, mkSys c w')
                | (Ok None, w') => (Raise timed_out, mkSys c w')
                | (Raise e, w') => (Raise e, mkSys c w')
                end
            end
        end
    end.
Proof.
  cbv zeta. unfold capture_screenshot.
  unfold bind at 1. cbn [self]. unfold bind at 1. unfold liftW at 1, ensure_dir.
  destruct (mkdir_raises E (wld s) (screenshots_dir (_artifacts (ctl s)))) as [e|];
    [by rewrite sys_eta|].
  unfold bind at 1. unfold liftW at 1, time_time. cbn [wld ctl].
  unfold bind at 1. unfold liftW at 1, glob_star_dot_star. cbn [wld ctl].
  fold (listing E (screenshots_dir (_artifacts (ctl s))) (wld s)).
  unfold bind at 1. unfold liftW at 1. cbn [wld ctl].
  destruct (snapshot _) as [before|x]; [|by rewrite sys_eta].
  unfold bind at 1. rewrite send_command_eq. cbn [wld ctl].
  destruct (sendto_raises E (wld s) (_host (ctl s)) (_port (ctl s)) "SCREENSHOT") as [e|];
    [by rewrite sys_eta|].
  unfold bind at 1. unfold liftW at 1, time_time. cbn [wld ctl now add_sent].
  unfold bind at 1. unfold liftW at 1. cbn [wld ctl].
  destruct (poll_screenshots _ _ _ _ _ _ _) as [[[path|]|e] w']; reflexivity.
Qed.





(** ** Screenshot assertion without a validator *)

(** C9 (as amended).  With no validator configured, a
    [screenshot_assert] step captures first.  If the capture returns a
    path, the step result is [failed] with the error text
    "OPENROUTER_API_KEY not configured", and the path is recorded; nothing
    happens after the capture.  If the capture raises, the step result is
    [failed] with the capture's error text and no path. *)
Theorem screenshot_assert_without_validator :
  forall (E : Env) (index : nat) (st : ScreenshotAssertStep.t)
         (context : TestRunContext) (append_configs : list string) (s : Sys),
    openrouter context = None ->
    (forall path s1,
        capture E context st s = (Ok path, s1) ->
        _run_step E index (ScreenshotAssert st) context append_configs s
        = (Ok (StepResult.mk index "screenshot_assert" Status.failed
                 (now (wld s)) (now (wld s1)) (now (wld s1) - now (wld s))
                 None (Some "OPENROUTER_API_KEY not configured") (Some path) None), s1))
    /\ (forall e s1,
          capture E context st s = (Raise e, s1) ->
          _run_step E index (ScreenshotAssert st) context append_configs s
          = (Ok (StepResult.mk index "screenshot_assert" Status.failed
                   (now (wld s)) (now (wld s1)) (now (wld s1) - now (wld s))
                   None (Some (exc_str e)) None None), s1)).
Proof.
  intros E index st context append_configs s Hnone. split.
  - intros path s1 Hcap. unfold _run_step, try_except. cbn [dispatch].
    unfold bind at 1. unfold liftS at 1. cbn [fst snd]. rewrite Hcap, Hnone. reflexivity.
  - intros e s1 Hcap. unfold _run_step, try_except. cbn [dispatch].
    unfold bind at 1. unfold liftS at 1. cbn [fst snd]. rewrite Hcap. reflexivity.
Qed.

(** With the snappy emulator the step fails for want of a validator and
    keeps the screenshot's path. *)
Lemma screenshot_assert_without_validator_witness :
  _run_step snappy 0 (ScreenshotAssert screenshot_step) no_validator [] (idle_at 0)
  = (Ok (StepResult.mk 0 "screenshot_assert" Status.failed 0 0 0 None
           (Some "OPENROUTER_API_KEY not configured")
           (Some "/out/screenshots/game-260101-000000.png") None),
     mkSys (ctl (idle_at 0)) (add_sent ("127.0.0.1", 55355, "SCREENSHOT") genesis)).
Proof.
  refine (proj1 (screenshot_assert_without_validator snappy 0 screenshot_step no_validator []
                   (idle_at 0) eq_refl)
            "/out/screenshots/game-260101-000000.png"
            (mkSys (ctl (idle_at 0)) (add_sent ("127.0.0.1", 55355, "SCREENSHOT") genesis)) _).
  vm_compute. reflexivity.
Defined.

(** C9 (as stated) fails: with no validator and an emulator that writes
    no screenshot, the step fails with the capture's timeout text, not
    with the missing-key text, and records no path. *)
Lemma screenshot_assert_capture_timeout_counterexample :
  exists sr s',
    openrouter no_validator = None
    /\ _run_step calm 0 (ScreenshotAssert screenshot_step) no_validator [] (idle_at 0)
       = (Ok sr, s')
    /\ StepResult.status sr = Status.failed
    /\ StepResult.error sr = Some "Timed out waiting for RetroArch screenshot output."
    /\ StepResult.error sr <> Some "OPENROUTER_API_KEY not configured"
    /\ StepResult.screenshot_path sr = None.
Proof.
  eexists _, _. split; [reflexivity|]. split; [vm_compute; reflexivity|].
  cbn. repeat split. discriminate.
Qed.


(** ** Shutdown, called again *)

#[global] Instance keeps_child_refl p : Reflexive (keeps_child p).
Proof. intros s. by split. Qed.

#[global] Instance keeps_child_trans p : Transitive (keeps_child p).
Proof. intros a b c [H1 H2] [H3 H4]. split; [congruence | auto]. Qed.

Section ShutdownAgain.
Variable E : Env.

Lemma liftW_keeps_child {A} p (c : M World A) :
  (forall w, p ∈ exited w -> p ∈ exited (c w).2) -> Respects (keeps_child p) (liftW c).
Proof.
  intros Hc s. unfold liftW. specialize (Hc (wld s)).
  destruct (c (wld s)) as [r w']. by split.
Qed.

Lemma poll_Ok_true p w w' : poll E p w = (Ok true, w') -> p ∈ exited w'.
Proof.
  unfold poll. intros H. repeat case_match; simplify_eq.
  - match goal with H : bool_decide _ = true |- _ => by apply bool_decide_eq_true_1 in H end.
  - apply list_elem_of_here.
Qed.

Lemma wait_Ok p t w u w' : wait E p t w = (Ok u, w') -> p ∈ exited w'.
Proof.
  unfold wait. intros H. repeat case_match; simplify_eq.
  - match goal with H : bool_decide _ = true |- _ => by apply bool_decide_eq_true_1 in H end.
  - apply list_elem_of_here.
Qed.

Lemma liftW_Ok_inv {A} (c : M World A) s a s' :
  liftW c s = (Ok a, s') -> c (wld s) = (Ok a, wld s') /\ ctl s' = ctl s.
Proof.
  unfold liftW. destruct (c (wld s)) as [r w']. intros H. injection H as -> <-. by split.
Qed.

Lemma send_command_keeps_child p command :
  Respects (keeps_child p) (send_command E command).
Proof.
  intros s. rewrite send_command_eq. case_match; [reflexivity|]. by split.
Qed.

Lemma close_keeps_child p h : Respects (keeps_child p) (liftW (close E h)).
Proof. apply liftW_keeps_child. intros w H. unfold close. by case_match. Qed.

Lemma shutdown_never_launched (t : Z) (s : Sys) :
  _process (ctl s) = None -> shutdown E t s = (Ok tt, s).
Proof. intros H. unfold shutdown, bind. cbn [self]. by rewrite H. Qed.

Lemma shutdown_child_gone (t : Z) (s : Sys) (p : nat) :
  _process (ctl s) = Some p -> p ∈ exited (wld s) -> shutdown E t s = (Ok tt, s).
Proof.
  intros Hp Hin. unfold shutdown, bind. cbn [self]. rewrite Hp.
  unfold liftW, poll. rewrite bool_decide_eq_true_2 by exact Hin. by rewrite sys_eta.
Qed.

(** A shutdown that returns leaves the child exited, the handle kept. *)
Lemma shutdown_leaves_child_gone (t : Z) (s s1 : Sys) (p : nat) :
  _process (ctl s) = Some p -> shutdown E t s = (Ok tt, s1) ->
  _process (ctl s1) = Some p /\ p ∈ exited (wld s1).
Proof.
  intros Hp H. unfold shutdown in H. unfold bind at 1 in H. cbn [self] in H. rewrite Hp in H.
  apply bind_Ok_inv in H as (dead & s2 & Hpoll & H).
  apply liftW_Ok_inv in Hpoll as [Hpoll Hctl2].
  destruct dead.
  { injection H as <-. split; [congruence | by apply poll_Ok_true in Hpoll]. }
  apply bind_Ok_inv in H as (u & s3 & Hquit & H).
  assert (keeps_child p s2 s3) as [Hproc3 _].
  { pose proof (Respects_try_except (keeps_child p) (send_command E "QUIT") (fun _ => ret tt)
                  (send_command_keeps_child p "QUIT")
                  (fun _ => Respects_ret (keeps_child p) tt) s2) as HR.
    by rewrite Hquit in HR. }
  apply bind_Ok_inv in H as (gone & s4 & Hwait & H).
  unfold try_except_class, try_except in Hwait. unfold bind at 1 in Hwait.
  destruct (liftW (wait E p t) s3) as [[u1|e1] s3'] eqn:Hw1.
  - cbn in Hwait. injection Hwait as <- <-. injection H as <-.
    apply liftW_Ok_inv in Hw1 as [Hw1 Hctl]. split; [congruence | by apply wait_Ok in Hw1].
  - assert (ctl s3' = ctl s3) as Hctl3'
        by (unfold liftW in Hw1; destruct (wait E p t (wld s3)); by injection Hw1 as _ <-).
    destruct (class_eqb (exc_class e1) TimeoutExpired); [|discriminate].
    cbn in Hwait. injection Hwait as <- <-.
    apply bind_Ok_inv in H as (u2 & s5 & Hterm & H).
    apply liftW_Ok_inv in Hterm as [_ Hctl5].
    apply bind_Ok_inv in H as (u3 & s6 & Hkill & H).
    assert (_process (ctl s6) = Some p /\ p ∈ exited (wld s6)) as [Hproc6 Hgone6].
    { unfold try_except_class, try_except in Hkill.
      destruct (liftW (wait E p t) s5) as [[u4|e4] s5'] eqn:Hw2.
      - injection Hkill as _ <-. apply liftW_Ok_inv in Hw2 as [Hw2 Hctl].
        split; [congruence | by apply wait_Ok in Hw2].
      - assert (ctl s5' = ctl s5) as Hctl5'
            by (unfold liftW in Hw2; destruct (wait E p t (wld s5)); by injection Hw2 as _ <-).
        destruct (class_eqb (exc_class e4) TimeoutExpired); [|discriminate].
        apply bind_Ok_inv in Hkill as (u5 & s7 & Hk & Hw3).
        apply liftW_Ok_inv in Hk as [_ Hctl7].
        apply liftW_Ok_inv in Hw3 as [Hw3 Hctl6].
        split; [congruence | by apply wait_Ok in Hw3]. }
    assert (Respects (keeps_child p)
              (c <- self ;;
               match _log_handle c with
               | Some h => try_except (liftW (close E h)) (fun _ => ret tt) ;; set_log_handle None
               | None => ret tt
               end)) as HR.
    { pose proof (close_keeps_child p).
      assert (Respects (keeps_child p) (set_log_handle None)) by (intros x; by split).
      respects. }
    specialize (HR s6). rewrite H in HR. destruct HR as [HR1 HR2].
    split; [cbn in HR1; congruence | by apply HR2].
Qed.

(** [shutdown] is idempotent: after a call that returned, and when
    nothing was ever launched, a further call returns and changes
    nothing: no datagram, no signal, no close. *)
Lemma shutdown_idempotent (t t' : Z) (s s1 : Sys) :
  shutdown E t s = (Ok tt, s1) -> shutdown E t' s1 = (Ok tt, s1).
Proof.
  intros H. destruct (_process (ctl s)) as [p|] eqn:Hp.
  - destruct (shutdown_leaves_child_gone t s s1 p Hp H) as [Hp1 Hgone].
    by apply shutdown_child_gone with (p := p).
  - rewrite (shutdown_never_launched t s Hp) in H. injection H as <-.
    by apply shutdown_never_launched.
Qed.
End ShutdownAgain.


(** ** The run returns *)

Section Returns.
Variable E : Env.

Lemma try_swallow {S} (c : M S unit) (s : S) :
  exists s', try_except c (fun _ => ret tt) s = (Ok tt, s').
Proof. unfold try_except. destruct (c s) as [[[]|e] s']; by eexists. Qed.

(** [shutdown] swallows what [QUIT] and [close] raise; only the wait
    after a kill could raise. *)
Lemma shutdown_returns (t : Z) (s : Sys) :
  kill_is_final E -> exists s', shutdown E t s = (Ok tt, s').
Proof.
  intros Hkill. unfold shutdown. unfold bind at 1. cbn [self].
  destruct (_process (ctl s)) as [p|]; [|by eexists].
  unfold bind at 1. unfold liftW at 1.
  destruct (poll E p (wld s)) as [[dead|e] w1] eqn:Hpoll;
    [|unfold poll in Hpoll; repeat case_match; discriminate].
  destruct dead; [by eexists|].
  unfold bind at 1.
  destruct (try_swallow (send_command E "QUIT") (mkSys (ctl s) w1)) as [s3 ->].
  assert (forall s5 : Sys, exists s',
            (c <- self ;;
             match _log_handle c with
             | Some h => try_except (liftW (close E h)) (fun _ => ret tt) ;; set_log_handle None
             | None => ret tt
             end) s5 = (Ok tt, s')) as Hclose.
  { intros s5. unfold bind at 1. cbn [self].
    destruct (_log_handle (ctl s5)) as [h|]; [|by eexists].
    unfold bind at 1. destruct (try_swallow (liftW (close E h)) s5) as [s6 ->]. by eexists. }
  unfold bind at 1. unfold try_except_class at 1, try_except at 1. unfold bind at 1.
  unfold liftW at 1, wait at 1.
  destruct (bool_decide (p ∈ exited (wld s3))); [by eexists|].
  destruct (exits_within E (wld s3) p t); [by eexists|].
  cbn [exc_class class_eqb ret]. unfold bind at 1. unfold liftW at 1, terminate, modify.
  unfold bind at 1. unfold try_except_class at 1, try_except at 1.
  unfold liftW at 1, wait at 1. cbn [wld ctl].
  destruct (bool_decide (p ∈ exited _)); [apply Hclose|].
  destruct (exits_within E _ p t); [apply Hclose|].
  cbn [exc_class class_eqb]. unfold bind at 1. unfold bind at 1.
  unfold liftW at 1, kill, modify. unfold liftW at 1, wait. cbn [wld ctl].
  destruct (bool_decide (p ∈ exited _)); [apply Hclose|].
  rewrite Hkill; [apply Hclose|].
  cbn [signals add_signal set_now]. apply elem_of_app. right. apply list_elem_of_here.
Qed.

(** A run whose set-up succeeds returns a result, when killed children
    are reaped and the report can be written: every loop of the steps
    is bounded, the screenshot timeouts being finite. *)
Lemma run_returns env_path d w a w1 w2 o w3 :
  _build_artifacts E d w = (Ok a, w1) ->
  _write_append_config E a d w1 = (Ok tt, w2) ->
  _resolve_openrouter E env_path w2 = (Ok o, w3) ->
  kill_is_final E ->
  (forall w' p, write_raises E w' p = None) ->
  exists r w', run E env_path d w = (Ok r, w').
Proof.
  intros Hb Hw Ho Hkill Hwrite. unfold run.
  unfold bind at 1. rewrite Hb. unfold bind at 1. rewrite Hw. unfold bind at 1. rewrite Ho.
  unfold bind at 1. cbn [time_time]. unfold bind at 1. cbn [time_time].
  unfold try_finally.
  match goal with |- context [run_steps E ?ctx ?ac ?i ?st ?acc ?p ?s0] =>
    destruct (run_steps_spec E ctx ac st i acc p s0) as (new & s1 & -> & _) end.
  destruct (shutdown_returns default_shutdown_timeout s1 Hkill) as (s2 & ->).
  unfold bind, time_time, write_file, ret. rewrite Hwrite. by eexists _, _.
Qed.
End Returns.

(** The bound of the retry loop of the system capture suffices: it is
    left after a successful capture command, at the deadline, or by an
    exception: of the command, when it is not a failed command, or of
    the nap. *)
Lemma screencapture_loop_exit (E : Env) command target deadline :
  forall fuel last_error w,
    (Z.to_nat (deadline - now w) <= fuel)%nat ->
    match screencapture_loop E fuel command target deadline last_error w with
    | (Ok _, w') =>
        deadline <= now w' \/ run_raises E w' [command; "-x"; "-t"; "png"; target] = None
    | (Raise e, w') =>
        (run_raises E w' [command; "-x"; "-t"; "png"; target] = Some e
         /\ class_eqb (exc_class e) CalledProcessError = false)
        \/ sleep_raises E w' 250 = Some e
    end.
Proof.
  induction fuel as [|fuel IH]; intros last_error w Hfuel; cbn [screencapture_loop].
  - left. lia.
  - destruct (now w <? deadline) eqn:Hlt; [|left; by apply Z.ltb_ge].
    apply Z.ltb_lt in Hlt.
    destruct (run_raises E w [command; "-x"; "-t"; "png"; target]) as [exc|] eqn:Hrun;
      [|by right].
    destruct (class_eqb (exc_class exc) CalledProcessError) eqn:Hcls; [|by left].
    rewrite time_sleep_nap. destruct (sleep_raises E w 250) eqn:Hnap; [by right|].
    apply IH. cbn [now set_now]. lia.
Qed.

(** The bounds of the cursor loops suffice: when [set_state_slot]
    returns, both loop conditions are false, the cursor being on the
    target. *)
Lemma set_state_slot_Ok_cursor (E : Env) (slot : Z) (s s' : Sys) :
  set_state_slot E slot s = (Ok tt, s') -> _state_slot (ctl s') = slot.
Proof.
  intros H. destruct (Z.ltb_spec slot 0) as [Hneg|Hpos].
  - unfold set_state_slot in H. apply Z.ltb_lt in Hneg. rewrite Hneg in H. discriminate.
  - destruct (set_state_slot_spec E slot s Hpos) as (k & r & Heq & _ & Hex & _).
    rewrite Heq in H. injection H as -> <-. rewrite (Hex eq_refl).
    unfold moved. cbn [ctl with_slot _state_slot].
    destruct (Z.ltb_spec (_state_slot (ctl s)) slot); lia.
Qed.

(* ===================================================================== *)
(** * Further properties of the controller and the runner *)
(* ===================================================================== *)

(** ** Path resolution *)

(** X1.  [resolve_retroarch_path] never changes the world and never
    returns an empty path: what it returns is the first of the override,
    the [RETROARCH_PATH] variable, the [retroarch] found on the search
    path and the macOS bundle that is there and not empty.  It raises its
    [FileNotFoundError] exactly when none of the four is. *)
Theorem resolve_retroarch_path_first_match :
  forall (E : Env) (override : option string) (w : World),
    let candidates :=
      [given override; given (environ w !! "RETROARCH_PATH"); given (which E "retroarch");
       if path_exists E w mac_bundle then Some mac_bundle else None] in
    (resolve_retroarch_path E override w).2 = w
    /\ (forall p, (resolve_retroarch_path E override w).1 = Ok p ->
          p <> "" /\ exists i, candidates !! i = Some (Some p)
                               /\ forall j, (j < i)%nat -> candidates !! j = Some None)
    /\ ((exists e, (resolve_retroarch_path E override w).1 = Raise e)
        <-> Forall (fun c => c = None) candidates)
    /\ (forall e, (resolve_retroarch_path E override w).1 = Raise e ->
          exc_class e = FileNotFoundError).
Proof.
  intros E override w candidates.
  assert (forall o p, given o = Some p -> p <> "") as Hne.
  { intros o p. unfold given, truthy. destruct o as [q|]; [|discriminate].
    destruct (String.eqb_spec q ""); cbn; [discriminate|]. intros H. by injection H as <-. }
  subst candidates. unfold resolve_retroarch_path.
  destruct (given override) as [p1|] eqn:H1; cbn [fst snd].
  { split; [reflexivity|]. split.
    - intros p H. injection H as <-. split; [by eapply Hne|].
      exists 0%nat. split; [reflexivity | lia].
    - split; [|discriminate]. split; [intros [e H]; discriminate|].
      intros H. apply Forall_cons in H as [H _]. discriminate. }
  destruct (given (environ w !! "RETROARCH_PATH")) as [p2|] eqn:H2; cbn [fst snd].
  { split; [reflexivity|]. split.
    - intros p H. injection H as <-. split; [by eapply Hne|].
      exists 1%nat. split; [reflexivity|]. intros [|j] Hj; [reflexivity | lia].
    - split; [|discriminate]. split; [intros [e H]; discriminate|].
      intros H. apply Forall_cons in H as [_ H]. apply Forall_cons in H as [H _]. discriminate. }
  destruct (given (which E "retroarch")) as [p3|] eqn:H3; cbn [fst snd].
  { split; [reflexivity|]. split.
    - intros p H. injection H as <-. split; [by eapply Hne|].
      exists 2%nat. split; [reflexivity|]. intros [|[|j]] Hj; [reflexivity | reflexivity | lia].
    - split; [|discriminate]. split; [intros [e H]; discriminate|].
      intros H. do 2 apply Forall_cons in H as [_ H]. apply Forall_cons in H as [H _].
      discriminate. }
  destruct (path_exists E w mac_bundle) eqn:H4; cbn [fst snd].
  { split; [reflexivity|]. split.
    - intros p H. injection H as <-. split; [discriminate|].
      exists 3%nat. split; [reflexivity|].
      intros [|[|[|j]]] Hj; [reflexivity | reflexivity | reflexivity | lia].
    - split; [|discriminate]. split; [intros [e H]; discriminate|].
      intros H. do 3 apply Forall_cons in H as [_ H]. apply Forall_cons in H as [H _].
      discriminate. }
  split; [reflexivity|]. split; [discriminate|]. split.
  - split; [intros _; repeat constructor | intros _; by eexists].
  - intros e H. by injection H as <-.
Qed.

(** ** Launching *)

Section Launching.
Variable E : Env.

Lemma resolve_retroarch_path_world o w : (resolve_retroarch_path E o w).2 = w.
Proof. unfold resolve_retroarch_path. by repeat case_match. Qed.

Lemma with_closed_nil w : with_closed [] w = w.
Proof. destruct w. unfold with_closed. cbn. by rewrite app_nil_r. Qed.

(** [launch], outcome by outcome. *)
Lemma launch_eq (s : Sys)
    core_path content_path config_path append_config_paths retroarch_path menu verbose extra_args :
  launch E core_path content_path config_path append_config_paths retroarch_path
    menu verbose extra_args s
  = let c := ctl s in
    match match _process c with Some p => poll E p (wld s) | None => (Ok true, wld s) end with
    | (Raise e, w1) => (Raise e, mkSys c w1)
    | (Ok false, w1) => (Raise (mkExc RuntimeError "RetroArch is already running."), mkSys c w1)
    | (Ok true, w1) =>
        match (resolve_retroarch_path E retroarch_path w1).1 with
        | Raise e => (Raise e, mkSys c w1)
        | Ok resolved_path =>
            let w2 := with_closed (handle_list (_log_handle c)) w1 in
            match open_raises E w2 (log_path (_artifacts c)) with
            | Some e => (Raise e, mkSys c w2)
            | None =>
                let log_file := length (opened w2) in
                let c3 := with_log_handle c (Some log_file) in
                let w3 := add_opened (log_path (_artifacts c)) w2 in
                let command := build_command resolved_path core_path content_path config_path
                                 append_config_paths menu verbose extra_args in
                match popen_raises E w3 command with
                | Some e => (Raise e, mkSys c3 w3)
                | None => (Ok (length (spawned w3)),
                           mkSys (with_process c3 (Some (length (spawned w3))))
                                 (add_spawned (command, log_file) w3))
                end
            end
        end
    end.
Proof.
  destruct s as [[h pt a pr lh sl] w].
  unfold launch, bind, self, liftW, set_log_handle, set_process, modify, ret, raise,
    try_except, close, open_w, Popen. cbn.
  assert (forall w1, 
    resolve_retroarch_path E retroarch_path w1
    = ((resolve_retroarch_path E retroarch_path w1).1, w1)) as Hr.
  { intros w1. pose proof (resolve_retroarch_path_world retroarch_path w1).
    destruct (resolve_retroarch_path E retroarch_path w1); cbn in *; by subst. }
  destruct pr as [p|]; cbn.
  - destruct (poll E p w) as [[[|]|e] w1]; cbn; try reflexivity.
    rewrite (Hr w1). destruct (resolve_retroarch_path E retroarch_path w1).1; cbn; [|reflexivity].
    destruct lh as [l|]; cbn.
    + unfold with_closed, add_closed. cbn.
      destruct (close_raises E w1 l); cbn;
        destruct (open_raises E _ (log_path a)); cbn; try reflexivity;
        destruct (popen_raises E _ _); reflexivity.
    + rewrite with_closed_nil.
      destruct (open_raises E _ (log_path a)); cbn; try reflexivity;
        destruct (popen_raises E _ _); reflexivity.
  - rewrite (Hr w). destruct (resolve_retroarch_path E retroarch_path w).1; cbn; [|reflexivity].
    destruct lh as [l|]; cbn.
    + unfold with_closed, add_closed. cbn.
      destruct (close_raises E w l); cbn;
        destruct (open_raises E _ (log_path a)); cbn; try reflexivity;
        destruct (popen_raises E _ _); reflexivity.
    + rewrite with_closed_nil.
      destruct (open_raises E _ (log_path a)); cbn; try reflexivity;
        destruct (popen_raises E _ _); reflexivity.
Qed.

End Launching.

(** X2.  A [launch] that returns has spawned exactly one child: its
    command line is [build_command] applied to the resolved executable
    and the arguments of the call, its output goes to the log file opened
    by this call, the previous log handle was closed first, the
    controller holds the new process and log handles, the cursor is
    untouched, and a process held before had been seen exited. *)
Theorem launch_spawns_one_logged_child :
  forall (E : Env) (s s' : Sys) (pid : nat)
         core_path content_path config_path append_config_paths retroarch_path
         menu verbose extra_args,
    launch E core_path content_path config_path append_config_paths retroarch_path
      menu verbose extra_args s = (Ok pid, s') ->
    exists resolved_path w1,
      let c := ctl s in
      let w2 := with_closed (handle_list (_log_handle c)) w1 in
      let log_file := length (opened (wld s)) in
      let command := build_command resolved_path core_path content_path config_path
                       append_config_paths menu verbose extra_args in
      w1 = match _process c with Some p => (poll E p (wld s)).2 | None => wld s end
      /\ (forall p, _process c = Some p -> p ∈ exited w1)
      /\ (resolve_retroarch_path E retroarch_path w1).1 = Ok resolved_path
      /\ pid = length (spawned (wld s))
      /\ s' = mkSys (mkController (_host c) (_port c) (_artifacts c) (Some pid) (Some log_file)
                       (_state_slot c))
                    (add_spawned (command, log_file)
                       (add_opened (log_path (_artifacts c)) w2)).
Proof.
  intros E s s' pid core_path content_path config_path append_config_paths retroarch_path
    menu verbose extra_args H.
  rewrite launch_eq in H. cbn zeta in H.
  assert (forall p w, spawned (poll E p w).2 = spawned w /\ opened (poll E p w).2 = opened w)
    as Hpoll.
  { intros p w. unfold poll. by repeat case_match. }
  destruct (_process (ctl s)) as [p|] eqn:Hp.
  - specialize (Hpoll p (wld s)).
    destruct (poll E p (wld s)) as [[[|]|e] w1] eqn:Hpl; try discriminate.
    destruct (resolve_retroarch_path E retroarch_path w1).1 as [resolved_path|] eqn:Hr;
      [|discriminate].
    destruct (open_raises E _ _); [discriminate|].
    destruct (popen_raises E _ _); [discriminate|].
    injection H as <- <-. exists resolved_path, w1. cbn in Hpoll. destruct Hpoll as [Hs Ho].
    cbn. rewrite Hs, Ho. repeat split; try done.
    + by rewrite Hp, Hpl.
    + intros p' Hp'. rewrite Hp in Hp'. injection Hp' as <-. by eapply poll_Ok_true.
  - destruct (resolve_retroarch_path E retroarch_path (wld s)).1 as [resolved_path|] eqn:Hr;
      [|discriminate].
    destruct (open_raises E _ _); [discriminate|].
    destruct (popen_raises E _ _); [discriminate|].
    injection H as <- <-. exists resolved_path, (wld s). cbn. rewrite Hp. by repeat split.
Qed.

Lemma launch_spawns_one_logged_child_witness :
  exists s',
    launch calm None (Some "game.rom") None ["/out/retroarch-append.cfg"] None None false []
      (idle_at 0) = (Ok 0%nat, s')
    /\ spawned (wld s')
       = [(["/usr/bin/retroarch"; "--appendconfig"; "/out/retroarch-append.cfg"; "game.rom"],
           0%nat)]
    /\ opened (wld s') = ["/out/logs/retroarch.log"].
Proof.
  destruct (launch calm None (Some "game.rom") None ["/out/retroarch-append.cfg"] None None
              false [] (idle_at 0)) as [[pid|e] s'] eqn:H; [|vm_compute in H; discriminate].
  destruct (launch_spawns_one_logged_child _ _ _ _ _ _ _ _ _ _ _ _ H)
    as (resolved_path & w1 & Hw1 & _ & Hr & Hpid & Hs').
  cbn in Hw1. subst w1. vm_compute in Hr. injection Hr as <-.
  exists s'. subst pid s'. split; [reflexivity|]. split; reflexivity.
Defined.

(** X3.  A [launch] that raises has spawned nothing, sent nothing and
    left the process handle and the cursor as they were; and when the
    failure came after the log file was reopened, the controller holds
    the new log handle. *)
Theorem launch_failure_spawns_nothing :
  forall (E : Env) (s s' : Sys) (e : Exc)
         core_path content_path config_path append_config_paths retroarch_path
         menu verbose extra_args,
    launch E core_path content_path config_path append_config_paths retroarch_path
      menu verbose extra_args s = (Raise e, s') ->
    spawned (wld s') = spawned (wld s)
    /\ sent (wld s') = sent (wld s)
    /\ _process (ctl s') = _process (ctl s)
    /\ _state_slot (ctl s') = _state_slot (ctl s)
    /\ ((opened (wld s') = opened (wld s) /\ _log_handle (ctl s') = _log_handle (ctl s))
        \/ (opened (wld s') = opened (wld s) ++ [log_path (_artifacts (ctl s))]
            /\ _log_handle (ctl s') = Some (length (opened (wld s))))).
Proof.
  intros E s s' e core_path content_path config_path append_config_paths retroarch_path
    menu verbose extra_args H.
  rewrite launch_eq in H. cbn zeta in H.
  assert (exists w1,
            match _process (ctl s) with Some p => poll E p (wld s) | None => (Ok true, wld s) end
            = ((match _process (ctl s) with
                | Some p => poll E p (wld s) | None => (Ok true, wld s) end).1, w1)
            /\ spawned w1 = spawned (wld s) /\ sent w1 = sent (wld s)
            /\ opened w1 = opened (wld s)) as (w1 & Heq & Hsp & Hse & Hop).
  { destruct (_process (ctl s)) as [p|]; [|by exists (wld s)].
    unfold poll. destruct (bool_decide (p ∈ exited (wld s))); [by exists (wld s)|].
    destruct (has_exited E (wld s) p); [by exists (add_exited p (wld s)) | by exists (wld s)]. }
  rewrite Heq in H. clear Heq.
  destruct (match _process (ctl s) with
            | Some p => poll E p (wld s) | None => (Ok true, wld s) end).1 as [[|]|e0].
  - destruct (resolve_retroarch_path E retroarch_path w1).1.
    + destruct (open_raises E _ _).
      * injection H as <- <-. cbn. repeat split; try done. by left.
      * destruct (popen_raises E _ _); [|discriminate].
        injection H as <- <-. cbn. rewrite Hop. repeat split; try done. by right.
    + injection H as <- <-. cbn. repeat split; try done. by left.
  - injection H as <- <-. cbn. repeat split; try done. by left.
  - injection H as <- <-. cbn. repeat split; try done. by left.
Qed.

Lemma launch_failure_spawns_nothing_witness :
  spawned (wld (launch calm None None None [] None None false [] launched_once).2)
  = spawned (wld launched_once)
  /\ _process (ctl (launch calm None None None [] None None false [] launched_once).2)
     = Some 0%nat.
Proof.
  destruct (launch calm None None None [] None None false [] launched_once)
    as [[pid|e] s'] eqn:H; [vm_compute in H; discriminate|].
  destruct (launch_failure_spawns_nothing _ _ _ _ _ _ _ _ _ _ _ _ H) as (H1 & _ & H2 & _).
  cbn [snd]. split; [exact H1|]. rewrite H2. reflexivity.
Defined.

(** ** Shutting down *)

Section ShuttingDown.
Variable E : Env.

Lemma wait_Raise_class p t w e w' :
  wait E p t w = (Raise e, w') -> class_eqb (exc_class e) TimeoutExpired = true.
Proof. unfold wait. repeat case_match; intros ?; by simplify_eq. Qed.

Lemma poll_never_raises p w e w' : poll E p w <> (Raise e, w').
Proof. unfold poll. by repeat case_match. Qed.

Lemma log_closed_eq (s : Sys) :
  (c <- self ;;
   match _log_handle c with
   | Some h => try_except (liftW (close E h)) (fun _ => ret tt) ;; set_log_handle None
   | None => ret tt
   end) s = (Ok tt, log_closed (ctl s) (wld s)).
Proof.
  destruct s as [[h pt a pr [l|] sl] w]; unfold log_closed, with_log_handle; cbn.
  - unfold bind, self, try_except, liftW, close, set_log_handle, modify, ret. cbn.
    by destruct (close_raises E w l).
  - unfold bind, self, ret. cbn. by rewrite with_closed_nil.
Qed.

(** [shutdown], outcome by outcome. *)
Lemma shutdown_eq (t : Z) (s : Sys) :
  shutdown E t s
  = let c := ctl s in
    match _process c with
    | None => (Ok tt, s)
    | Some p =>
        match poll E p (wld s) with
        | (Raise e, w1) => (Raise e, mkSys c w1)
        | (Ok true, w1) => (Ok tt, mkSys c w1)
        | (Ok false, w1) =>
            match wait E p t (quit_sent E c w1) with
            | (Ok _, w3) => (Ok tt, mkSys c w3)
            | (Raise _, w3) =>
                match wait E p t (add_signal (p, SIGTERM) w3) with
                | (Ok _, w5) => (Ok tt, log_closed c w5)
                | (Raise _, w5) =>
                    match wait E p t (add_signal (p, SIGKILL) w5) with
                    | (Ok _, w7) => (Ok tt, log_closed c w7)
                    | (Raise e, w7) => (Raise e, mkSys c w7)
                    end
                end
            end
        end
    end.
Proof.
  cbn zeta. unfold shutdown. unfold bind at 1. cbn [self].
  destruct (_process (ctl s)) as [p|]; [|reflexivity].
  unfold bind at 1. unfold liftW at 1.
  destruct (poll E p (wld s)) as [[[|]|e] w1]; try reflexivity.
  unfold bind at 1.
  assert (try_except (send_command E "QUIT") (fun _ => ret tt) (mkSys (ctl s) w1)
          = (Ok tt, mkSys (ctl s) (quit_sent E (ctl s) w1))) as ->.
  { unfold try_except. rewrite send_command_eq. unfold quit_sent. cbn.
    by destruct (sendto_raises E w1 _ _ "QUIT"). }
  unfold bind at 1. unfold try_except_class at 1, try_except at 1. unfold bind at 1.
  unfold liftW at 1. cbn [wld ctl].
  destruct (wait E p t (quit_sent E (ctl s) w1)) as [[[]|e] w3] eqn:Hw1; [reflexivity|].
  rewrite (wait_Raise_class _ _ _ _ _ Hw1). cbn [ret].
  unfold bind at 1. unfold liftW at 1, terminate, modify. cbn [wld ctl].
  unfold bind at 1. unfold try_except_class at 1, try_except at 1.
  unfold liftW at 1. cbn [wld ctl].
  destruct (wait E p t (add_signal (p, SIGTERM) w3)) as [[[]|e'] w5] eqn:Hw2.
  { apply (log_closed_eq (mkSys (ctl s) w5)). }
  rewrite (wait_Raise_class _ _ _ _ _ Hw2).
  unfold bind at 1. unfold bind at 1. unfold liftW at 1, kill, modify. cbn [wld ctl].
  unfold liftW at 1. cbn [wld ctl].
  destruct (wait E p t (add_signal (p, SIGKILL) w5)) as [[[]|e''] w7] eqn:Hw3.
  { apply (log_closed_eq (mkSys (ctl s) w7)). }
  reflexivity.
Qed.

Lemma poll_settled p w : settled w (poll E p w).2.
Proof. unfold poll. repeat case_match; by repeat split. Qed.

Lemma wait_settled p t w : settled w (wait E p t w).2.
Proof. unfold wait. repeat case_match; by repeat split. Qed.

End ShuttingDown.

Section ShutdownOutcomes.
Variable E : Env.

Lemma quit_sent_fields c w :
  spawned (quit_sent E c w) = spawned w
  /\ signals (quit_sent E c w) = signals w
  /\ closed (quit_sent E c w) = closed w
  /\ (sent (quit_sent E c w) = sent w
      \/ sent (quit_sent E c w) = sent w ++ [(_host c, _port c, "QUIT")]).
Proof. unfold quit_sent. destruct (sendto_raises E w _ _ _); cbn; repeat split; auto. Qed.

Local Ltac step_wait :=
  match goal with
  | |- context [wait E ?p ?t ?w] =>
      let H := fresh "Hs" in
      let Hw := fresh "Hw" in
      pose proof (wait_settled E p t w) as H;
      destruct (wait E p t w) as [[[]|?] ?] eqn:Hw;
      cbn [snd] in H;
      destruct H as (_ & ? & ? & ? & _ & ? & _)
  end.

Local Ltac step_poll :=
  match goal with
  | |- context [poll E ?p ?w] =>
      let H := fresh "Hs" in
      let Hw := fresh "Hw" in
      pose proof (poll_settled E p w) as H;
      destruct (poll E p w) as [[[|]|?] ?] eqn:Hw;
      cbn [snd] in H;
      destruct H as (_ & ? & ? & ? & _ & ? & _)
  end.

Local Ltac finish Hq :=
  repeat split; eauto; try discriminate; try congruence;
  try (intros [? | ?]; [discriminate | congruence]);
  try match goal with H : _ \/ _ |- _ => destruct H; [discriminate | congruence] end;
  try (destruct Hq as [? | ?]; [left | right]; congruence).

Lemma shutdown_outcomes (t : Z) (s : Sys) :
  let r := shutdown E t s in
  let c := ctl s in
  exists l,
    signals (wld r.2) = signals (wld s) ++ l
    /\ (l = []
        \/ exists p, _process c = Some p
                     /\ (l = [(p, SIGTERM)] \/ l = [(p, SIGTERM); (p, SIGKILL)]))
    /\ (forall e, r.1 = Raise e -> exc_class e = TimeoutExpired /\ length l = 2%nat)
    /\ spawned (wld r.2) = spawned (wld s)
    /\ (sent (wld r.2) = sent (wld s)
        \/ sent (wld r.2) = sent (wld s) ++ [(_host c, _port c, "QUIT")])
    /\ (l = [] \/ r.1 <> Ok tt ->
        ctl r.2 = c /\ closed (wld r.2) = closed (wld s))
    /\ (l <> [] -> r.1 = Ok tt ->
        ctl r.2 = with_log_handle c None
        /\ closed (wld r.2) = closed (wld s) ++ handle_list (_log_handle c)).
Proof.
  cbn zeta. rewrite shutdown_eq. cbn zeta.
  destruct (_process (ctl s)) as [p|] eqn:Hp.
  2: { exists []. rewrite app_nil_r. cbn. repeat split; auto; try discriminate; done. }
  step_poll.
  1, 3: exists []; rewrite app_nil_r; cbn; repeat split; auto; try discriminate; try done;
        by destruct (poll_never_raises E _ _ _ _ Hw).
  destruct (quit_sent_fields (ctl s) w) as (Hq1 & Hq2 & Hq3 & Hq4).
  assert (sent (quit_sent E (ctl s) w) = sent (wld s)
          \/ sent (quit_sent E (ctl s) w) = sent (wld s) ++ [(_host (ctl s), _port (ctl s), "QUIT")])
    as Hq4' by (destruct Hq4 as [-> | ->]; [left | right]; congruence).
  assert (forall w3 l, signals w3 = (signals (wld s) ++ [(p, SIGTERM)]) ++ l ->
            signals w3 = signals (wld s) ++ (p, SIGTERM) :: l) as Hassoc
    by (intros ? ? ->; by rewrite <- app_assoc).
  step_wait.
  { exists []. rewrite app_nil_r. cbn. finish Hq4'. }
  step_wait.
  { exists [(p, SIGTERM)]. cbn in *. finish Hq4'. }
  step_wait.
  { exists [(p, SIGTERM); (p, SIGKILL)]. cbn in *. finish Hq4'. apply Hassoc. congruence. }
  exists [(p, SIGTERM); (p, SIGKILL)]. cbn in *. finish Hq4'.
  - apply Hassoc. congruence.
  - match goal with H : Raise _ = Raise _ |- _ => injection H as <- end.
    match goal with H : wait _ _ _ (add_signal (_, SIGKILL) _) = (Raise ?e, _) |- _ =>
      apply wait_Raise_class in H; by destruct (exc_class e) end.
Qed.

End ShutdownOutcomes.

(** X4.  [shutdown] escalates in order and at most once: whatever the
    outcome, the signals it sends are none, or [SIGTERM], or [SIGTERM]
    then [SIGKILL], all to the controller's own child; it sends at most
    the one [QUIT] datagram, spawns nothing and keeps the process handle;
    and the only exception it lets out is the [TimeoutExpired] of the
    wait that follows the kill. *)
Theorem shutdown_escalates_in_order :
  forall (E : Env) (t : Z) (s : Sys),
    let r := shutdown E t s in
    let c := ctl s in
    exists l,
      signals (wld r.2) = signals (wld s) ++ l
      /\ (l = []
          \/ exists p, _process c = Some p
                       /\ (l = [(p, SIGTERM)] \/ l = [(p, SIGTERM); (p, SIGKILL)]))
      /\ (forall e, r.1 = Raise e ->
            exc_class e = TimeoutExpired
            /\ exists p, l = [(p, SIGTERM); (p, SIGKILL)])
      /\ (sent (wld r.2) = sent (wld s)
          \/ sent (wld r.2) = sent (wld s) ++ [(_host c, _port c, "QUIT")])
      /\ spawned (wld r.2) = spawned (wld s)
      /\ _process (ctl r.2) = _process c
      /\ _state_slot (ctl r.2) = _state_slot c.
Proof.
  intros E t s. cbn zeta.
  destruct (shutdown_outcomes E t s) as (l & Hsig & Hl & Hraise & Hsp & Hsent & Hkeep & Hclose).
  cbn zeta in *. exists l. split; [exact Hsig|]. split; [exact Hl|]. split.
  { intros e He. destruct (Hraise e He) as [Hc Hlen]. split; [exact Hc|].
    destruct Hl as [-> | (p & _ & [-> | ->])]; try discriminate. by exists p. }
  split; [exact Hsent|]. split; [exact Hsp|].
  destruct (decide (l = [])) as [Hnil | Hnil].
  - destruct (Hkeep (or_introl Hnil)) as [-> _]. by split.
  - destruct (shutdown E t s).1 as [[]|e] eqn:Hr.
    + destruct (Hclose Hnil eq_refl) as [-> _]. by split.
    + assert (Raise e <> Ok tt) as Hne by discriminate.
      destruct (Hkeep (or_intror Hne)) as [-> _]. by split.
Qed.

(** X5.  [shutdown] closes the log only after a signal: when it sent no
    signal, or raises, the controller is exactly as before, log handle
    included, and nothing was closed; when it sent a signal and returns,
    the log handle held before, if any, was closed once and the
    controller holds none. *)
Theorem shutdown_closes_log_only_after_signal :
  forall (E : Env) (t : Z) (s : Sys),
    let r := shutdown E t s in
    (signals (wld r.2) = signals (wld s) \/ r.1 <> Ok tt ->
       ctl r.2 = ctl s /\ closed (wld r.2) = closed (wld s))
    /\ (signals (wld r.2) <> signals (wld s) -> r.1 = Ok tt ->
          ctl r.2 = with_log_handle (ctl s) None
          /\ closed (wld r.2) = closed (wld s) ++ handle_list (_log_handle (ctl s))).
Proof.
  intros E t s. cbn zeta.
  destruct (shutdown_outcomes E t s) as (l & Hsig & _ & _ & _ & _ & Hkeep & Hclose).
  cbn zeta in *. split.
  - intros [Hsame | Hne]; apply Hkeep; [left | by right].
    rewrite Hsig in Hsame. rewrite <- (app_nil_r (signals (wld s))) in Hsame at 2.
    by apply app_inv_head in Hsame.
  - intros Hdiff Hok. apply Hclose; [|exact Hok].
    intros ->. apply Hdiff. by rewrite Hsig, app_nil_r.
Qed.

(** X6.  [shutdown] is idempotent: after a call that returned, a further
    call, with any grace period, returns and changes nothing: no
    datagram, no signal, no close. *)
Theorem shutdown_twice_changes_nothing :
  forall (E : Env) (t t' : Z) (s s1 : Sys),
    shutdown E t s = (Ok tt, s1) -> shutdown E t' s1 = (Ok tt, s1).
Proof. intros E t t' s s1 H. by eapply shutdown_idempotent. Qed.

Lemma shutdown_twice_changes_nothing_witness :
  exists s1,
    shutdown stubborn default_shutdown_timeout launched_stubborn = (Ok tt, s1)
    /\ signals (wld s1) = [(0%nat, SIGTERM)]
    /\ shutdown stubborn 0 s1 = (Ok tt, s1).
Proof.
  destruct (shutdown stubborn default_shutdown_timeout launched_stubborn) as [[[]|e] s1] eqn:H;
    [|vm_compute in H; discriminate].
  exists s1. split; [reflexivity|]. split.
  - vm_compute in H. by injection H as <-.
  - exact (shutdown_twice_changes_nothing stubborn default_shutdown_timeout 0 _ _ H).
Defined.

(** X7.  [shutdown] never raises when a killed child is always reaped by
    the wait that follows: what [QUIT] and [close] raise is swallowed. *)
Theorem shutdown_returns_when_kill_is_final :
  forall (E : Env) (t : Z) (s : Sys),
    kill_is_final E -> exists s', shutdown E t s = (Ok tt, s').
Proof. intros E t s H. by apply shutdown_returns. Qed.

Lemma kill_is_final_stubborn : kill_is_final stubborn.
Proof.
  intros w p t H. cbn. destruct (signals w); [by apply elem_of_nil in H | reflexivity].
Qed.

Lemma shutdown_returns_when_kill_is_final_witness :
  kill_is_final stubborn
  /\ exists s', shutdown stubborn default_shutdown_timeout launched_stubborn = (Ok tt, s').
Proof.
  split; [exact kill_is_final_stubborn|].
  exact (shutdown_returns_when_kill_is_final stubborn default_shutdown_timeout
           launched_stubborn kill_is_final_stubborn).
Defined.

(** ** Capturing *)

(** X8.  With a timeout that is not positive, [capture_screenshot],
    once the screenshot directory is there and the snapshot is taken,
    sends its [SCREENSHOT] datagram and raises the timeout at once: the
    clock has not moved, so no nap was taken, and the datagram is all
    that has happened. *)
Theorem capture_screenshot_without_time_times_out :
  forall (E : Env) (t : Z) (s : Sys),
    let c := ctl s in
    let dir := screenshots_dir (_artifacts c) in
    t <= 0 ->
    mkdir_raises E (wld s) dir = None ->
    (forall e0, e0 ∈ listing E dir (wld s) -> stat_raises e0 = None) ->
    sendto_raises E (wld s) (_host c) (_port c) "SCREENSHOT" = None ->
    capture_screenshot E t s
    = (Raise timed_out, mkSys c (add_sent (_host c, _port c, "SCREENSHOT") (wld s))).
Proof.
  intros E t s c dir Ht Hmk Hstat Hsend. rewrite capture_screenshot_eq. cbn zeta.
  fold c dir. rewrite Hmk, Hsend.
  destruct (snapshot_from_total (listing E dir (wld s)) ∅ Hstat) as [before Hsnap].
  fold (snapshot (listing E dir (wld s))) in Hsnap. rewrite Hsnap.
  replace (Z.to_nat (now (wld s) + t - now (wld s))) with 0%nat by lia.
  reflexivity.
Qed.

(** The emulator that answers at once is not given the time to. *)
Lemma capture_screenshot_without_time_times_out_witness :
  capture_screenshot snappy 0 (idle_at 0)
  = (Raise timed_out,
     mkSys (ctl (idle_at 0)) (add_sent ("127.0.0.1", 55355, "SCREENSHOT") genesis)).
Proof.
  refine (capture_screenshot_without_time_times_out snappy 0 (idle_at 0) _ eq_refl _ eq_refl);
    [lia|].
  intros e0 He0. change (e0 ∈ [old_shot]) in He0.
  by apply list_elem_of_singleton in He0 as ->.
Defined.

(** ** Steps, kind by kind *)

Section Steps.
Variable E : Env.

(** [_run_step] in terms of its [try] block. *)
Lemma _run_step_eq index step context append_configs s :
  _run_step E index step context append_configs s
  = match dispatch E step context append_configs (fresh_locals, s) with
    | (Ok _, (l, s')) => (Ok (report index step s s' l), s')
    | (Raise e, (l, s')) =>
        (Ok (report index step s s' (set_error (exc_str e) (set_status Status.failed l))), s')
    end.
Proof.
  unfold _run_step, try_except, fresh_locals.
  destruct (dispatch E step context append_configs _) as [[u|e] [l s']]; reflexivity.
Qed.

Lemma liftS_eq {A} (c : M Sys A) l s : liftS c (l, s) = ((c s).1, (l, (c s).2)).
Proof. unfold liftS. cbn. by destruct (c s). Qed.


(** [time.sleep], case by case. *)
Lemma time_sleep_finite (ms : Z) (w : World) :
  0 <= ms <= sleep_limit ->
  time_sleep E ms w
  = match sleep_raises E w ms with
    | Some e => (Raise e, w)
    | None => (Ok tt, set_now (now w + ms) w)
    end.
Proof.
  intros H. unfold time_sleep.
  replace (Z.abs ms >? sleep_limit) with false by lia.
  by replace (ms <? 0) with false by lia.
Qed.

Lemma time_sleep_negative (ms : Z) (w : World) :
  - sleep_limit <= ms < 0 ->
  time_sleep E ms w = (Raise (mkExc ValueError "sleep length must be non-negative"), w).
Proof.
  intros H. unfold time_sleep.
  replace (Z.abs ms >? sleep_limit) with false by lia.
  by replace (ms <? 0) with true by lia.
Qed.

Lemma time_sleep_overflow (d : Duration) (w : World) :
  d = PosInf \/ d = NegInf \/ (exists ms, d = Finite ms /\ sleep_limit < Z.abs ms) ->
  time_sleep E d w = (Raise (mkExc OverflowError (sleep_overflow_text E)), w).
Proof.
  intros [-> | [-> | (ms & -> & H)]]; [reflexivity | reflexivity |].
  unfold time_sleep. by replace (Z.abs ms >? sleep_limit) with true by lia.
Qed.

(** A sleep raises, with nothing changed, or returns with the clock
    moved by its length. *)
Lemma time_sleep_outcome (d : Duration) (w : World) :
  (exists e, time_sleep E d w = (Raise e, w))
  \/ (exists ms, d = Finite ms /\ 0 <= ms <= sleep_limit
                 /\ sleep_raises E w ms = None
                 /\ time_sleep E d w = (Ok tt, set_now (now w + ms) w)).
Proof.
  destruct d as [ms| | |]; [|left; by eexists..].
  unfold time_sleep. destruct (Z.abs ms >? sleep_limit) eqn:Hbig; [left; by eexists|].
  destruct (ms <? 0) eqn:Hneg; [left; by eexists|].
  destruct (sleep_raises E w ms) eqn:Hsys; [left; by eexists|].
  right. exists ms. repeat split; first [reflexivity | exact Hsys | lia].
Qed.

Lemma pause_positive (st : InputStep.t) (ms : Z) :
  InputStep.delay_seconds st = Finite ms -> 0 < ms -> pause st = ms.
Proof. intros Hd Hms. unfold pause. rewrite Hd. by replace (ms >? 0) with true by lia. Qed.

Lemma pause_not_positive (st : InputStep.t) :
  positive (InputStep.delay_seconds st) = false -> pause st = 0.
Proof.
  unfold pause, positive. destruct (InputStep.delay_seconds st) as [ms| | |]; try done.
  by intros ->.
Qed.

(** One turn of the loop of an [input] step. *)
Lemma input_turn_eq (st : InputStep.t) l s :
  (liftS (send_command E (InputStep.command st)) ;;
   if positive (InputStep.delay_seconds st)
   then liftS (liftW (time_sleep E (InputStep.delay_seconds st)))
   else ret tt) (l, s)
  = let s1 := after_datagram s (InputStep.command st) in
    match sendto_raises E (wld s) (_host (ctl s)) (_port (ctl s)) (InputStep.command st) with
    | Some e => (Raise e, (l, s))
    | None =>
        if positive (InputStep.delay_seconds st)
        then ((time_sleep E (InputStep.delay_seconds st) (wld s1)).1,
              (l, mkSys (ctl s) (time_sleep E (InputStep.delay_seconds st) (wld s1)).2))
        else (Ok tt, (l, s1))
    end.
Proof.
  cbn zeta. unfold bind at 1. rewrite liftS_eq, send_command_eq.
  unfold after_datagram. cbn [wld ctl].
  destruct (sendto_raises E (wld s) _ _ _); cbn [fst snd]; [reflexivity|].
  destruct (positive (InputStep.delay_seconds st)); [|reflexivity].
  rewrite liftS_eq. unfold liftW. cbn [wld ctl].
  by destruct (time_sleep E _ _).
Qed.

(** The datagram is refused; or it is sent and the pause, if any,
    returns; or it is sent and the pause raises. *)
Lemma input_turn_cases (st : InputStep.t) l s :
  let turn :=
    (liftS (send_command E (InputStep.command st)) ;;
     if positive (InputStep.delay_seconds st)
     then liftS (liftW (time_sleep E (InputStep.delay_seconds st)))
     else ret tt) in
  let s1 := after_datagram s (InputStep.command st) in
  match sendto_raises E (wld s) (_host (ctl s)) (_port (ctl s)) (InputStep.command st) with
  | Some e => turn (l, s) = (Raise e, (l, s))
  | None =>
      turn (l, s)
      = (Ok tt, (l, mkSys (ctl s) (set_now (now (wld s) + pause st) (wld s1))))
      \/ exists e,
           positive (InputStep.delay_seconds st) = true
           /\ time_sleep E (InputStep.delay_seconds st) (wld s1) = (Raise e, wld s1)
           /\ turn (l, s) = (Raise e, (l, s1))
  end.
Proof.
  cbn zeta. rewrite input_turn_eq. cbn zeta.
  unfold after_datagram. cbn [wld ctl].
  destruct (sendto_raises E (wld s) _ _ _); [reflexivity|].
  destruct (positive (InputStep.delay_seconds st)) eqn:Hd.
  - destruct (time_sleep_outcome (InputStep.delay_seconds st)
                (add_sent (_host (ctl s), _port (ctl s), InputStep.command st) (wld s)))
      as [[e He] | (ms & Hms & Hr & _ & He)]; rewrite He; cbn [fst snd].
    + right. by exists e.
    + left. rewrite Hms in Hd. cbn [positive] in Hd.
      rewrite (pause_positive st ms Hms) by lia. reflexivity.
  - left. unfold ret. rewrite (pause_not_positive st Hd), Z.add_0_r.
    by rewrite <- (now_add_sent (_host (ctl s), _port (ctl s), InputStep.command st) (wld s)),
         set_now_same.
Qed.

Lemma typed_0 s st : typed s st 0 = s.
Proof.
  unfold typed, datagrams. cbn. rewrite with_sent_nil, Z.add_0_r, set_now_same.
  apply sys_eta.
Qed.

Lemma typed_S s st k :
  typed (mkSys (ctl s)
           (set_now (now (wld s) + pause st)
              (add_sent (_host (ctl s), _port (ctl s), InputStep.command st) (wld s)))) st k
  = typed s st (S k).
Proof.
  unfold typed, datagrams. cbn [ctl wld]. f_equal.
  destruct (wld s) as [n en se sp ex si op cl fi]. unfold set_now, with_sent, add_sent. cbn.
  f_equal; [lia | by rewrite <- app_assoc].
Qed.

(** The loop of an [input] step stops at the first datagram refused or
    the first pause that raises. *)
Lemma input_loop_spec (st : InputStep.t) (l : Locals) :
  forall (n : nat) (s : Sys),
  exists (k : nat) r s',
    for_range n
      (liftS (send_command E (InputStep.command st)) ;;
       if positive (InputStep.delay_seconds st)
       then liftS (liftW (time_sleep E (InputStep.delay_seconds st)))
       else ret tt) (l, s)
    = (r, (l, s'))
    /\ (k <= n)%nat
    /\ (r = Ok tt -> k = n /\ s' = typed s st n)
    /\ (forall e, r = Raise e ->
          (k < n)%nat
          /\ ((sendto_raises E (wld (typed s st k)) (_host (ctl s)) (_port (ctl s))
                 (InputStep.command st) = Some e
               /\ s' = typed s st k)
              \/ (sendto_raises E (wld (typed s st k)) (_host (ctl s)) (_port (ctl s))
                    (InputStep.command st) = None
                  /\ positive (InputStep.delay_seconds st) = true
                  /\ time_sleep E (InputStep.delay_seconds st)
                       (wld (after_datagram (typed s st k) (InputStep.command st)))
                     = (Raise e, wld (after_datagram (typed s st k) (InputStep.command st)))
                  /\ s' = after_datagram (typed s st k) (InputStep.command st))))
    /\ (sends_succeed E (ctl s) -> pauses_return E st -> r = Ok tt).
Proof.
  induction n as [|n IH]; intros s.
  - exists 0%nat, (Ok tt), s. cbn. split; [reflexivity|]. split; [lia|].
    split; [by rewrite typed_0|]. split; [discriminate | done].
  - cbn [for_range]. unfold bind at 1.
    pose proof (input_turn_cases st l s) as Hturn. cbn zeta in Hturn.
    destruct (sendto_raises E (wld s) _ _ _) as [e|] eqn:Hsend.
    + rewrite Hturn. exists 0%nat, (Raise e), s. rewrite typed_0.
      split; [reflexivity|]. split; [lia|]. split; [discriminate|]. split.
      * intros e' He'. injection He' as <-. split; [lia|]. by left.
      * intros Hok. by rewrite Hok in Hsend.
    + destruct Hturn as [Hturn | (e & Hpos & Hsleep & Hturn)]; rewrite Hturn.
      * destruct (IH (mkSys (ctl s)
                        (set_now (now (wld s) + pause st)
                           (wld (after_datagram s (InputStep.command st))))))
          as (k & r & s' & Heq & Hk & Hr & Hraise & Hok).
        unfold after_datagram in Heq, Hr, Hraise. cbn [wld ctl] in Heq, Hr, Hraise, Hok.
        rewrite !typed_S in Hr, Hraise.
        exists (S k), r, s'. split; [exact Heq|]. split; [lia|]. split.
        -- intros Hrr. destruct (Hr Hrr) as [-> ->]. by split.
        -- split; [|exact Hok]. intros e He. destruct (Hraise e He) as [Hlt Hcase].
           split; [lia | exact Hcase].
      * exists 0%nat, (Raise e), (after_datagram s (InputStep.command st)). rewrite typed_0.
        split; [reflexivity|]. split; [lia|]. split; [discriminate|]. split.
        -- intros e' He'. injection He' as <-. split; [lia|]. right. by repeat split.
        -- intros _ Hpauses. exfalso. unfold pauses_return in Hpauses.
           destruct Hpauses as [Hno | (ms & Hms & Hle & Hsys)]; [congruence|].
           rewrite Hms in Hpos, Hsleep. cbn [positive] in Hpos.
           rewrite time_sleep_finite, Hsys in Hsleep by lia. discriminate.
Qed.

End Steps.



(** X10.  An [input] step sends its command once per repetition and,
    when the delay is positive, sleeps after each one.  It passes only
    with every repetition sent and every pause taken.  It fails at the
    first datagram the network refuses, with that error and the earlier
    datagrams sent, or at the first pause that raises, with the error of
    the sleep and the datagram before it sent: so a delay that is
    infinite or too large to convert fails the step after its first
    datagram.  With a repeat count that is not positive it sends nothing
    and passes; when every datagram is accepted and the pauses return it
    passes. *)
Theorem input_step_sends_each_repetition :
  forall (E : Env) (index : nat) (st : InputStep.t) (context : TestRunContext)
         (append_configs : list string) (s : Sys),
    let n := Z.to_nat (InputStep.repeat st) in
    let command := InputStep.command st in
    let delay := InputStep.delay_seconds st in
    exists (k : nat) sr s',
      _run_step E index (Input st) context append_configs s = (Ok sr, s')
      /\ (k <= n)%nat
      /\ sent (wld (typed s st k))
         = sent (wld s) ++ repeat (_host (ctl s), _port (ctl s), command) k
      /\ now (wld (typed s st k)) = now (wld s) + Z.of_nat k * pause st
      /\ (StepResult.status sr = Status.passed \/ StepResult.status sr = Status.failed)
      /\ (StepResult.status sr = Status.passed ->
            k = n /\ s' = typed s st n /\ StepResult.error sr = None)
      /\ (StepResult.status sr = Status.failed ->
            (k < n)%nat
            /\ ((exists e,
                   sendto_raises E (wld (typed s st k)) (_host (ctl s)) (_port (ctl s)) command
                   = Some e
                   /\ StepResult.error sr = Some (exc_str e)
                   /\ s' = typed s st k)
                \/ (exists e,
                      sendto_raises E (wld (typed s st k)) (_host (ctl s)) (_port (ctl s))
                        command = None
                      /\ positive delay = true
                      /\ time_sleep E delay (wld (after_datagram (typed s st k) command))
                         = (Raise e, wld (after_datagram (typed s st k) command))
                      /\ StepResult.error sr = Some (exc_str e)
                      /\ s' = after_datagram (typed s st k) command)))
      /\ (InputStep.repeat st <= 0 -> StepResult.status sr = Status.passed /\ s' = s)
      /\ (sends_succeed E (ctl s) -> pauses_return E st ->
            StepResult.status sr = Status.passed)
      /\ (0 < InputStep.repeat st ->
          sendto_raises E (wld s) (_host (ctl s)) (_port (ctl s)) command = None ->
          delay = PosInf \/ (exists ms, delay = Finite ms /\ sleep_limit < ms) ->
          StepResult.status sr = Status.failed
          /\ StepResult.error sr = Some (sleep_overflow_text E)
          /\ s' = after_datagram s command).
Proof.
  intros E index st context append_configs s n command delay.
  rewrite _run_step_eq. cbn [dispatch]. unfold bind at 1.
  destruct (input_loop_spec E st fresh_locals n s)
    as (k & r & s' & Heq & Hk & Hr & Hraise & Hok).
  fold n. rewrite Heq.
  assert (0 < InputStep.repeat st ->
          sendto_raises E (wld s) (_host (ctl s)) (_port (ctl s)) command = None ->
          delay = PosInf \/ (exists ms, delay = Finite ms /\ sleep_limit < ms) ->
          r = Raise (mkExc OverflowError (sleep_overflow_text E))
          /\ s' = after_datagram s command) as Hbig.
  { intros Hrep Hsend Hdelay.
    assert (exists n', n = S n') as [n' Hn] by (exists (Nat.pred n); subst n; lia).
    rewrite Hn in Heq. cbn [for_range] in Heq. unfold bind at 1 in Heq.
    rewrite input_turn_eq in Heq. cbn zeta in Heq. fold command delay in Heq.
    assert (positive delay = true) as Hpos.
    { destruct Hdelay as [-> | (ms & -> & Hms)]; [reflexivity|].
      cbn [positive]. unfold sleep_limit in Hms. lia. }
    assert (time_sleep E delay (wld (after_datagram s command))
            = (Raise (mkExc OverflowError (sleep_overflow_text E)),
               wld (after_datagram s command))) as Hsleep.
    { apply time_sleep_overflow. destruct Hdelay as [-> | (ms & -> & Hms)]; [by left|].
      right. right. exists ms. split; [reflexivity | lia]. }
    rewrite Hsend, Hpos, Hsleep in Heq. cbn [fst snd] in Heq. by injection Heq as <- <-. }
  assert (sent (wld (typed s st k))
          = sent (wld s) ++ repeat (_host (ctl s), _port (ctl s), command) k) as Hsent
    by reflexivity.
  assert (now (wld (typed s st k)) = now (wld s) + Z.of_nat k * pause st) as Hnow
    by reflexivity.
  destruct r as [[]|e].
  - destruct (Hr eq_refl) as [-> ->].
    eexists n, _, _. split; [reflexivity|]. cbn.
    split; [lia|]. split; [exact Hsent|]. split; [exact Hnow|]. split; [by left|].
    split; [done|]. split; [discriminate|]. split.
    + intros Hz. split; [reflexivity|].
      replace n with 0%nat by (subst n; lia). apply typed_0.
    + split; [done|]. intros H1 H2 H3. by destruct (Hbig H1 H2 H3).
  - destruct (Hraise e eq_refl) as [Hlt Hcase].
    eexists k, _, _. split; [reflexivity|]. cbn.
    split; [lia|]. split; [exact Hsent|]. split; [exact Hnow|]. split; [by right|].
    split; [discriminate|]. split.
    + intros _. split; [exact Hlt|].
      destruct Hcase as [[Hsend ->] | (Hsend & Hpos & Hsleep & ->)].
      * left. by exists e.
      * right. by exists e.
    + split; [intros Hz; subst n; lia|]. split.
      * intros H1 H2. by specialize (Hok H1 H2).
      * intros H1 H2 H3. destruct (Hbig H1 H2 H3) as [He ->]. injection He as ->.
        by repeat split.
Qed.

(** Three presses a tenth of a second apart; and three asked for with an
    infinite delay: one datagram, then the failure of the sleep. *)
Lemma input_step_sends_each_repetition_witness :
  exists sr s' sr2 s2,
    _run_step calm 0 (Input (InputStep.mk "A" 3 100)) no_validator [] (idle_at 0)
    = (Ok sr, s')
    /\ StepResult.status sr = Status.passed
    /\ sent (wld s') = repeat ("127.0.0.1", 55355, "A") 3
    /\ now (wld s') = 300
    /\ _run_step calm 0 (Input (InputStep.mk "A" 3 PosInf)) no_validator [] (idle_at 0)
       = (Ok sr2, s2)
    /\ StepResult.status sr2 = Status.failed
    /\ StepResult.error sr2 = Some "timestamp too large to convert to C _PyTime_t"
    /\ sent (wld s2) = [("127.0.0.1", 55355, "A")].
Proof.
  destruct (input_step_sends_each_repetition calm 0 (InputStep.mk "A" 3 100) no_validator []
              (idle_at 0))
    as (k & sr & s' & Hrun & _ & _ & _ & _ & Hpass & _ & _ & Hok & _).
  assert (StepResult.status sr = Status.passed) as Hst.
  { apply Hok; [intros w c; reflexivity|].
    right. exists 100. split; [reflexivity|]. split; [unfold sleep_limit; lia | done]. }
  destruct (Hpass Hst) as (_ & -> & _).
  destruct (input_step_sends_each_repetition calm 0 (InputStep.mk "A" 3 PosInf) no_validator []
              (idle_at 0))
    as (k2 & sr2 & s2 & Hrun2 & _ & _ & _ & _ & _ & _ & _ & _ & Hbig).
  destruct (Hbig ltac:(cbn; lia) eq_refl (or_introl eq_refl)) as (Hst2 & Herr2 & ->).
  eexists sr, _, sr2, _. split; [exact Hrun|]. split; [exact Hst|].
  split; [reflexivity|]. split; [reflexivity|]. split; [exact Hrun2|].
  split; [exact Hst2|]. split; [exact Herr2 | reflexivity].
Defined.

Section StateSteps.
Variable E : Env.

(** The [try] block of a [save_state] or [load_state] step: the cursor
    moves, then [command] goes out. *)
Lemma state_step_spec (command message : string) (slot : option Z) (s : Sys) :
  let c := ctl s in
  let target := match slot with Some n => n | None => _state_slot c end in
  let gap := Z.to_nat (Z.abs (_state_slot c - target)) in
  exists r l s',
    (match slot with Some n => liftS (set_state_slot E n) | None => ret tt end ;;
     liftS (send_command E command) ;;
     assign (set_message message)) (fresh_locals, s) = (r, (l, s'))
    /\ (r = Ok tt ->
          l = passed_with message
          /\ s' = mkSys (ctl (moved s target gap))
                    (add_sent (_host c, _port c, command) (wld (moved s target gap))))
    /\ (forall e, r = Raise e ->
          l = fresh_locals /\ exists k : nat, (k <= gap)%nat /\ s' = moved s target k)
    /\ (forall n, slot = Some n -> n < 0 ->
          r = Raise (mkExc ValueError "State slot must be non-negative.") /\ s' = s)
    /\ (0 <= target -> sends_succeed E c -> r = Ok tt).
Proof.
  cbn zeta.
  assert (forall s1 : Sys,
    (liftS (send_command E command) ;; assign (set_message message)) (fresh_locals, s1)
    = match sendto_raises E (wld s1) (_host (ctl s1)) (_port (ctl s1)) command with
      | Some e => (Raise e, (fresh_locals, s1))
      | None => (Ok tt, (passed_with message,
                         mkSys (ctl s1) (add_sent (_host (ctl s1), _port (ctl s1), command)
                                           (wld s1))))
      end) as Hsend.
  { intros s1. unfold bind at 1. rewrite liftS_eq, send_command_eq.
    by destruct (sendto_raises E (wld s1) _ _ _). }
  destruct slot as [n|].
  - unfold bind at 1. rewrite liftS_eq.
    destruct (Z.ltb_spec n 0) as [Hneg | Hpos].
    + unfold set_state_slot. replace (n <? 0) with true by lia. cbn.
      eexists _, _, _. split; [reflexivity|].
      split; [discriminate|]. split; [|split; [done | lia]].
      intros e0 _. split; [reflexivity|]. exists 0%nat. split; [lia | by rewrite moved_0].
    + destruct (set_state_slot_spec E n s Hpos) as (k & r & Heq & Hk & Hr & Hok & _).
      rewrite Heq. cbn [fst snd]. destruct r as [[]|e].
      * rewrite Hsend. specialize (Hr eq_refl). subst k.
        destruct (sendto_raises E (wld (moved s n _)) _ _ _) as [e|] eqn:Hs.
        -- eexists _, _, _. split; [reflexivity|].
           split; [discriminate|]. split; [|split; [intros; simplify_eq; lia|]].
           ++ intros e0 _. split; [reflexivity|]. by eexists.
           ++ intros _ Hall. cbn in Hs. by rewrite Hall in Hs.
        -- eexists _, _, _. split; [reflexivity|].
           split; [done|]. split; [discriminate|]. split; [intros; simplify_eq; lia | done].
      * eexists _, _, _. split; [reflexivity|].
        split; [discriminate|]. split; [|split; [intros; simplify_eq; lia|]].
        -- intros e0 _. split; [reflexivity|]. by eexists.
        -- intros _ Hall. by specialize (Hok Hall).
  - unfold bind at 1. unfold ret at 1. rewrite Hsend.
    rewrite Z.sub_diag. cbn [Z.abs Z.to_nat]. rewrite moved_0.
    destruct (sendto_raises E (wld s) _ _ _) as [e|] eqn:Hs.
    + eexists _, _, _. split; [reflexivity|].
      split; [discriminate|]. split; [|split; [discriminate|]].
      * intros e0 _. split; [reflexivity|]. exists 0%nat. split; [lia | by rewrite moved_0].
      * intros _ Hall. by rewrite Hall in Hs.
    + eexists _, _, _. split; [reflexivity|].
      split; [done|]. split; [discriminate|]. split; [discriminate | done].
Qed.

End StateSteps.

(** X11.  A [save_state] or [load_state] step first walks the cursor to
    the slot asked for, if one is given, and sends its own command last.
    It passes only with the cursor on the slot and its command sent
    after the whole walk; when it fails, its own command was not sent and
    the cursor stands where the walk stopped; a negative slot fails the
    step before anything is sent. *)
Theorem state_step_moves_cursor_then_sends :
  forall (E : Env) (index : nat) (step : Step) (command : string) (slot : option Z)
         (context : TestRunContext) (append_configs : list string) (s : Sys),
    (step = SaveState slot /\ command = "SAVE_STATE")
    \/ (step = LoadState slot /\ command = "LOAD_STATE") ->
    let c := ctl s in
    let target := match slot with Some n => n | None => _state_slot c end in
    let gap := Z.to_nat (Z.abs (_state_slot c - target)) in
    exists sr s',
      _run_step E index step context append_configs s = (Ok sr, s')
      /\ (StepResult.status sr = Status.passed \/ StepResult.status sr = Status.failed)
      /\ (StepResult.status sr = Status.passed ->
            s' = mkSys (ctl (moved s target gap))
                   (add_sent (_host c, _port c, command) (wld (moved s target gap)))
            /\ StepResult.error sr = None)
      /\ (StepResult.status sr = Status.failed ->
            exists k : nat, (k <= gap)%nat /\ s' = moved s target k)
      /\ (forall n, slot = Some n -> n < 0 ->
            StepResult.status sr = Status.failed
            /\ StepResult.error sr = Some "State slot must be non-negative."
            /\ s' = s)
      /\ (0 <= target -> sends_succeed E c -> StepResult.status sr = Status.passed).
Proof.
  intros E index step command slot context append_configs s Hstep. cbn zeta.
  rewrite _run_step_eq.
  assert (exists message,
            dispatch E step context append_configs
            = (match slot with Some n => liftS (set_state_slot E n) | None => ret tt end ;;
               liftS (send_command E command) ;;
               assign (set_message message))) as [message ->].
  { destruct Hstep as [[-> ->] | [-> ->]]; eexists; reflexivity. }
  destruct (state_step_spec E command message slot s)
    as (r & l & s' & -> & Hok & Hraise & Hneg & Hall).
  cbn zeta in *. destruct r as [[]|e].
  - destruct (Hok eq_refl) as [-> ->].
    eexists _, _. split; [reflexivity|]. cbn.
    split; [by left|]. split; [done|]. split; [discriminate|]. split; [|done].
    intros n Hn Hlt. by destruct (Hneg n Hn Hlt).
  - destruct (Hraise e eq_refl) as [-> Hk].
    eexists _, _. split; [reflexivity|]. cbn.
    split; [by right|]. split; [discriminate|]. split; [done|]. split.
    + intros n Hn Hlt. destruct (Hneg n Hn Hlt) as [He ->]. by injection He as ->.
    + intros Ht Hs. by specialize (Hall Ht Hs).
Qed.

Lemma state_step_moves_cursor_then_sends_witness :
  exists sr s',
    _run_step calm 0 (SaveState (Some 2)) no_validator [] (idle_at 0) = (Ok sr, s')
    /\ StepResult.status sr = Status.passed
    /\ sent (wld s') = [("127.0.0.1", 55355, "STATE_SLOT_PLUS");
                        ("127.0.0.1", 55355, "STATE_SLOT_PLUS");
                        ("127.0.0.1", 55355, "SAVE_STATE")]
    /\ _state_slot (ctl s') = 2.
Proof.
  destruct (state_step_moves_cursor_then_sends calm 0 (SaveState (Some 2)) "SAVE_STATE"
              (Some 2) no_validator [] (idle_at 0) (or_introl (conj eq_refl eq_refl)))
    as (sr & s' & Hrun & _ & Hpassed & _ & _ & Hall).
  exists sr, s'. split; [exact Hrun|].
  assert (StepResult.status sr = Status.passed) as Hst.
  { apply Hall; [cbn; lia | intros w command; reflexivity]. }
  split; [exact Hst|]. destruct (Hpassed Hst) as [-> _]. split; reflexivity.
Defined.

(** X12.  A [launch] step launches with the step's own paths where they
    are given and not empty and the definition's otherwise, and with the
    run's append-config list, not the step's.  When the launch raises
    the step fails with that error and does not sleep.  When the launch
    returns, the child is held by the controller and the step sleeps for
    the start-up wait; it passes exactly when that sleep returns.  A
    wait that is not a number, is infinite or too large to convert, is
    negative, or is refused by the system fails the step with the error
    of the sleep, although the child is spawned. *)
Theorem launch_step_outcomes :
  forall (E : Env) (index : nat) (st : LaunchStep.t) (context : TestRunContext)
         (append_configs : list string) (s : Sys),
    let d := definition context in
    let launched :=
      launch E
        (py_or (LaunchStep.core_path st) (TestDefinition.core_path d))
        (py_or (LaunchStep.content_path st) (TestDefinition.content_path d))
        (py_or (LaunchStep.config_path st) (TestDefinition.config_path d))
        append_configs
        (py_or (LaunchStep.retroarch_path st) (TestDefinition.retroarch_path d))
        (LaunchStep.menu st) (LaunchStep.verbose st) (LaunchStep.extra_args st) s in
    let wait := LaunchStep.startup_wait_seconds st in
    exists sr s',
      _run_step E index (Launch st) context append_configs s = (Ok sr, s')
      /\ match launched with
         | (Raise e, s1) =>
             s' = s1 /\ sr = report index (Launch st) s s1 (failed_with (exc_str e))
         | (Ok pid, s1) =>
             let failed_by (text : string) :=
               s' = s1 /\ sr = report index (Launch st) s s1 (failed_with text) in
             _process (ctl s1) = Some pid
             /\ (wait = NaN -> failed_by "Invalid value NaN (not a number)")
             /\ (wait = PosInf \/ wait = NegInf
                 \/ (exists ms, wait = Finite ms /\ sleep_limit < Z.abs ms) ->
                   failed_by (sleep_overflow_text E))
             /\ (forall ms, wait = Finite ms -> - sleep_limit <= ms < 0 ->
                   failed_by "sleep length must be non-negative")
             /\ (forall ms e, wait = Finite ms -> 0 <= ms <= sleep_limit ->
                   sleep_raises E (wld s1) ms = Some e -> failed_by (exc_str e))
             /\ (forall ms, wait = Finite ms -> 0 <= ms <= sleep_limit ->
                   sleep_raises E (wld s1) ms = None ->
                   s' = mkSys (ctl s1) (set_now (now (wld s1) + ms) (wld s1))
                   /\ sr = report index (Launch st) s s' (passed_with "RetroArch launched"))
         end.
Proof.
  intros E index st context append_configs s. cbn zeta.
  rewrite _run_step_eq. cbn [dispatch]. unfold bind at 1. rewrite liftS_eq.
  destruct (launch E _ _ _ _ _ _ _ _ s) as [[pid|e] s1] eqn:Hl; cbn [fst snd];
    [|by eexists _, _].
  unfold bind at 1. rewrite liftS_eq. unfold liftW.
  pose proof (time_sleep_overflow E (LaunchStep.startup_wait_seconds st) (wld s1)) as Hover.
  pose proof (fun ms => time_sleep_negative E ms (wld s1)) as Hneg.
  pose proof (fun ms => time_sleep_finite E ms (wld s1)) as Hfin.
  destruct (time_sleep_outcome E (LaunchStep.startup_wait_seconds st) (wld s1))
    as [[e He] | (ms & Hms & Hr & Hsys & He)]; rewrite He; cbn [fst snd].
  - rewrite sys_eta. eexists _, _. split; [reflexivity|].
    split; [by eapply launch_retains_handle|].
    split; [intros Hw; rewrite Hw in He; unfold time_sleep in He; by injection He as <-|].
    split; [intros H; rewrite (Hover H) in He; by injection He as <-|].
    split; [intros ms Hw H; rewrite Hw, (Hneg ms H) in He; by injection He as <-|].
    split.
    + intros ms e' Hw H Hsys. rewrite Hw, (Hfin ms H), Hsys in He. by injection He as <-.
    + intros ms Hw H Hsys. rewrite Hw, (Hfin ms H), Hsys in He. discriminate.
  - rewrite Hms in *. eexists _, _. split; [reflexivity|].
    split; [by eapply launch_retains_handle|].
    split; [discriminate|].
    split; [intros H; rewrite (Hover H) in He; discriminate|].
    split; [intros ms' Hms' H; injection Hms' as <-; lia|].
    split.
    + intros ms' e' Hms' H Hsys'. injection Hms' as <-. congruence.
    + intros ms' Hms' H Hsys'. injection Hms' as <-. by split.
Qed.

(** With two seconds of start-up wait the step passes two seconds
    later; with a negative wait it fails, and the child is there. *)
Lemma launch_step_outcomes_witness :
  exists sr s' sr2 s2,
    _run_step calm 0 (launch_with []) no_validator ["/out/retroarch-append.cfg"] (idle_at 0)
    = (Ok sr, s')
    /\ StepResult.status sr = Status.passed
    /\ now (wld s') = 2000
    /\ _run_step calm 0 (Launch (LaunchStep.mk None None None [] None None false [] (-1)))
         no_validator ["/out/retroarch-append.cfg"] (idle_at 0)
       = (Ok sr2, s2)
    /\ StepResult.error sr2 = Some "sleep length must be non-negative"
    /\ _process (ctl s2) = Some 0%nat
    /\ length (spawned (wld s2)) = 1%nat.
Proof.
  destruct (launch_step_outcomes calm 0
              (LaunchStep.mk None None None [] None None false [] 2000)
              no_validator ["/out/retroarch-append.cfg"] (idle_at 0))
    as (sr & s' & Hrun & Hcase).
  destruct (launch_step_outcomes calm 0
              (LaunchStep.mk None None None [] None None false [] (-1))
              no_validator ["/out/retroarch-append.cfg"] (idle_at 0))
    as (sr2 & s2 & Hrun2 & Hcase2).
  cbn zeta in Hcase, Hcase2.
  destruct (launch calm _ _ _ _ _ _ _ _ (idle_at 0)) as [[pid|e] s1] eqn:Hl;
    [|vm_compute in Hl; discriminate].
  destruct Hcase as (_ & _ & _ & _ & _ & Hok).
  destruct (Hok 2000 eq_refl ltac:(unfold sleep_limit; lia) eq_refl) as [-> ->].
  destruct Hcase2 as (Hproc & _ & _ & Hneg & _).
  destruct (Hneg (-1) eq_refl ltac:(unfold sleep_limit; lia)) as [-> ->].
  vm_compute in Hl. injection Hl as <- <-.
  eexists _, _, _, _. split; [exact Hrun|]. split; [reflexivity|]. split; [reflexivity|].
  split; [exact Hrun2|]. split; [reflexivity|]. split; reflexivity.
Defined.

(** A [screenshot_assert] step once the capture has returned, with a
    validator configured. *)
Lemma screenshot_assert_verdict_eq :
  forall (E : Env) (index : nat) (st : ScreenshotAssertStep.t)
         (context : TestRunContext) (append_configs : list string) (s s1 : Sys)
         (client : OpenRouterClient) (path : string),
    openrouter context = Some client ->
    capture E context st s = (Ok path, s1) ->
    _run_step E index (ScreenshotAssert st) context append_configs s
    = (Ok (report index (ScreenshotAssert st) s s1
             match validate_image E (wld s1) (qa_prompt st) path (ScreenshotAssertStep.model st) with
             | Ok result =>
                 mkLocals (if r_passed result then Status.passed else Status.failed)
                   None
                   (if r_passed result then None else Some (r_reason result))
                   (Some path)
                   (Some (mkEvaluation (r_passed result) (r_reason result)
                            (r_raw_content result) (r_parsed_json result)))
             | Raise e => mkLocals Status.failed None (Some (exc_str e)) (Some path) None
             end), s1).
Proof.
  intros E index st context append_configs s s1 client path Hclient Hcap.
  rewrite _run_step_eq. cbn [dispatch]. unfold bind at 1. rewrite liftS_eq, Hcap, Hclient.
  cbn [fst snd]. unfold bind at 1. cbn [assign modify fst snd].
  unfold bind at 1. rewrite liftS_eq. unfold liftW. cbn [fst snd wld ctl]. fold (qa_prompt st).
  destruct (validate_image E (wld s1) (qa_prompt st) path (ScreenshotAssertStep.model st))
    as [result|e]; cbn; rewrite sys_eta; [|reflexivity].
  destruct (r_passed result); reflexivity.
Qed.

(** X13.  A [screenshot_assert] step with a validator: once the capture
    has returned a path, the step passes exactly when the validator's
    verdict is a pass; the verdict is recorded with the path either way,
    a failing verdict's reason is the error text, and when the validator
    raises the step fails with that error, keeps the path and records no
    evaluation.  The world is the one the capture left. *)
Theorem screenshot_assert_follows_the_verdict :
  forall (E : Env) (index : nat) (st : ScreenshotAssertStep.t)
         (context : TestRunContext) (append_configs : list string) (s s1 : Sys)
         (client : OpenRouterClient) (path : string),
    openrouter context = Some client ->
    capture E context st s = (Ok path, s1) ->
    _run_step E index (ScreenshotAssert st) context append_configs s
    = (Ok (report index (ScreenshotAssert st) s s1
             match validate_image E (wld s1) (qa_prompt st) path (ScreenshotAssertStep.model st) with
             | Ok result =>
                 mkLocals (if r_passed result then Status.passed else Status.failed)
                   None
                   (if r_passed result then None else Some (r_reason result))
                   (Some path)
                   (Some (mkEvaluation (r_passed result) (r_reason result)
                            (r_raw_content result) (r_parsed_json result)))
             | Raise e => mkLocals Status.failed None (Some (exc_str e)) (Some path) None
             end), s1).
Proof. intros. by eapply screenshot_assert_verdict_eq. Qed.

(** ** What a run leaves behind *)

#[global] Instance undisturbed_refl : Reflexive undisturbed.
Proof. intros w. by repeat split. Qed.

#[global] Instance undisturbed_trans : Transitive undisturbed.
Proof.
  intros x y z (H1 & H2 & H3 & H4) (H1' & H2' & H3' & H4').
  repeat split; [congruence | congruence | congruence | auto].
Qed.

#[global] Instance run_frame_refl base : Reflexive (run_frame base).
Proof. intros s. by repeat split. Qed.

#[global] Instance run_frame_trans base : Transitive (run_frame base).
Proof.
  intros x y z (H1 & H2 & H3 & H4) (H1' & H2' & H3' & H4').
  repeat split; [congruence | congruence | auto | auto].
Qed.

Section RunFrame.
Variable E : Env.
Variable base : nat.

Local Ltac still f :=
  intros w; unfold f; repeat case_match; repeat split; auto;
  intros; cbn; apply elem_of_cons; by right.

Lemma time_time_undisturbed : Respects undisturbed time_time.
Proof. still time_time. Qed.
Lemma time_sleep_undisturbed d : Respects undisturbed (time_sleep E d).
Proof. still time_sleep. Qed.
Lemma ensure_dir_undisturbed p : Respects undisturbed (ensure_dir E p).
Proof. still ensure_dir. Qed.
Lemma open_w_undisturbed p : Respects undisturbed (open_w E p).
Proof. still open_w. Qed.
Lemma close_undisturbed h : Respects undisturbed (close E h).
Proof. still close. Qed.
Lemma poll_undisturbed p : Respects undisturbed (poll E p).
Proof. still poll. Qed.
Lemma wait_undisturbed p t : Respects undisturbed (wait E p t).
Proof. still wait. Qed.
Lemma terminate_undisturbed p : Respects undisturbed (terminate p).
Proof. still terminate. Qed.
Lemma kill_undisturbed p : Respects undisturbed (kill p).
Proof. still kill. Qed.
Lemma sendto_undisturbed h p c : Respects undisturbed (sendto E h p c).
Proof. still sendto. Qed.
Lemma glob_undisturbed d : Respects undisturbed (glob_star_dot_star E d).
Proof. still glob_star_dot_star. Qed.
Lemma resolve_undisturbed o : Respects undisturbed (resolve_retroarch_path E o).
Proof. still resolve_retroarch_path. Qed.
Lemma observe_undisturbed {A} (f : World -> A) : Respects undisturbed (fun w => (Ok (f w), w)).
Proof. intros w. reflexivity. Qed.
Lemma oracle_undisturbed {A} (f : World -> Res A) : Respects undisturbed (fun w => (f w, w)).
Proof. intros w. reflexivity. Qed.

Lemma poll_screenshots_undisturbed fuel dir before start_time deadline :
  Respects undisturbed (poll_screenshots E fuel dir before start_time deadline).
Proof.
  induction fuel as [|fuel IH]; intros w; cbn [poll_screenshots]; [reflexivity|].
  case_match; [|reflexivity]. unfold glob_star_dot_star.
  destruct (first_capture _ _ _) as [[e|]|x]; [reflexivity | | reflexivity].
  rewrite time_sleep_nap. destruct (sleep_raises E w 250); [reflexivity|].
  etransitivity; [|apply (IH (set_now (now w + 250) w))]. by repeat split.
Qed.

Lemma screencapture_loop_undisturbed fuel command target deadline last_error :
  Respects undisturbed (screencapture_loop E fuel command target deadline last_error).
Proof.
  revert last_error. induction fuel as [|fuel IH]; intros last_error w;
    cbn [screencapture_loop]; [reflexivity|].
  destruct (now w <? deadline); [|reflexivity].
  destruct (run_raises E w _) as [exc|]; [|reflexivity].
  destruct (class_eqb _ _); [|reflexivity].
  rewrite time_sleep_nap. destruct (sleep_raises E w 250); [reflexivity|].
  etransitivity; [|apply (IH _ (set_now (now w + 250) w))]. by repeat split.
Qed.

(** An operation on the world that spawns nothing keeps the frame. *)
Lemma liftW_run_frame {A} (c : M World A) :
  Respects undisturbed c -> Respects (run_frame base) (liftW c).
Proof.
  intros Hc s. specialize (Hc (wld s)). unfold liftW.
  destruct (c (wld s)) as [r w']. cbn in *. destruct Hc as (Hsp & Hf & Hen & Hex).
  repeat split; auto. intros HJ pid Hpid. cbn in *. rewrite Hsp in Hpid.
  destruct (HJ pid Hpid) as [Hin | Hp]; [left; by apply Hex | by right].
Qed.

Lemma set_log_handle_run_frame h : Respects (run_frame base) (set_log_handle h).
Proof. intros s. by repeat split. Qed.

Lemma set_slot_run_frame n : Respects (run_frame base) (set_slot n).
Proof. intros s. by repeat split. Qed.

Lemma self_run_frame : Respects (run_frame base) self.
Proof. intros s. reflexivity. Qed.

Hint Resolve time_time_undisturbed time_sleep_undisturbed ensure_dir_undisturbed
  open_w_undisturbed close_undisturbed poll_undisturbed wait_undisturbed
  terminate_undisturbed kill_undisturbed sendto_undisturbed glob_undisturbed
  resolve_undisturbed observe_undisturbed oracle_undisturbed
  poll_screenshots_undisturbed screencapture_loop_undisturbed
  liftW_run_frame set_log_handle_run_frame set_slot_run_frame self_run_frame : respects.

Lemma send_command_run_frame c : Respects (run_frame base) (send_command E c).
Proof. unfold send_command. respects. Qed.

Lemma set_state_slot_run_frame n : Respects (run_frame base) (set_state_slot E n).
Proof. unfold set_state_slot. pose proof send_command_run_frame. respects. Qed.

Lemma capture_screenshot_run_frame t : Respects (run_frame base) (capture_screenshot E t).
Proof. unfold capture_screenshot. pose proof send_command_run_frame. respects. Qed.

Lemma shutdown_run_frame t : Respects (run_frame base) (shutdown E t).
Proof. unfold shutdown. pose proof send_command_run_frame. respects. Qed.

Lemma capture_system_run_frame a t :
  Respects (run_frame base) (_capture_system_screenshot E a t).
Proof. unfold _capture_system_screenshot. respects. Qed.

End RunFrame.

Section RunFrameSteps.
Variable E : Env.
Variable base : nat.

Lemma launch_run_frame core_path content_path config_path append_config_paths retroarch_path
    menu verbose extra_args :
  Respects (run_frame base)
    (launch E core_path content_path config_path append_config_paths retroarch_path
       menu verbose extra_args).
Proof.
  intros s. rewrite launch_eq. cbn zeta.
  assert (exists r1 w1,
            match _process (ctl s) with Some p => poll E p (wld s) | None => (Ok true, wld s) end
            = (r1, w1)
            /\ undisturbed (wld s) w1
            /\ (r1 = Ok true -> forall p, _process (ctl s) = Some p -> p ∈ exited w1))
    as (r1 & w1 & -> & (Hsp & Hf & Hen & Hex) & Hdead).
  { destruct (_process (ctl s)) as [p|].
    - pose proof (poll_undisturbed E p (wld s)) as Hu.
      destruct (poll E p (wld s)) as [r1 w1] eqn:Hp. exists r1, w1.
      split; [reflexivity|]. split; [exact Hu|].
      intros -> p' Hp'. injection Hp' as <-. by eapply poll_Ok_true.
    - exists (Ok true), (wld s). split; [reflexivity|]. split; [reflexivity | discriminate]. }
  assert (forall c w, _process c = _process (ctl s) -> spawned w = spawned w1 ->
            files w = files w1 -> environ w = environ w1 -> exited w = exited w1 ->
            run_frame base s (mkSys c w)) as Hkeep.
  { intros c w Hc Hs1 Hf1 Hen1 Hex1. repeat split; cbn; try congruence.
    - intros p Hp. rewrite Hex1. by apply Hex.
    - intros HJ pid Hpid. cbn in *. rewrite Hs1, Hsp in Hpid. rewrite Hex1, Hc.
      destruct (HJ pid Hpid) as [Hin | Hp]; [left; by apply Hex | by right]. }
  destruct r1 as [[|]|e]; try (by apply Hkeep).
  destruct (resolve_retroarch_path E retroarch_path w1).1; [|by apply Hkeep].
  destruct (open_raises E _ _); [by apply Hkeep|].
  destruct (popen_raises E _ _); [by apply Hkeep|].
  cbn [snd]. repeat split; cbn; try congruence.
  - intros p Hp. by apply Hex.
  - intros HJ pid Hpid. cbn in *. rewrite length_app in Hpid. cbn in Hpid.
    destruct (decide (pid = length (spawned w1))) as [-> | Hne]; [by right|].
    left. rewrite Hsp in Hpid, Hne.
    destruct (HJ pid ltac:(lia)) as [Hin | Hp]; [by apply Hex | by apply Hdead].
Qed.

Variable context : TestRunContext.
Variable append_configs : list string.

Hint Resolve send_command_run_frame set_state_slot_run_frame capture_screenshot_run_frame
  shutdown_run_frame capture_system_run_frame launch_run_frame liftW_run_frame
  time_sleep_undisturbed oracle_undisturbed : respects.

Lemma dispatch_run_frame step :
  Respects (onS (run_frame base)) (dispatch E step context append_configs).
Proof. destruct step; cbn [dispatch]; unfold capture; respects. Qed.

Lemma _run_step_run_frame index step :
  Respects (run_frame base) (_run_step E index step context append_configs).
Proof.
  intros s. unfold _run_step.
  assert (Respects (onS (run_frame base))
            (try_except (dispatch E step context append_configs)
               (fun exc => assign (set_status Status.failed) ;; assign (set_error (exc_str exc)))))
    as H by (pose proof (dispatch_run_frame step); respects).
  specialize (H (mkLocals Status.passed None None None None, s)).
  destruct (try_except _ _ _) as [r [l s']]. exact H.
Qed.

Lemma run_steps_run_frame steps :
  forall index step_results passed,
    Respects (run_frame base)
      (run_steps E context append_configs index steps step_results passed).
Proof.
  induction steps as [|step rest IH]; intros index step_results passed; cbn [run_steps].
  - respects.
  - pose proof (_run_step_run_frame index step). respects.
Qed.

End RunFrameSteps.

Section RunAnatomy.
Variable E : Env.

Lemma _build_artifacts_world d w : (_build_artifacts E d w).2 = w.
Proof.
  unfold _build_artifacts, bind, time_time, ensure_dir, ret.
  repeat case_match; by simplify_eq.
Qed.

Lemma _write_append_config_eq a d w :
  _write_append_config E a d w
  = match write_raises E w (append_config_path a) with
    | Some e => (Raise e, w)
    | None => (Ok tt, add_file (append_config_path a,
                         Text (append_config_text (screenshots_dir a) (states_dir a)
                                 (existsb wants_system_capture (TestDefinition.steps d)))) w)
    end.
Proof.
  unfold _write_append_config, write_file, append_config_text.
  destruct (write_raises E w (append_config_path a)); [reflexivity|].
  by destruct (existsb wants_system_capture (TestDefinition.steps d)).
Qed.

Lemma _resolve_openrouter_world env_path w :
  let w' := (_resolve_openrouter E env_path w).2 in
  w' = set_environ (environ w') w.
Proof.
  cbn zeta. unfold _resolve_openrouter, bind, load_env_file, get, ret.
  destruct w. repeat case_match; by simplify_eq.
Qed.

(** [run], outcome by outcome. *)
Lemma run_eq env_path d w :
  run E env_path d w
  = match _build_artifacts E d w with
    | (Raise e, w1) => (Raise e, w1)
    | (Ok a, w1) =>
        match _write_append_config E a d w1 with
        | (Raise e, w2) => (Raise e, w2)
        | (Ok _, w2) =>
            match _resolve_openrouter E env_path w2 with
            | (Raise e, w3) => (Raise e, w3)
            | (Ok o, w3) =>
                match run_steps E (run_context d a o) (run_append_configs d a) 0%nat
                        (TestDefinition.steps d) [] true (mkSys (run_controller d a) w3) with
                | (looped, s1) =>
                    match shutdown E default_shutdown_timeout s1 with
                    | (Raise e, s2) => (Raise e, wld s2)
                    | (Ok _, s2) =>
                        match looped with
                        | Raise e => (Raise e, wld s2)
                        | Ok (step_results, passed) =>
                            let r := run_report d a (now w3) (now (wld s2)) step_results passed in
                            match write_raises E (wld s2)
                                    (path_join (output_dir a) "results.json") with
                            | Some e => (Raise e, wld s2)
                            | None => (Ok r, add_file (path_join (output_dir a) "results.json",
                                                       Report r) (wld s2))
                            end
                        end
                    end
                end
            end
        end
    end.
Proof.
  unfold run. unfold bind at 1.
  destruct (_build_artifacts E d w) as [[a|e] w1]; [|reflexivity].
  unfold bind at 1. destruct (_write_append_config E a d w1) as [[[]|e] w2]; [|reflexivity].
  unfold bind at 1. destruct (_resolve_openrouter E env_path w2) as [[o|e] w3]; [|reflexivity].
  unfold bind at 1. cbn [time_time]. unfold bind at 1. cbn [time_time].
  unfold try_finally, run_context, run_append_configs, run_controller.
  destruct (run_steps E _ _ _ _ _ _ _) as [looped s1].
  destruct (shutdown E default_shutdown_timeout s1) as [[[]|e] s2]; [|by destruct looped].
  destruct looped as [[step_results passed]|e]; [|reflexivity].
  unfold bind, time_time, write_file, ret, run_report. cbn zeta.
  by destruct (write_raises E (wld s2) _).
Qed.

(** What a run that returns went through. *)
Lemma run_Ok_anatomy env_path d w r w' :
  run E env_path d w = (Ok r, w') ->
  exists a o w3 s1 s2,
    _build_artifacts E d w = (Ok a, w)
    /\ files w3 = files w
                  ++ [(append_config_path a,
                       Text (append_config_text (screenshots_dir a) (states_dir a)
                               (existsb wants_system_capture (TestDefinition.steps d))))]
    /\ spawned w3 = spawned w /\ exited w3 = exited w /\ sent w3 = sent w
    /\ run_steps E (run_context d a o) (run_append_configs d a) 0%nat
         (TestDefinition.steps d) [] true (mkSys (run_controller d a) w3)
       = (Ok (TestRunResult.steps r, TestRunResult.passed r), s1)
    /\ shutdown E default_shutdown_timeout s1 = (Ok tt, s2)
    /\ r = run_report d a (now w3) (now (wld s2)) (TestRunResult.steps r) (TestRunResult.passed r)
    /\ w' = add_file (path_join (output_dir a) "results.json", Report r) (wld s2).
Proof.
  rewrite run_eq. intros H.
  pose proof (_build_artifacts_world d w) as Hw1.
  destruct (_build_artifacts E d w) as [[a|e] w1]; [|discriminate]. cbn in Hw1. subst w1.
  rewrite _write_append_config_eq in H.
  destruct (write_raises E w (append_config_path a)); [discriminate|].
  pose proof (_resolve_openrouter_world env_path
                (add_file (append_config_path a,
                           Text (append_config_text (screenshots_dir a) (states_dir a)
                                   (existsb wants_system_capture (TestDefinition.steps d)))) w))
    as Hw3. cbn zeta in Hw3.
  destruct (_resolve_openrouter E env_path _) as [[o|e] w3]; [|discriminate]. cbn [snd] in Hw3.
  destruct (run_steps E _ _ _ _ _ _ _) as [looped s1] eqn:Hloop.
  destruct (shutdown E default_shutdown_timeout s1) as [[[]|e] s2] eqn:Hshut; [|discriminate].
  destruct looped as [[step_results passed]|e]; [|discriminate].
  cbn zeta in H. destruct (write_raises E (wld s2) _); [discriminate|].
  injection H as <- <-. exists a, o, w3, s1, s2. cbn [TestRunResult.steps TestRunResult.passed].
  repeat split; try done; by rewrite Hw3.
Qed.

End RunAnatomy.

(** X15.  A run that returns has written exactly two files, in this
    order: the generated append-config, under the run's output
    directory, with the network-command switch, the screenshot and
    save-state directories of the report and the full-screen line
    exactly when some step captures from the system; and last
    [results.json], whose content is the result returned. *)
Theorem run_writes_config_then_report :
  forall (E : Env) (env_path : option string) (d : TestDefinition.t)
         (w w' : World) (r : TestRunResult.t),
    run E env_path d w = (Ok r, w') ->
    files w'
    = files w
      ++ [(path_join (TestRunResult.output_directory r) "retroarch-append.cfg",
           Text (append_config_text (TestRunResult.screenshots_directory r)
                   (TestRunResult.states_directory r)
                   (existsb wants_system_capture (TestDefinition.steps d))));
          (path_join (TestRunResult.output_directory r) "results.json", Report r)].
Proof.
  intros E env_path d w w' r H.
  destruct (run_Ok_anatomy E env_path d w r w' H)
    as (a & o & w3 & s1 & s2 & Hb & Hfiles & _ & _ & _ & Hloop & Hshut & Hr & ->).
  pose proof (run_steps_run_frame E 0 (run_context d a o) (run_append_configs d a)
                (TestDefinition.steps d) 0%nat [] true (mkSys (run_controller d a) w3)) as H1.
  rewrite Hloop in H1. destruct H1 as (Hf1 & _).
  pose proof (shutdown_run_frame E 0 default_shutdown_timeout s1) as H2.
  rewrite Hshut in H2. destruct H2 as (Hf2 & _). cbn [snd wld] in *.
  rewrite (_build_artifacts_append_config_path E d w a w Hb) in Hfiles.
  assert (TestRunResult.output_directory r = output_dir a
          /\ TestRunResult.screenshots_directory r = screenshots_dir a
          /\ TestRunResult.states_directory r = states_dir a) as (-> & -> & ->)
    by (rewrite Hr; by repeat split).
  cbn [files add_file]. by rewrite Hf2, Hf1, Hfiles, <- app_assoc.
Qed.

Lemma run_writes_config_then_report_witness :
  exists r w',
    run calm None (definition_with false [] [Wait 100]) genesis = (Ok r, w')
    /\ map fst (files w')
       = ["/work/retroarch-test-runs/retroarch-test-20260101-000000/retroarch-append.cfg";
          "/work/retroarch-test-runs/retroarch-test-20260101-000000/results.json"]
    /\ last (files w')
       = Some ("/work/retroarch-test-runs/retroarch-test-20260101-000000/results.json", Report r).
Proof.
  destruct (run calm None (definition_with false [] [Wait 100]) genesis) as [[r|e] w'] eqn:H;
    [|vm_compute in H; discriminate].
  exists r, w'. split; [reflexivity|].
  rewrite (run_writes_config_then_report _ _ _ _ _ _ H).
  vm_compute in H. injection H as <- _. split; reflexivity.
Defined.

(** X16.  A run that returns leaves no child behind: every process it
    spawned has been seen exited by the time it returns, the last one by
    the final [shutdown]. *)
Theorem run_leaves_no_child_behind :
  forall (E : Env) (env_path : option string) (d : TestDefinition.t)
         (w w' : World) (r : TestRunResult.t),
    run E env_path d w = (Ok r, w') ->
    forall pid, (length (spawned w) <= pid < length (spawned w'))%nat -> pid ∈ exited w'.
Proof.
  intros E env_path d w w' r H pid Hpid.
  destruct (run_Ok_anatomy E env_path d w r w' H)
    as (a & o & w3 & s1 & s2 & _ & _ & Hsp & _ & _ & Hloop & Hshut & _ & ->).
  set (base := length (spawned w)) in *.
  pose proof (run_steps_run_frame E base (run_context d a o) (run_append_configs d a)
                (TestDefinition.steps d) 0%nat [] true (mkSys (run_controller d a) w3)) as H1.
  rewrite Hloop in H1. destruct H1 as (_ & _ & _ & HJ1). cbn [snd] in HJ1.
  pose proof (shutdown_run_frame E base default_shutdown_timeout s1) as H2.
  rewrite Hshut in H2. destruct H2 as (_ & _ & _ & HJ2). cbn [snd] in HJ2.
  assert (reaped base s2) as HJ.
  { apply HJ2, HJ1. intros q Hq. cbn in Hq. rewrite Hsp in Hq. subst base. lia. }
  cbn [spawned exited add_file] in *.
  destruct (HJ pid Hpid) as [Hin | Hp]; [exact Hin|].
  destruct (_process (ctl s1)) as [p|] eqn:Hp1.
  - destruct (shutdown_leaves_child_gone E _ _ _ p Hp1 Hshut) as [Hp2 Hgone]. congruence.
  - rewrite (shutdown_never_launched E _ _ Hp1) in Hshut. injection Hshut as <-. congruence.
Qed.

Lemma run_leaves_no_child_behind_witness :
  exists r w',
    run calm None (definition_with false [] [launch_with []; Wait 100]) genesis = (Ok r, w')
    /\ length (spawned w') = 1%nat
    /\ 0%nat ∈ exited w'.
Proof.
  destruct (run calm None (definition_with false [] [launch_with []; Wait 100]) genesis)
    as [[r|e] w'] eqn:H; [|vm_compute in H; discriminate].
  exists r, w'. split; [reflexivity|].
  assert (length (spawned w') = 1%nat) as Hlen by (vm_compute in H; by injection H as _ <-).
  split; [exact Hlen|].
  apply (run_leaves_no_child_behind _ _ _ _ _ _ H). rewrite Hlen. cbn. lia.
Defined.



Lemma screenshot_assert_follows_the_verdict_witness :
  _run_step approving 0 (ScreenshotAssert screenshot_step) with_validator [] (idle_at 0)
  = (Ok (StepResult.mk 0 "screenshot_assert" Status.passed 0 0 0 None None
           (Some "/out/screenshots/game-260101-000000.png")
           (Some (mkEvaluation true "title screen visible" "pass" None))),
     mkSys (ctl (idle_at 0)) (add_sent ("127.0.0.1", 55355, "SCREENSHOT") genesis)).
Proof.
  refine (screenshot_assert_follows_the_verdict approving 0 screenshot_step with_validator []
            (idle_at 0)
            (mkSys (ctl (idle_at 0)) (add_sent ("127.0.0.1", 55355, "SCREENSHOT") genesis))
            (mkClient "sk-test") "/out/screenshots/game-260101-000000.png" eq_refl _).
  vm_compute. reflexivity.
Defined.

(** X14.  After a [shutdown] that returned, a launch is not refused as
    already running: when the executable resolves and the log file and
    the process can be created, it returns the next child, and the
    controller holds it. *)
Theorem launch_after_shutdown_is_not_refused :
  forall (E : Env) (t : Z) (s s1 : Sys) (resolved_path : string)
         core_path content_path config_path append_config_paths retroarch_path
         menu verbose extra_args,
    shutdown E t s = (Ok tt, s1) ->
    (resolve_retroarch_path E retroarch_path (wld s1)).1 = Ok resolved_path ->
    (forall w p, open_raises E w p = None) ->
    (forall w c, popen_raises E w c = None) ->
    exists s2,
      launch E core_path content_path config_path append_config_paths retroarch_path
        menu verbose extra_args s1 = (Ok (length (spawned (wld s))), s2)
      /\ _process (ctl s2) = Some (length (spawned (wld s)))
      /\ spawned (wld s2)
         = spawned (wld s)
           ++ [(build_command resolved_path core_path content_path config_path
                  append_config_paths menu verbose extra_args, length (opened (wld s1)))].
Proof.
  intros E t s s1 resolved_path core_path content_path config_path append_config_paths
    retroarch_path menu verbose extra_args Hshut Hres Hopen Hpopen.
  assert (spawned (wld s1) = spawned (wld s)) as Hsp.
  { destruct (shutdown_outcomes E t s) as (l & _ & _ & _ & Hsp & _). cbn zeta in Hsp.
    by rewrite Hshut in Hsp. }
  assert (match _process (ctl s1) with
          | Some p => poll E p (wld s1)
          | None => (Ok true, wld s1)
          end = (Ok true, wld s1)) as Hpoll.
  { destruct (_process (ctl s)) as [p|] eqn:Hp.
    - destruct (shutdown_leaves_child_gone E t s s1 p Hp Hshut) as [-> Hgone].
      unfold poll. by rewrite bool_decide_eq_true_2.
    - rewrite (shutdown_never_launched E t s Hp) in Hshut. injection Hshut as <-.
      by rewrite Hp. }
  rewrite launch_eq. cbn zeta. rewrite Hpoll, Hres, Hopen, Hpopen.
  eexists. split; [cbn; by rewrite Hsp|]. split; cbn; by rewrite ?Hsp.
Qed.

Lemma launch_after_shutdown_is_not_refused_witness :
  exists s1 s2,
    shutdown calm default_shutdown_timeout launched_once = (Ok tt, s1)
    /\ launch calm None None None [] None None false [] s1 = (Ok 1%nat, s2)
    /\ _process (ctl s2) = Some 1%nat.
Proof.
  destruct (shutdown calm default_shutdown_timeout launched_once) as [[[]|e] s1] eqn:H;
    [|vm_compute in H; discriminate].
  destruct (launch_after_shutdown_is_not_refused calm default_shutdown_timeout launched_once
              s1 "/usr/bin/retroarch" None None None [] None None false [] H)
    as (s2 & Hl & Hp & _).
  - vm_compute in H. injection H as <-. reflexivity.
  - reflexivity.
  - reflexivity.
  - exists s1, s2. split; [reflexivity|]. split; [exact Hl | exact Hp].
Defined.

(** ** The environment file and the validator's key *)






Section LoadEnvFile.
Variable E : Env.



End LoadEnvFile.



Section ResolveOpenRouter.
Variable E : Env.


End ResolveOpenRouter.


(** ** System screenshots *)

Section SystemCapture.
Variable E : Env.


End SystemCapture.

Section SystemCaptureOutcomes.
Variable E : Env.



End SystemCaptureOutcomes.





(** ** Where a run's datagrams and log output go *)

#[global] Instance silent_refl : Reflexive silent.
Proof. intros w. by split. Qed.

#[global] Instance silent_trans : Transitive silent.
Proof. intros x y z [H1 H2] [H1' H2']. split; congruence. Qed.

#[global] Instance addressed_refl : Reflexive addressed.
Proof.
  intros s. repeat split; try (exists []; split; [by rewrite app_nil_r | constructor]).
Qed.

#[global] Instance addressed_trans : Transitive addressed.
Proof.
  intros x y z (Hh & Hp & Ha & (n1 & Hs1 & Hf1) & (o1 & Ho1 & Hg1))
    (Hh' & Hp' & Ha' & (n2 & Hs2 & Hf2) & (o2 & Ho2 & Hg2)).
  rewrite Hh, Hp in Hf2. rewrite Ha in Hg2.
  split; [congruence|]. split; [congruence|]. split; [congruence|]. split.
  - exists (n1 ++ n2). split; [by rewrite Hs2, Hs1, app_assoc | by apply Forall_app].
  - exists (o1 ++ o2). split; [by rewrite Ho2, Ho1, app_assoc | by apply Forall_app].
Qed.

Section Addressed.
Variable E : Env.

Local Ltac hush f := intros w; unfold f; repeat case_match; by split.

Lemma time_time_silent : Respects silent time_time.
Proof. hush time_time. Qed.
Lemma time_sleep_silent d : Respects silent (time_sleep E d).
Proof. hush time_sleep. Qed.
Lemma ensure_dir_silent p : Respects silent (ensure_dir E p).
Proof. hush ensure_dir. Qed.
Lemma close_silent h : Respects silent (close E h).
Proof. hush close. Qed.
Lemma poll_silent p : Respects silent (poll E p).
Proof. hush poll. Qed.
Lemma wait_silent p t : Respects silent (wait E p t).
Proof. hush wait. Qed.
Lemma terminate_silent p : Respects silent (terminate p).
Proof. hush terminate. Qed.
Lemma kill_silent p : Respects silent (kill p).
Proof. hush kill. Qed.
Lemma glob_silent d : Respects silent (glob_star_dot_star E d).
Proof. hush glob_star_dot_star. Qed.
Lemma observe_silent {A} (f : World -> A) : Respects silent (fun w => (Ok (f w), w)).
Proof. intros w. reflexivity. Qed.
Lemma oracle_silent {A} (f : World -> Res A) : Respects silent (fun w => (f w, w)).
Proof. intros w. reflexivity. Qed.

Lemma poll_screenshots_silent fuel dir before start_time deadline :
  Respects silent (poll_screenshots E fuel dir before start_time deadline).
Proof.
  induction fuel as [|fuel IH]; intros w; cbn [poll_screenshots]; [reflexivity|].
  case_match; [|reflexivity]. unfold glob_star_dot_star.
  destruct (first_capture _ _ _) as [[e|]|x]; [reflexivity | | reflexivity].
  rewrite time_sleep_nap. destruct (sleep_raises E w 250); [reflexivity|].
  etransitivity; [|apply (IH (set_now (now w + 250) w))]. by split.
Qed.

Lemma screencapture_loop_silent fuel command target deadline last_error :
  Respects silent (screencapture_loop E fuel command target deadline last_error).
Proof.
  revert last_error. induction fuel as [|fuel IH]; intros last_error w;
    cbn [screencapture_loop]; [reflexivity|].
  destruct (now w <? deadline); [|reflexivity].
  destruct (run_raises E w _) as [exc|]; [|reflexivity].
  destruct (class_eqb _ _); [|reflexivity].
  rewrite time_sleep_nap. destruct (sleep_raises E w 250); [reflexivity|].
  etransitivity; [|apply (IH _ (set_now (now w + 250) w))]. by split.
Qed.

Lemma addressed_same (s s' : Sys) :
  _host (ctl s') = _host (ctl s) -> _port (ctl s') = _port (ctl s) ->
  _artifacts (ctl s') = _artifacts (ctl s) ->
  silent (wld s) (wld s') -> addressed s s'.
Proof.
  intros Hh Hp Ha [Hs Ho]. repeat split; try done.
  - exists []. split; [by rewrite app_nil_r | constructor].
  - exists []. split; [by rewrite app_nil_r | constructor].
Qed.

Lemma liftW_addressed {A} (c : M World A) :
  Respects silent c -> Respects addressed (liftW c).
Proof.
  intros Hc s. specialize (Hc (wld s)). unfold liftW.
  destruct (c (wld s)) as [r w']. by apply addressed_same.
Qed.

Lemma set_log_handle_addressed h : Respects addressed (set_log_handle h).
Proof. intros s. by apply addressed_same. Qed.

Lemma set_slot_addressed n : Respects addressed (set_slot n).
Proof. intros s. by apply addressed_same. Qed.

Lemma self_addressed : Respects addressed self.
Proof. intros s. reflexivity. Qed.

Lemma send_command_addressed c : Respects addressed (send_command E c).
Proof.
  intros s. rewrite send_command_eq.
  destruct (sendto_raises E (wld s) _ _ c); [reflexivity|].
  repeat split; cbn.
  - eexists. split; [reflexivity|]. by repeat constructor.
  - exists []. split; [by rewrite app_nil_r | constructor].
Qed.

Lemma launch_addressed core_path content_path config_path append_config_paths retroarch_path
    menu verbose extra_args :
  Respects addressed
    (launch E core_path content_path config_path append_config_paths retroarch_path
       menu verbose extra_args).
Proof.
  intros s. rewrite launch_eq. cbn zeta.
  assert (exists r1 w1,
            match _process (ctl s) with Some p => poll E p (wld s) | None => (Ok true, wld s) end
            = (r1, w1) /\ silent (wld s) w1) as (r1 & w1 & -> & [Hs Ho]).
  { destruct (_process (ctl s)) as [p|].
    - pose proof (poll_silent p (wld s)) as Hu.
      destruct (poll E p (wld s)) as [r1 w1]. by exists r1, w1.
    - by exists (Ok true), (wld s). }
  destruct r1 as [[|]|e]; try (by apply addressed_same).
  destruct (resolve_retroarch_path E retroarch_path w1).1; [|by apply addressed_same].
  destruct (open_raises E _ _); [by apply addressed_same|].
  assert (forall c w, _host c = _host (ctl s) -> _port c = _port (ctl s) ->
            _artifacts c = _artifacts (ctl s) -> sent w = sent w1 ->
            opened w = opened w1 ++ [log_path (_artifacts (ctl s))] ->
            addressed s (mkSys c w)) as Hopen.
  { intros c w Hh Hp Ha Hsw How. repeat split; cbn; try done.
    - exists []. split; [by rewrite app_nil_r, Hsw, Hs | constructor].
    - eexists. split; [by rewrite How, Ho|]. by repeat constructor. }
  destruct (popen_raises E _ _); by apply Hopen.
Qed.

Hint Resolve time_time_silent time_sleep_silent ensure_dir_silent close_silent poll_silent
  wait_silent terminate_silent kill_silent glob_silent observe_silent oracle_silent
  poll_screenshots_silent screencapture_loop_silent liftW_addressed set_log_handle_addressed
  set_slot_addressed self_addressed send_command_addressed launch_addressed : respects.

Lemma set_state_slot_addressed n : Respects addressed (set_state_slot E n).
Proof. unfold set_state_slot. respects. Qed.

Lemma capture_screenshot_addressed t : Respects addressed (capture_screenshot E t).
Proof. unfold capture_screenshot. respects. Qed.

Lemma shutdown_addressed t : Respects addressed (shutdown E t).
Proof. unfold shutdown. respects. Qed.

Lemma capture_system_addressed a t : Respects addressed (_capture_system_screenshot E a t).
Proof. unfold _capture_system_screenshot. respects. Qed.

Variable context : TestRunContext.
Variable append_configs : list string.

Hint Resolve set_state_slot_addressed capture_screenshot_addressed shutdown_addressed
  capture_system_addressed : respects.

Lemma dispatch_addressed step :
  Respects (onS addressed) (dispatch E step context append_configs).
Proof. destruct step; cbn [dispatch]; unfold capture; respects. Qed.

Lemma _run_step_addressed index step :
  Respects addressed (_run_step E index step context append_configs).
Proof.
  intros s. unfold _run_step.
  assert (Respects (onS addressed)
            (try_except (dispatch E step context append_configs)
               (fun exc => assign (set_status Status.failed) ;; assign (set_error (exc_str exc)))))
    as H by (pose proof (dispatch_addressed step); respects).
  specialize (H (mkLocals Status.passed None None None None, s)).
  destruct (try_except _ _ _) as [r [l s']]. exact H.
Qed.

Lemma run_steps_addressed steps :
  forall index step_results passed,
    Respects addressed (run_steps E context append_configs index steps step_results passed).
Proof.
  induction steps as [|step rest IH]; intros index step_results passed; cbn [run_steps].
  - respects.
  - pose proof (_run_step_addressed index step). respects.
Qed.

End Addressed.

(** X23.  Whatever its outcome, a run talks only to its own emulator:
    every datagram it sends goes to the definition's network host and
    port, and every file it opens for a child's output is the run's one
    log file. *)
Theorem run_talks_only_to_its_emulator :
  forall (E : Env) (env_path : option string) (d : TestDefinition.t)
         (w w1 : World) (a : RetroArchArtifacts),
    _build_artifacts E d w = (Ok a, w1) ->
    let w' := (run E env_path d w).2 in
    (exists new, sent w' = sent w ++ new
                 /\ Forall (fun dg => dg.1 = (TestDefinition.network_host d,
                                              TestDefinition.network_port d)) new)
    /\ (exists new, opened w' = opened w ++ new
                    /\ Forall (fun p => p = log_path a) new).
Proof.
  intros E env_path d w w1 a Hb. cbn zeta.
  assert (forall w2 : World, sent w2 = sent w -> opened w2 = opened w ->
            (exists new, sent w2 = sent w ++ new
                         /\ Forall (fun dg => dg.1 = (TestDefinition.network_host d,
                                                      TestDefinition.network_port d)) new)
            /\ (exists new, opened w2 = opened w ++ new
                            /\ Forall (fun p => p = log_path a) new)) as Hquiet.
  { intros w2 Hs Ho.
    split; exists []; (split; [by rewrite app_nil_r | constructor]). }
  rewrite run_eq.
  pose proof (_build_artifacts_world E d w) as Hw1. rewrite Hb in Hw1 |- *. cbn in Hw1. subst w1.
  rewrite _write_append_config_eq.
  destruct (write_raises E w (append_config_path a)); [by apply Hquiet|].
  pose proof (_resolve_openrouter_world E env_path
                (add_file (append_config_path a,
                           Text (append_config_text (screenshots_dir a) (states_dir a)
                                   (existsb wants_system_capture (TestDefinition.steps d)))) w))
    as Hw3. cbn zeta in Hw3.
  destruct (_resolve_openrouter E env_path _) as [[o|e3] w3]; cbn [snd] in Hw3.
  2: { apply Hquiet; by rewrite Hw3. }
  assert (sent w3 = sent w /\ opened w3 = opened w) as [Hs3 Ho3] by (by rewrite Hw3).
  pose proof (run_steps_addressed E (run_context d a o) (run_append_configs d a)
                (TestDefinition.steps d) 0%nat [] true (mkSys (run_controller d a) w3)) as H1.
  destruct (run_steps E _ _ _ _ _ _ _) as [looped s1]. cbn [snd] in H1.
  pose proof (shutdown_addressed E default_shutdown_timeout s1) as H2.
  assert (addressed (mkSys (run_controller d a) w3)
            (shutdown E default_shutdown_timeout s1).2) as H12
    by (etransitivity; [exact H1 | exact H2]).
  clear H1 H2. destruct H12 as (_ & _ & _ & (n & Hn & Hfn) & (o' & Ho' & Hfo)).
  cbn [ctl wld run_controller new_controller _host _port _artifacts] in *.
  rewrite Hs3 in Hn. rewrite Ho3 in Ho'.
  assert (forall w2 : World, sent w2 = sent (wld (shutdown E default_shutdown_timeout s1).2) ->
            opened w2 = opened (wld (shutdown E default_shutdown_timeout s1).2) ->
            (exists new, sent w2 = sent w ++ new
                         /\ Forall (fun dg => dg.1 = (TestDefinition.network_host d,
                                                      TestDefinition.network_port d)) new)
            /\ (exists new, opened w2 = opened w ++ new
                            /\ Forall (fun p => p = log_path a) new)) as Hend.
  { intros w2 Hs Ho. split; [exists n | exists o']; split; auto; congruence. }
  destruct (shutdown E default_shutdown_timeout s1) as [[[]|e4] s2]; cbn [snd] in *;
    [|by apply Hend].
  destruct looped as [[step_results passed]|e]; [|by apply Hend].
  cbn zeta. destruct (write_raises E (wld s2) _); by apply Hend.
Qed.

Lemma run_talks_only_to_its_emulator_witness :
  let d := definition_with false [] [launch_with []; Command "PAUSE_TOGGLE"] in
  sent (run calm None d genesis).2
  = [("127.0.0.1", 55355, "PAUSE_TOGGLE"); ("127.0.0.1", 55355, "QUIT")]
  /\ exists new,
       sent (run calm None d genesis).2 = sent genesis ++ new
       /\ Forall (fun dg => dg.1 = ("127.0.0.1", 55355)) new.
Proof.
  cbn zeta. split; [vm_compute; reflexivity|].
  destruct (_build_artifacts calm
              (definition_with false [] [launch_with []; Command "PAUSE_TOGGLE"]) genesis)
    as [[a|e] w1] eqn:Hb; [|vm_compute in Hb; discriminate].
  exact (proj1 (run_talks_only_to_its_emulator calm None _ _ _ _ Hb)).
Defined.

(** ** The verdict behind a screenshot assertion *)

Lemma verdict_passes (parsed : option (gmap string Json)) :
  (verdict parsed).1 = true
  <-> exists m, parsed = Some m /\ m !! "pass" = Some (JBool true).
Proof.
  unfold verdict. split.
  - destruct parsed as [m|]; [|discriminate].
    destruct (bool_decide (m = ∅)); [discriminate|].
    destruct (m !! "pass") as [[[|]| |]|] eqn:Hp; try discriminate.
    intros _. by exists m.
  - intros (m & -> & Hp). rewrite Hp.
    destruct (bool_decide (m = ∅)) eqn:He; [|reflexivity].
    apply bool_decide_eq_true_1 in He. subst m. by rewrite lookup_empty in Hp.
Qed.

(** X24.  A [screenshot_assert] step whose validator answers with the
    verdict of [validate_image] on the parsed reply passes exactly when
    the reply is a JSON object whose [pass] is the boolean true.  A reply
    with no object, or whose [pass] is missing or not a boolean (the
    string "true", say), fails the step with the missing-payload text
    whatever [reason] it carries; a boolean false fails it with the
    reply's reason, or the empty text when it gives none. *)
Theorem screenshot_assert_passes_only_on_boolean_pass :
  forall (E : Env) (index : nat) (st : ScreenshotAssertStep.t)
         (context : TestRunContext) (append_configs : list string) (s s1 : Sys)
         (client : OpenRouterClient) (path content : string)
         (parsed : option (gmap string Json)) (rendered : option string),
    openrouter context = Some client ->
    capture E context st s = (Ok path, s1) ->
    validate_image E (wld s1) (qa_prompt st) path (ScreenshotAssertStep.model st)
    = Ok (mkResult (verdict parsed).1 (verdict parsed).2 content rendered) ->
    exists sr,
      _run_step E index (ScreenshotAssert st) context append_configs s = (Ok sr, s1)
      /\ (StepResult.status sr = Status.passed
          <-> exists m, parsed = Some m /\ m !! "pass" = Some (JBool true))
      /\ ((forall m b, parsed = Some m -> m !! "pass" <> Some (JBool b)) ->
            StepResult.status sr = Status.failed
            /\ StepResult.error sr = Some missing_payload)
      /\ (forall m, parsed = Some m -> m !! "pass" = Some (JBool false) ->
            StepResult.status sr = Status.failed
            /\ StepResult.error sr
               = Some (match m !! "reason" with Some v => py_str v | None => "" end)).
Proof.
  intros E index st context append_configs s s1 client path content parsed rendered
    Hclient Hcap Hval.
  rewrite (screenshot_assert_verdict_eq E index st context append_configs s s1 client path
             Hclient Hcap), Hval.
  cbn [r_passed r_reason r_raw_content r_parsed_json].
  eexists. split; [reflexivity|]. cbn [StepResult.status StepResult.error report l_status l_error].
  split; [|split].
  - rewrite <- verdict_passes. destruct (verdict parsed).1; split; done.
  - intros Hnot. assert (verdict parsed = (false, missing_payload)) as ->.
    { unfold verdict. destruct parsed as [m|]; [|reflexivity].
      destruct (bool_decide (m = ∅)); [reflexivity|].
      destruct (m !! "pass") as [[b| |]|] eqn:Hp; try reflexivity.
      by destruct (Hnot m b eq_refl). }
    by split.
  - intros m -> Hp. unfold verdict. rewrite Hp.
    destruct (bool_decide (m = ∅)) eqn:He; [|by split].
    apply bool_decide_eq_true_1 in He. subst m. by rewrite lookup_empty in Hp.
Qed.

Lemma screenshot_assert_passes_only_on_boolean_pass_witness :
  exists sr s1,
    _run_step (replying (Some {[ "pass" := JString "true"; "reason" := JString "fine" ]})) 0
      (ScreenshotAssert screenshot_step) with_validator [] (idle_at 0) = (Ok sr, s1)
    /\ StepResult.status sr = Status.failed
    /\ StepResult.error sr = Some missing_payload.
Proof.
  set (parsed := Some ({[ "pass" := JString "true"; "reason" := JString "fine" ]}
                         : gmap string Json)).
  destruct (screenshot_assert_passes_only_on_boolean_pass (replying parsed) 0 screenshot_step
              with_validator [] (idle_at 0)
              (mkSys (ctl (idle_at 0)) (add_sent ("127.0.0.1", 55355, "SCREENSHOT") genesis))
              (mkClient "sk-test") "/out/screenshots/game-260101-000000.png" "reply"
              parsed None eq_refl)
    as (sr & Hrun & _ & Hnot & _).
  - vm_compute. reflexivity.
  - reflexivity.
  - eexists sr, _. split; [exact Hrun|]. apply Hnot.
    intros m b Hm. injection Hm as <-.
    rewrite lookup_insert_eq. discriminate.
Defined.

(** ** Lines of an env file *)

Section Strips.
Variable p : Ascii.ascii -> bool.

Lemma string_app_cons c (a b : string) : String c a +:+ b = String c (a +:+ b).
Proof. reflexivity. Qed.

Lemma string_app_nil_l (b : string) : "" +:+ b = b.
Proof. reflexivity. Qed.

Lemma string_app_nil_r (s : string) : s +:+ "" = s.
Proof.
  induction s as [|c s IH]; [reflexivity|]. by rewrite string_app_cons, IH.
Qed.

Lemma string_app_assoc (a b c : string) : (a +:+ b) +:+ c = a +:+ (b +:+ c).
Proof.
  induction a as [|x a IH]; [reflexivity|]. by rewrite !string_app_cons, IH.
Qed.

Lemma lstrip_app_all (a x : string) : all_of p a = true -> lstrip p (a +:+ x) = lstrip p x.
Proof.
  induction a as [|c a IH]; [reflexivity|]. rewrite string_app_cons. cbn.
  intros H. apply andb_true_iff in H as [-> H]. by apply IH.
Qed.

Lemma lstrip_cons_keep c r : p c = false -> lstrip p (String c r) = String c r.
Proof. intros H. cbn. by rewrite H. Qed.

Lemma rstrip_cons_nonempty c r :
  rstrip p r <> "" -> rstrip p (String c r) = String c (rstrip p r).
Proof. intros H. cbn. by destruct (rstrip p r). Qed.

Lemma rstrip_cons_keep c r : p c = false -> rstrip p (String c r) = String c (rstrip p r).
Proof. intros H. cbn. rewrite H. by destruct (rstrip p r). Qed.

Lemma rstrip_all (a : string) : all_of p a = true -> rstrip p a = "".
Proof.
  induction a as [|c a IH]; cbn; [reflexivity|].
  intros H. apply andb_true_iff in H as [-> H]. by rewrite IH.
Qed.

Lemma rstrip_app_all (a b : string) : all_of p b = true -> rstrip p (a +:+ b) = rstrip p a.
Proof.
  intros Hb. induction a as [|c a IH]; [by apply rstrip_all|].
  rewrite string_app_cons. cbn. by rewrite IH.
Qed.

Lemma rstrip_app_keep (a : string) c b :
  p c = false -> rstrip p (a +:+ String c b) = a +:+ String c (rstrip p b).
Proof.
  intros Hc. induction a as [|d a IH].
  - rewrite string_app_nil_l. by apply rstrip_cons_keep.
  - rewrite !string_app_cons. rewrite rstrip_cons_nonempty; rewrite IH; [reflexivity|].
    by destruct a.
Qed.

Lemma rstrip_idem (s : string) : rstrip p (rstrip p s) = rstrip p s.
Proof.
  induction s as [|c s IH]; cbn; [reflexivity|].
  destruct (rstrip p s) as [|d r'] eqn:Hr.
  - destruct (p c) eqn:Hc; [reflexivity|]. cbn. by rewrite Hc.
  - rewrite rstrip_cons_nonempty; rewrite IH; [reflexivity | discriminate].
Qed.

Lemma lstrip_idem (s : string) : lstrip p (lstrip p s) = lstrip p s.
Proof.
  induction s as [|c s IH]; cbn; [reflexivity|].
  destruct (p c) eqn:Hc; [exact IH|]. cbn. by rewrite Hc.
Qed.

Lemma lstrip_rstrip (s : string) : lstrip p (rstrip p s) = rstrip p (lstrip p s).
Proof.
  induction s as [|c s IH]; [reflexivity|].
  destruct (p c) eqn:Hc.
  - cbn [lstrip]. rewrite Hc, <- IH. cbn [rstrip].
    destruct (rstrip p s) as [|d r'] eqn:Hr; [by rewrite Hc|].
    cbn [lstrip]. by rewrite Hc.
  - rewrite (lstrip_cons_keep _ _ Hc), (rstrip_cons_keep _ _ Hc).
    by apply lstrip_cons_keep.
Qed.

Lemma strip_by_trimmed (s : string) : trimmed p (strip_by p s).
Proof.
  unfold trimmed, strip_by. split; [|apply rstrip_idem].
  by rewrite lstrip_rstrip, lstrip_idem.
Qed.

Lemma strip_by_rstrip (s : string) : strip_by p (rstrip p s) = strip_by p s.
Proof. unfold strip_by. by rewrite lstrip_rstrip, rstrip_idem. Qed.

Lemma strip_by_padded (a x b : string) :
  all_of p a = true -> all_of p b = true -> strip_by p (a +:+ x +:+ b) = strip_by p x.
Proof.
  intros Ha Hb. unfold strip_by. rewrite lstrip_app_all by exact Ha.
  by rewrite <- !lstrip_rstrip, rstrip_app_all.
Qed.

Lemma strip_by_trimmed_id (s : string) : trimmed p s -> strip_by p s = s.
Proof. intros [Hl Hr]. unfold strip_by. by rewrite Hl. Qed.

Lemma strip_by_fenced c c' (y : string) :
  p c = false -> p c' = false ->
  strip_by p (String c (y +:+ String c' "")) = String c (y +:+ String c' "").
Proof.
  intros Hc Hc'. unfold strip_by. rewrite lstrip_cons_keep by exact Hc.
  rewrite rstrip_cons_keep by exact Hc. by rewrite rstrip_app_keep.
Qed.

Lemma trimmed_head c r : trimmed p (String c r) -> p c = false.
Proof.
  intros [Hl _]. cbn in Hl. destruct (p c); [|reflexivity].
  exfalso.
  assert (forall s, String.length (lstrip p s) <= String.length s)%nat as Hlen.
  { induction s as [|d s IH]; cbn; [lia|]. destruct (p d); cbn; lia. }
  specialize (Hlen r). rewrite Hl in Hlen. cbn in Hlen. lia.
Qed.

End Strips.

Section SplitOnce.
Variable sep : Ascii.ascii.

Lemma split_once_app (a b : string) :
  split_once sep a = None -> split_once sep (a +:+ String sep b) = Some (a, b).
Proof.
  induction a as [|c a IH].
  - intros _. rewrite string_app_nil_l. cbn. by rewrite Ascii.eqb_refl.
  - rewrite string_app_cons. cbn.
    destruct (Ascii.eqb c sep); [discriminate|].
    destruct (split_once sep a) as [[x y]|]; [discriminate|]. intros _. by rewrite IH.
Qed.

Lemma split_once_app_None (a b : string) :
  split_once sep a = None -> split_once sep b = None -> split_once sep (a +:+ b) = None.
Proof.
  intros Ha Hb. induction a as [|c a IH]; [exact Hb|].
  rewrite string_app_cons. cbn in *.
  destruct (Ascii.eqb c sep); [discriminate|].
  destruct (split_once sep a) as [[x y]|]; [discriminate|]. by rewrite IH.
Qed.

Lemma split_once_all (p : Ascii.ascii -> bool) (a : string) :
  p sep = false -> all_of p a = true -> split_once sep a = None.
Proof.
  intros Hsep. induction a as [|c a IH]; cbn; [reflexivity|].
  intros H. apply andb_true_iff in H as [Hc H].
  destruct (Ascii.eqb_spec c sep) as [-> | _]; [congruence|]. by rewrite IH.
Qed.

Lemma split_once_fst (s a b : string) :
  split_once sep s = Some (a, b) -> split_once sep a = None.
Proof.
  revert a b. induction s as [|c s IH]; intros a b; cbn; [discriminate|].
  destruct (Ascii.eqb c sep) eqn:Hc.
  - intros H. by injection H as <- _.
  - destruct (split_once sep s) as [[x y]|]; [|discriminate].
    intros H. injection H as <- _. cbn. rewrite Hc. by rewrite (IH x y).
Qed.

Lemma split_once_lstrip (p : Ascii.ascii -> bool) (a : string) :
  split_once sep a = None -> split_once sep (lstrip p a) = None.
Proof.
  induction a as [|c a IH]; cbn; [reflexivity|].
  destruct (Ascii.eqb c sep) eqn:Hc; [discriminate|].
  destruct (split_once sep a) as [[x y]|] eqn:Ha; [discriminate|]. intros _.
  destruct (p c); [by apply IH|]. cbn. by rewrite Hc, Ha.
Qed.

Lemma split_once_rstrip (p : Ascii.ascii -> bool) (a : string) :
  split_once sep a = None -> split_once sep (rstrip p a) = None.
Proof.
  induction a as [|c a IH]; cbn; [reflexivity|].
  destruct (Ascii.eqb c sep) eqn:Hc; [discriminate|].
  destruct (split_once sep a) as [[x y]|] eqn:Ha; [discriminate|]. intros _.
  specialize (IH eq_refl).
  destruct (rstrip p a) as [|d r'] eqn:Hr.
  - destruct (p c); [reflexivity|]. cbn. by rewrite Hc.
  - cbn in IH |- *. rewrite Hc. by rewrite IH.
Qed.

End SplitOnce.

Lemma prefix_empty (s : string) : String.prefix "" s = true.
Proof. by destruct s. Qed.

Lemma prefix_app_split (pat k X : string) :
  String.prefix pat (k +:+ X) = true ->
  String.prefix pat k = true
  \/ exists p2, String.prefix p2 X = true /\ p2 <> "" /\ pat = k +:+ p2.
Proof.
  revert k. induction pat as [|a pat IH]; intros k H; [left; apply prefix_empty|].
  destruct k as [|c k].
  - right. exists (String a pat). split; [exact H|]. by split.
  - rewrite string_app_cons in H. cbn [String.prefix] in H |- *.
    destruct (Ascii.ascii_dec a c) as [<- | ?]; [|discriminate].
    destruct (IH k H) as [Hl | (p2 & Hp & Hne & ->)]; [by left|].
    right. exists p2. by repeat split.
Qed.

(** A key that is not [export] is not taken for the [export ] prefix,
    whatever blank or equals sign follows it. *)
Lemma export_prefix_not_taken (k X' : string) (x0 : Ascii.ascii) :
  k <> "" -> k <> "export" -> String.prefix "export " k = false ->
  x0 = equals_sign \/ is_space x0 = true ->
  String.prefix "export " (k +:+ String x0 X') = false.
Proof.
  intros Hne Hex Hpre Hx.
  destruct (String.prefix "export " (k +:+ String x0 X')) eqn:H; [|reflexivity].
  exfalso. apply prefix_app_split in H as [H | (p2 & Hp & Hp2 & Heq)]; [congruence|].
  destruct p2 as [|b p2]; [done|]. cbn [String.prefix] in Hp.
  destruct (Ascii.ascii_dec b x0) as [<- | ?]; [|discriminate]. clear Hp Hp2 Hpre.
  assert (b <> equals_sign /\ is_space b = false) as [Hb1 Hb2]; [|destruct Hx; congruence].
  do 7 (destruct k as [|? k];
        [ first [ done
                | rewrite string_app_nil_l in Heq; injection Heq as <- _;
                  split; [discriminate | reflexivity] ]
        | rewrite string_app_cons in Heq; injection Heq as <- Heq ]).
  by destruct k.
Qed.

(** The loop's turn on a line with an equals sign after a plain key. *)
Lemma parse_env_line_core (pre ex k m1 R : string) :
  plain_key k ->
  all_of is_space pre = true -> all_of is_space m1 = true ->
  ex = "" \/ ex = "export " ->
  parse_env_line (pre +:+ (ex +:+ k +:+ m1) +:+ String equals_sign R)
  = Some (k, strip_by is_squote (strip_by is_dquote (strip_by is_space R))).
Proof.
  intros (Hne & Htrim & Hnoeq & Hhash & Hexp & Hnotexport) Hpre Hm1 Hex.
  destruct k as [|c0 k'] eqn:Hk; [done|]. rewrite <- Hk in *.
  assert (is_space c0 = false) as Hc0 by (rewrite Hk in Htrim; by eapply trimmed_head).
  assert (split_once equals_sign (k +:+ m1) = None) as Hsplit.
  { apply split_once_app_None; [exact Hnoeq|]. by apply (split_once_all _ is_space). }
  assert (strip_by is_space (k +:+ m1) = k) as Hkey.
  { unfold strip_by. rewrite Hk at 1. rewrite string_app_cons, lstrip_cons_keep by exact Hc0.
    rewrite <- string_app_cons, <- Hk, rstrip_app_all by exact Hm1. apply Htrim. }
  assert (String.eqb k "" = false) as Hkne by (by rewrite Hk).
  assert (exists a0 A', ex +:+ k +:+ m1 = String a0 A' /\ is_space a0 = false
                        /\ String.prefix "#" (String a0 A') = false) as (a0 & A' & HA & Ha0 & Hh).
  { destruct Hex as [-> | ->].
    - exists c0, (k' +:+ m1). rewrite string_app_nil_l, Hk, string_app_cons.
      split; [reflexivity|]. split; [exact Hc0|].
      rewrite Hk in Hhash. cbn [String.prefix] in Hhash |- *.
      destruct (Ascii.ascii_dec _ c0); [destruct k'; discriminate | reflexivity].
    - eexists _, _. rewrite string_app_cons. split; [reflexivity|]. by split. }
  unfold parse_env_line.
  assert (strip_by is_space (pre +:+ (ex +:+ k +:+ m1) +:+ String equals_sign R)
          = (ex +:+ k +:+ m1) +:+ String equals_sign (rstrip is_space R)) as ->.
  { unfold strip_by. rewrite lstrip_app_all by exact Hpre.
    rewrite HA, string_app_cons, lstrip_cons_keep by exact Ha0.
    rewrite <- string_app_cons. by rewrite rstrip_app_keep. }
  cbv zeta.
  assert (String.eqb ((ex +:+ k +:+ m1) +:+ String equals_sign (rstrip is_space R)) "" = false
          /\ String.prefix "#" ((ex +:+ k +:+ m1) +:+ String equals_sign (rstrip is_space R))
             = false) as [-> ->].
  { rewrite HA, string_app_cons. split; [reflexivity|].
    cbn [String.prefix] in Hh |- *.
    destruct (Ascii.ascii_dec _ a0); [destruct A'; discriminate | reflexivity]. }
  cbn [orb].
  assert ((if String.prefix "export "
                ((ex +:+ k +:+ m1) +:+ String equals_sign (rstrip is_space R))
           then string_drop 7 ((ex +:+ k +:+ m1) +:+ String equals_sign (rstrip is_space R))
           else (ex +:+ k +:+ m1) +:+ String equals_sign (rstrip is_space R))
          = (k +:+ m1) +:+ String equals_sign (rstrip is_space R)) as ->.
  { destruct Hex as [-> | ->].
    - rewrite string_app_nil_l.
      assert (String.prefix "export " ((k +:+ m1) +:+ String equals_sign (rstrip is_space R))
              = false) as ->; [|reflexivity].
      rewrite string_app_assoc. destruct m1 as [|x0 m1'].
      + rewrite string_app_nil_l. apply export_prefix_not_taken; try done. by left.
      + rewrite string_app_cons. apply export_prefix_not_taken; try done.
        cbn in Hm1. apply andb_true_iff in Hm1 as [Hx _]. by right.
    - rewrite !string_app_cons, string_app_nil_l. cbn [String.prefix].
      repeat match goal with
             | |- context [Ascii.ascii_dec ?a ?b] =>
                 destruct (Ascii.ascii_dec a b); [|done]
             end.
      by rewrite prefix_empty. }
  rewrite (split_once_app _ _ _ Hsplit), Hkey, Hkne.
  by rewrite strip_by_rstrip.
Qed.

(** X25.  A pair that [load_env_file] takes from a line has a key that
    is not empty, has no blank at either end and holds no equals sign,
    and a value with no single quote at either end. *)
Theorem parse_env_line_yields_clean_pairs :
  forall (raw_line key value : string),
    parse_env_line raw_line = Some (key, value) ->
    key <> ""
    /\ trimmed is_space key
    /\ split_once equals_sign key = None
    /\ trimmed is_squote value.
Proof.
  intros raw_line key value. unfold parse_env_line. cbv zeta.
  destruct (_ || _); [discriminate|].
  destruct (split_once equals_sign _) as [[key0 value0]|] eqn:Hsplit; [|discriminate].
  destruct (String.eqb_spec (strip_by is_space key0) "") as [|Hne]; [discriminate|].
  intros H. injection H as <- <-.
  split; [exact Hne|]. split; [apply strip_by_trimmed|]. split; [|apply strip_by_trimmed].
  unfold strip_by. apply split_once_rstrip, split_once_lstrip.
  by eapply split_once_fst.
Qed.

Lemma parse_env_line_yields_clean_pairs_witness :
  parse_env_line "  export API_KEY = 'abc' " = Some ("API_KEY", "abc")
  /\ trimmed is_space "API_KEY".
Proof.
  assert (parse_env_line "  export API_KEY = 'abc' " = Some ("API_KEY", "abc")) as H
    by (vm_compute; reflexivity).
  split; [exact H|].
  exact (proj1 (proj2 (parse_env_line_yields_clean_pairs _ _ _ H))).
Defined.

(** X26.  Round trip: a plain key and a value written as [KEY=VALUE],
    with or without a leading [export ], with blanks around the line,
    the key and the value, and with the value bare, in double quotes or
    in single quotes, is read back as that key and that value.  A bare
    value must have no blank or quote at either end; a quoted value keeps
    the blanks inside its quotes. *)
Theorem parse_env_line_round_trip :
  forall (k v pre m1 m2 post ex q : string),
    plain_key k ->
    all_of is_space pre = true -> all_of is_space m1 = true ->
    all_of is_space m2 = true -> all_of is_space post = true ->
    ex = "" \/ ex = "export " ->
    (q = "" /\ trimmed is_space v /\ trimmed is_dquote v /\ trimmed is_squote v)
    \/ (q = dq /\ trimmed is_dquote v /\ trimmed is_squote v)
    \/ (q = sq /\ trimmed is_squote v) ->
    parse_env_line (pre +:+ ex +:+ k +:+ m1 +:+ "=" +:+ m2 +:+ q +:+ v +:+ q +:+ post)
    = Some (k, v).
Proof.
  intros k v pre m1 m2 post ex q Hk Hpre Hm1 Hm2 Hpost Hex Hq.
  replace (pre +:+ ex +:+ k +:+ m1 +:+ "=" +:+ m2 +:+ q +:+ v +:+ q +:+ post)
    with (pre +:+ (ex +:+ k +:+ m1) +:+ String equals_sign (m2 +:+ (q +:+ v +:+ q) +:+ post))
    by (by rewrite !string_app_assoc).
  rewrite parse_env_line_core by done. f_equal. f_equal.
  rewrite strip_by_padded by done.
  destruct Hq as [(-> & Hs & Hd & Hs') | [(-> & Hd & Hs') | (-> & Hs')]].
  - rewrite string_app_nil_l, string_app_nil_r.
    by rewrite (strip_by_trimmed_id is_space v Hs), (strip_by_trimmed_id is_dquote v Hd),
         (strip_by_trimmed_id is_squote v Hs').
  - unfold dq. rewrite string_app_cons, string_app_nil_l.
    rewrite strip_by_fenced by reflexivity.
    change (String (Ascii.ascii_of_nat 34) (v +:+ String (Ascii.ascii_of_nat 34) ""))
      with (dq +:+ v +:+ dq).
    rewrite (strip_by_padded is_dquote dq v dq) by reflexivity.
    by rewrite (strip_by_trimmed_id is_dquote v Hd), (strip_by_trimmed_id is_squote v Hs').
  - unfold sq. rewrite string_app_cons, string_app_nil_l.
    rewrite strip_by_fenced by reflexivity.
    rewrite strip_by_fenced by reflexivity.
    change (String (Ascii.ascii_of_nat 39) (v +:+ String (Ascii.ascii_of_nat 39) ""))
      with (sq +:+ v +:+ sq).
    rewrite (strip_by_padded is_squote sq v sq) by reflexivity.
    by rewrite (strip_by_trimmed_id is_squote v Hs').
Qed.

Lemma plain_key_example : plain_key "OPENROUTER_API_KEY".
Proof. repeat split; try reflexivity; discriminate. Qed.

Lemma parse_env_line_round_trip_witness :
  parse_env_line ("  " +:+ "export " +:+ "OPENROUTER_API_KEY" +:+ " " +:+ "=" +:+ " "
                  +:+ dq +:+ "sk or 1" +:+ dq +:+ " ")
  = Some ("OPENROUTER_API_KEY", "sk or 1").
Proof.
  refine (parse_env_line_round_trip "OPENROUTER_API_KEY" "sk or 1" "  " " " " " " "
            "export " dq plain_key_example eq_refl eq_refl eq_refl eq_refl
            (or_intror eq_refl) (or_intror (or_introl _))).
  repeat split; reflexivity.
Defined.
